(** * Sigma Math: session controller, model orchestrator and math renderer

    A shallow embedding of the TypeScript sources

    - [types.ts]                 (the data model),
    - [App.tsx]                  (the session controller: React state and handlers),
    - [components/Sidebar.tsx]   (the history list, which sorts the session array),
    - [components/MathMarkdown.tsx] (the math-aware renderer),
    - [services/geminiService.ts]   (the model orchestrator),

    followed by the properties of the specification that concern them.

    Conventions of the embedding.

    - A JavaScript string is a [string]: a sequence of code units below 256.
    - [Date.now()] is an integer [now : Z] handed to the handler that reads it;
      a handler runs up to its first suspension point within one clock reading.
    - An exception is an explicit [Throw] of the [Result] monad.
    - React state is the record [App.State].  A handler is a function on the
      state committed by the last render; the continuation of [sendMessage]
      after its [await] is a separate transition that runs on the state
      current at that time, with the locals the closure captured. *)

From Stdlib Require Import List String Ascii ZArith Lia Bool Arith.
From Stdlib Require Import DecimalString Sorting.Sorted Sorting.Permutation.
Import ListNotations.
Open Scope string_scope.
Open Scope list_scope.
Open Scope Z_scope.

(* ===================================================================== *)
(** ** JavaScript values, strings and exceptions *)
(* ===================================================================== *)

Module JS.

(** The exceptions the embedded code can meet. *)
Inductive Error : Type :=
| SyntaxError                (* JSON.parse on text that is not JSON *)
| TypeError                  (* a property read on null or undefined *)
| RemoteError (msg : string) (* a rejected remote call *)
| BackendError (msg : string)(* katex.renderToString throwing *).

Inductive Result (A : Type) : Type :=
| Ok (a : A)
| Throw (e : Error).
Arguments Ok {A} a.
Arguments Throw {A} e.

Definition bind {A B} (r : Result A) (k : A -> Result B) : Result B :=
  match r with
  | Ok a => k a
  | Throw e => Throw e
  end.

(** [try { body } catch (e) { handler e }] *)
Definition try_catch {A} (body : Result A) (handler : Error -> Result A) : Result A :=
  match body with
  | Ok a => Ok a
  | Throw e => handler e
  end.

(** The values a loosely typed field may hold ([(p as any).thought]). *)
Inductive value : Type :=
| undefined
| boolean (b : bool)
| str (s : string).

(** JavaScript truthiness. *)
Definition truthy_string (s : string) : bool :=
  match s with
  | EmptyString => false
  | String _ _ => true
  end.

Definition truthy (v : value) : bool :=
  match v with
  | undefined => false
  | boolean b => b
  | str s => truthy_string s
  end.

(** [a || b] on strings. *)
Definition or_string (a b : string) : string :=
  if truthy_string a then a else b.

(** [n.toString()] for an integer [n]. *)
Definition toString (n : Z) : string :=
  NilZero.string_of_int (Z.to_int n).

(** White space and line terminators below code unit 256: what [\s] matches
    and what [trim] strips. *)
Definition is_space (c : ascii) : bool :=
  let n := nat_of_ascii c in
  ((9 <=? n) && (n <=? 13) || (n =? 32) || (n =? 160))%nat.

Definition is_digit (c : ascii) : bool :=
  let n := nat_of_ascii c in
  ((48 <=? n) && (n <=? 57))%nat.

Fixpoint trimStart (s : string) : string :=
  match s with
  | EmptyString => EmptyString
  | String c s' => if is_space c then trimStart s' else s
  end.

(** [trimEnd]: a character is kept when it is not a space or when something
    is kept after it. *)
Fixpoint trimEnd (s : string) : string :=
  match s with
  | EmptyString => EmptyString
  | String c s' =>
      match trimEnd s' with
      | EmptyString => if is_space c then EmptyString else String c EmptyString
      | t => String c t
      end
  end.

Definition trim (s : string) : string := trimEnd (trimStart s).

(** [s.slice(0, n)] *)
Definition slice0 (n : nat) (s : string) : string := substring 0 n s.

(** [s.substring(n)] *)
Fixpoint substring_from (n : nat) (s : string) : string :=
  match n, s with
  | O, _ => s
  | S n', EmptyString => EmptyString
  | S n', String _ s' => substring_from n' s'
  end.

(** [s.startsWith(p)] *)
Definition startsWith (p s : string) : bool := prefix p s.

(** [s.indexOf(c)] for a single character, [-1] when absent. *)
Fixpoint indexOf_from (c : ascii) (s : string) (i : Z) : Z :=
  match s with
  | EmptyString => -1
  | String d s' => if Ascii.eqb c d then i else indexOf_from c s' (i + 1)
  end.

Definition indexOf (c : ascii) (s : string) : Z := indexOf_from c s 0.

(** [s.split(c)] for a single character separator: never empty. *)
Fixpoint split (c : ascii) (s : string) : list string :=
  match s with
  | EmptyString => [EmptyString]
  | String d s' =>
      if Ascii.eqb c d then EmptyString :: split c s'
      else match split c s' with
           | [] => [String d EmptyString]
           | x :: xs => String d x :: xs
           end
  end.

End JS.

Notation "x <- c1 ;; c2" := (JS.bind c1 (fun x => c2))
  (at level 61, c1 at next level, right associativity).

(* ===================================================================== *)
(** ** The data model ([types.ts]) *)
(* ===================================================================== *)

Module Attachment.
Record t : Type := mk {
  name : string;
  type : string;
  data : string  (* base64, as a data URL *)
}.
End Attachment.

Inductive Role : Type := user | assistant | system.

Module Message.
Record t : Type := mk {
  id : string;
  role : Role;
  content : string;
  attachments : option (list Attachment.t);
  thinking : JS.value;
  timestamp : Z
}.
End Message.

Module ChatSession.
Record t : Type := mk {
  id : string;
  title : string;
  messages : list Message.t;
  createdAt : Z;
  lastModified : Z
}.
End ChatSession.

(* ===================================================================== *)
(** ** The model orchestrator ([services/geminiService.ts]) *)
(* ===================================================================== *)

Module GeminiService.

(** A part of a request: [{text}] or [{inlineData: {mimeType, data}}]. *)
Inductive RequestPart : Type :=
| TextPart (text : string)
| InlineData (mimeType data : string).

Inductive ApiRole : Type := model_role | user_role.

Record Content : Type := mkContent {
  c_role : ApiRole;
  c_parts : list RequestPart
}.

(** A part of a reply; [thought] is read through [any]. *)
Record Part : Type := mkPart {
  text : option string;
  thought : JS.value
}.

Record ReplyContent : Type := mkReplyContent { parts : option (list Part) }.
Record Candidate : Type := mkCandidate { content : option ReplyContent }.

(** [GenerateContentResponse]: the candidates and the [text] convenience
    field. *)
Record Response : Type := mkResponse {
  candidates : option (list Candidate);
  response_text : option string
}.

(** What [generateMathResponse] resolves to: [{ text, thinking }]. *)
Record Reply : Type := mkReply {
  reply_text : string;
  reply_thinking : JS.value
}.

Definition apology : string :=
  "I couldn't generate a solution. Please try again.".

(** [att.data.split(',')[1] || att.data] *)
Definition strip_data_prefix (data : string) : string :=
  match JS.split "," data with
  | _ :: second :: _ => JS.or_string second data
  | _ => data
  end.

(** The request contents: one turn per history message, then the new user
    turn with the text and one inline part per attachment. *)
Definition build_contents (history : list Message.t) (currentMessage : string)
    (attachments : option (list Attachment.t)) : list Content :=
  let contents :=
    map (fun msg =>
           mkContent
             (match Message.role msg with assistant => model_role | _ => user_role end)
             [TextPart (Message.content msg)])
        history in
  let currentParts :=
    TextPart currentMessage ::
    match attachments with
    | Some atts =>
        map (fun att =>
               InlineData (Attachment.type att)
                          (strip_data_prefix (Attachment.data att)))
            atts
    | None => []
    end in
  contents ++ [mkContent user_role currentParts].

(** [response.candidates?.[0]?.content?.parts || []] *)
Definition first_parts (response : Response) : list Part :=
  match candidates response with
  | Some (c :: _) =>
      match content c with
      | Some rc => match parts rc with Some ps => ps | None => [] end
      | None => []
      end
  | _ => []
  end.

Definition has_text (p : Part) : bool :=
  match text p with Some s => JS.truthy_string s | None => false end.

(** [parts.find(p => p.text)?.text || ''] *)
Definition textPart (ps : list Part) : string :=
  match find has_text ps with
  | Some p => match text p with Some s => s | None => EmptyString end
  | None => EmptyString
  end.

(** [parts.find(p => p.thought)?.thought || ''] *)
Definition thinkingPart (ps : list Part) : JS.value :=
  match find (fun p => JS.truthy (thought p)) ps with
  | Some p => thought p
  | None => JS.str EmptyString
  end.

(** The return statement of [generateMathResponse]. *)
Definition decompose (response : Response) : Reply :=
  let ps := first_parts response in
  let from_field := match response_text response with Some s => s | None => EmptyString end in
  mkReply (JS.or_string (textPart ps) (JS.or_string from_field apology))
          (thinkingPart ps).

(** [generateMathResponse], the remote call being [remote]: its failure is
    logged and rethrown. *)
Definition generateMathResponse (remote : list Content -> JS.Result Response)
    (history : list Message.t) (currentMessage : string)
    (attachments : option (list Attachment.t)) : JS.Result Reply :=
  let contents := build_contents history currentMessage attachments in
  JS.try_catch
    (response <- remote contents ;; JS.Ok (decompose response))
    (fun error => JS.Throw error).

End GeminiService.

(* ===================================================================== *)
(** ** The session controller ([App.tsx]) and the history list
       ([components/Sidebar.tsx]) *)
(* ===================================================================== *)

Module App.

(** A [File] of the file input, with the data URL that [readAsDataURL]
    yields for it. *)
Record File : Type := mkFile {
  file_name : string;
  file_type : string;
  file_size : Z;
  file_dataURL : string
}.

(** A call of [sendMessage] suspended at its [await]: the locals its
    continuation reads. *)
Record Suspended : Type := mkSuspended {
  activeChatId : string;
  chatHistory : list Message.t;
  originalInput : string;
  originalAttachments : list Attachment.t
}.

(** The state of the [App] component; [awaiting] lists the suspended calls
    of [sendMessage] and [alerts] the messages shown with [alert]. *)
Record State : Type := mkState {
  chats : list ChatSession.t;
  currentChatId : option string;
  inputText : string;
  attachments : list Attachment.t;
  isTyping : bool;
  awaiting : list Suspended;
  alerts : list string
}.

Definition set_chats (f : list ChatSession.t -> list ChatSession.t) (st : State) : State :=
  mkState (f (chats st)) (currentChatId st) (inputText st) (attachments st)
          (isTyping st) (awaiting st) (alerts st).

Definition set_currentChatId (c : option string) (st : State) : State :=
  mkState (chats st) c (inputText st) (attachments st)
          (isTyping st) (awaiting st) (alerts st).

Definition set_inputText (s : string) (st : State) : State :=
  mkState (chats st) (currentChatId st) s (attachments st)
          (isTyping st) (awaiting st) (alerts st).

Definition set_attachments (f : list Attachment.t -> list Attachment.t) (st : State) : State :=
  mkState (chats st) (currentChatId st) (inputText st) (f (attachments st))
          (isTyping st) (awaiting st) (alerts st).

Definition set_isTyping (b : bool) (st : State) : State :=
  mkState (chats st) (currentChatId st) (inputText st) (attachments st)
          b (awaiting st) (alerts st).

Definition set_awaiting (f : list Suspended -> list Suspended) (st : State) : State :=
  mkState (chats st) (currentChatId st) (inputText st) (attachments st)
          (isTyping st) (f (awaiting st)) (alerts st).

Definition alert (msg : string) (st : State) : State :=
  mkState (chats st) (currentChatId st) (inputText st) (attachments st)
          (isTyping st) (awaiting st) (alerts st ++ [msg]).

(** The state a first render starts from, for a store read at start-up. *)
Definition initial (cs : list ChatSession.t) (cur : option string) : State :=
  mkState cs cur EmptyString [] false [] [].

Definition has_id (id : string) (c : ChatSession.t) : bool :=
  String.eqb (ChatSession.id c) id.

(** [chats.find(c => c.id === id)] *)
Definition find_chat (id : string) (cs : list ChatSession.t) : option ChatSession.t :=
  find (has_id id) cs.

(** *** [Sidebar]: [chats.sort((a,b) => b.lastModified - a.lastModified)]

    [Array.prototype.sort] sorts the array it is called on, in place and
    stably.  The array is the [chats] state itself, so every render leaves
    the state's array ordered by decreasing [lastModified]. *)

Fixpoint insert_desc (x : ChatSession.t) (l : list ChatSession.t) : list ChatSession.t :=
  match l with
  | [] => [x]
  | y :: l' =>
      if ChatSession.lastModified y <=? ChatSession.lastModified x
      then x :: y :: l'
      else y :: insert_desc x l'
  end.

Fixpoint sort_desc (l : list ChatSession.t) : list ChatSession.t :=
  match l with
  | [] => []
  | x :: l' => insert_desc x (sort_desc l')
  end.

(** One render of [App] (and so of [Sidebar]) on the committed state. *)
Definition render (st : State) : State := set_chats sort_desc st.

(** *** The handlers *)

Definition newChat (now : Z) (title : string) : ChatSession.t :=
  ChatSession.mk (JS.toString now) title [] now now.

Definition startNewChat (now : Z) (st : State) : State :=
  let c := newChat now "New Calculation" in
  set_currentChatId (Some (ChatSession.id c)) (set_chats (fun prev => c :: prev) st).

Definition remove_id (id : string) (cs : list ChatSession.t) : list ChatSession.t :=
  filter (fun c => negb (has_id id c)) cs.

(** [currentChatId === id] *)
Definition is_current (cur : option string) (id : string) : bool :=
  match cur with
  | Some c => String.eqb c id
  | None => false
  end.

Definition deleteChat (id : string) (st : State) : State :=
  let st1 := set_chats (remove_id id) st in
  if is_current (currentChatId st) id then
    let remaining := remove_id id (chats st) in
    set_currentChatId
      (match remaining with
       | c :: _ => Some (ChatSession.id c)
       | [] => None
       end) st1
  else st1.

Definition max_file_size : Z := 10 * 1024 * 1024.

(** The loop of [handleFileChange]: the attachments pushed and the alerts
    raised, in order. *)
Fixpoint read_files (files : list File) : list Attachment.t * list string :=
  match files with
  | [] => ([], [])
  | file :: rest =>
      let '(atts, warns) := read_files rest in
      if max_file_size <? file_size file
      then (atts, "File too large. Max 10MB per file." :: warns)
      else (Attachment.mk (file_name file) (file_type file) (file_dataURL file) :: atts,
            warns)
  end.

(** [handleFileChange]; the reads of [FileReader] succeed and the handler
    is taken as one transition. *)
Definition handleFileChange (files : option (list File)) (st : State) : State :=
  match files with
  | None => st
  | Some fs =>
      let '(newAttachments, warns) := read_files fs in
      let st1 := fold_left (fun s w => alert w s) warns st in
      set_attachments (fun prev => prev ++ newAttachments) st1
  end.

Definition append_message (target : string) (m : Message.t) (now : Z)
    (chat : ChatSession.t) : ChatSession.t :=
  if has_id target chat
  then ChatSession.mk (ChatSession.id chat) (ChatSession.title chat)
                      (ChatSession.messages chat ++ [m])
                      (ChatSession.createdAt chat) now
  else chat.

(** The [userMessage] that [sendMessage] builds from the input bar. *)
Definition userMessage (now : Z) (st : State) : Message.t :=
  Message.mk (JS.toString now) user (inputText st)
             (Some (attachments st)) JS.undefined now.

(** [sendMessage] up to its [await]. *)
Definition sendMessage (now : Z) (st : State) : State :=
  if negb (JS.truthy_string (JS.trim (inputText st)))
     && (Nat.eqb (List.length (attachments st)) 0)
  then st
  else if isTyping st then st
  else
    let existing :=
      match currentChatId st with
      | Some id => if JS.truthy_string id then Some id else None
      | None => None
      end in
    let '(active, st1) :=
      match existing with
      | Some id => (id, st)
      | None =>
          let c := newChat now (JS.or_string (JS.slice0 35 (inputText st))
                                             "Multimodal Query") in
          (ChatSession.id c,
           set_currentChatId (Some (ChatSession.id c))
                             (set_chats (fun prev => c :: prev) st))
      end in
    let st2 := set_chats (map (append_message active (userMessage now st) now)) st1 in
    let history :=
      match find_chat active (chats st) with
      | Some c => ChatSession.messages c
      | None => []
      end in
    let call := mkSuspended active history (inputText st) (attachments st) in
    set_awaiting (fun calls => calls ++ [call])
      (set_isTyping true
         (set_attachments (fun _ => []) (set_inputText EmptyString st2))).

Definition error_text : string :=
  "I encountered an error processing your mathematical query. Please ensure your expression is valid and try again.".

(** The success branch: the assistant message, the title of a session that
    had no message, and [lastModified]. *)
Definition append_reply (call : Suspended) (reply : GeminiService.Reply) (now : Z)
    (chat : ChatSession.t) : ChatSession.t :=
  if has_id (activeChatId call) chat
  then
    let assistantMessage :=
      Message.mk (JS.toString (now + 1)) assistant
                 (GeminiService.reply_text reply) None
                 (GeminiService.reply_thinking reply) now in
    ChatSession.mk (ChatSession.id chat)
                   (if Nat.eqb (List.length (ChatSession.messages chat)) 0
                    then JS.slice0 35 (originalInput call)
                    else ChatSession.title chat)
                   (ChatSession.messages chat ++ [assistantMessage])
                   (ChatSession.createdAt chat) now
  else chat.

(** The [catch] branch: the fallback message only. *)
Definition append_error (call : Suspended) (now : Z)
    (chat : ChatSession.t) : ChatSession.t :=
  if has_id (activeChatId call) chat
  then
    let errorMessage :=
      Message.mk (JS.toString (now + 1)) assistant error_text None
                 JS.undefined now in
    ChatSession.mk (ChatSession.id chat) (ChatSession.title chat)
                   (ChatSession.messages chat ++ [errorMessage])
                   (ChatSession.createdAt chat)
                   (ChatSession.lastModified chat)
  else chat.

Fixpoint remove_nth {A} (k : nat) (l : list A) : list A :=
  match k, l with
  | _, [] => []
  | O, _ :: l' => l'
  | S k', x :: l' => x :: remove_nth k' l'
  end.

(** [sendMessage] from its [await] on: the [k]-th suspended call resumes
    when the remote call settles with [outcome]; [try]/[catch]/[finally]. *)
Definition sendMessage_resume (k : nat) (now : Z)
    (outcome : JS.Result GeminiService.Response) (st : State) : State :=
  match nth_error (awaiting st) k with
  | None => st
  | Some call =>
      let result :=
        GeminiService.generateMathResponse (fun _ => outcome)
          (chatHistory call) (originalInput call)
          (Some (originalAttachments call)) in
      let st1 :=
        match result with
        | JS.Ok response => set_chats (map (append_reply call response now)) st
        | JS.Throw _ => set_chats (map (append_error call now)) st
        end in
      set_awaiting (remove_nth k) (set_isTyping false st1)
  end.

(** *** The event loop

    React runs one event handler at a time, commits the updates it queued
    and renders before the next event is dispatched; a handler reads the
    state of that render.  So each event is handled on the rendered state
    and the committed result is rendered again.  [Settle] is the settling
    of the remote call of a suspended [sendMessage]; the other events come
    from the user. *)

Inductive Event : Type :=
| NewChat (now : Z)
| DeleteChat (id : string)
| SelectChat (n : nat)
| SetInputText (s : string)
| FilesChosen (files : option (list File))
| RemoveAttachment (i : nat)
| ClearAttachments
| Send (now : Z)
| Settle (k : nat) (now : Z) (outcome : JS.Result GeminiService.Response).

(** [onSelectChat(chat.id)], for the [n]-th session that the sidebar
    lists: [setCurrentChatId]. *)
Definition selectChat (n : nat) (st : State) : State :=
  match nth_error (chats st) n with
  | Some chat => set_currentChatId (Some (ChatSession.id chat)) st
  | None => st
  end.

(** [prev.filter((_, idx) => idx !== i)] *)
Definition removeAttachment (i : nat) (st : State) : State :=
  set_attachments (remove_nth i) st.

Definition handle (e : Event) (st : State) : State :=
  match e with
  | NewChat now => startNewChat now st
  | DeleteChat id => deleteChat id st
  | SelectChat n => selectChat n st
  | SetInputText s => set_inputText s st
  | FilesChosen files => handleFileChange files st
  | RemoveAttachment i => removeAttachment i st
  | ClearAttachments => set_attachments (fun _ => []) st
  | Send now => sendMessage now st
  | Settle k now outcome => sendMessage_resume k now outcome st
  end.

Definition step (st : State) (e : Event) : State := render (handle e st).

Definition run (events : list Event) (st : State) : State :=
  fold_left step events (render st).

(** The store invariant: the active id is null or the id of a session. *)
Definition store_inv (st : State) : Prop :=
  match currentChatId st with
  | None => True
  | Some id => exists c, In c (chats st) /\ ChatSession.id c = id
  end.

End App.


(* ===================================================================== *)
(** ** Regular expressions: the backtracking matcher, for the patterns
       of [MathMarkdown] *)
(* ===================================================================== *)

Module RegExp.

(** The pattern syntax in use: characters, classes, sequence, greedy and
    lazy [*] (so [r+] is [r r*] and [r+?] is [r r*?]), the one capture
    group, and [^]. *)
Inductive t : Type :=
| Char (c : ascii)
| Class (f : ascii -> bool)
| Seq (r1 r2 : t)
| Star (greedy : bool) (r : t)
| Group (r : t)
| Bol.

Definition Plus (greedy : bool) (r : t) : t := Seq r (Star greedy r).

(** A matcher state: the index reached, the input left, the capture. *)
Record MState : Type := mkMState {
  index : nat;
  rest : string;
  capture : option string
}.

Definition eat (st : MState) (ok : ascii -> bool) : list MState :=
  match rest st with
  | EmptyString => []
  | String c s' =>
      if ok c then [mkMState (S (index st)) s' (capture st)] else []
  end.

(** [r*] from [st]: the states reachable by iterating [step], in the order
    backtracking tries them (longest first when greedy, shortest first when
    lazy); an iteration that consumes nothing is not repeated. *)
Fixpoint star (greedy : bool) (step : MState -> list MState) (fuel : nat)
    (st : MState) : list MState :=
  match fuel with
  | O => [st]
  | S fuel' =>
      let more :=
        flat_map (fun st' =>
                    if (String.length (rest st') <? String.length (rest st))%nat
                    then star greedy step fuel' st'
                    else [])
                 (step st) in
      if greedy then more ++ [st] else st :: more
  end.

(** The characters consumed between two states. *)
Definition consumed (from to : MState) : string :=
  substring 0 (index to - index from) (rest from).

(** All the ways [r] matches at [st], in backtracking order. *)
Fixpoint matches (r : t) (st : MState) : list MState :=
  match r with
  | Char c => eat st (Ascii.eqb c)
  | Class f => eat st f
  | Seq r1 r2 => flat_map (matches r2) (matches r1 st)
  | Star greedy r' => star greedy (matches r') (S (String.length (rest st))) st
  | Group r' =>
      map (fun st' => mkMState (index st') (rest st') (Some (consumed st st')))
          (matches r' st)
  | Bol => if Nat.eqb (index st) 0 then [st] else []
  end.

(** The match of [r] that starts at index [i], where [s] is the input from
    [i] on: its length and its capture. *)
Definition exec_at (r : t) (i : nat) (s : string) : option (nat * option string) :=
  match matches r (mkMState i s None) with
  | [] => None
  | st :: _ => Some ((index st - i)%nat, capture st)
  end.

(** [r.test(s)]: a match starts at some index. *)
Fixpoint test_from (r : t) (i : nat) (s : string) : bool :=
  match exec_at r i s with
  | Some _ => true
  | None =>
      match s with
      | EmptyString => false
      | String _ s' => test_from r (S i) s'
      end
  end.

Definition test (r : t) (s : string) : bool := test_from r 0 s.

(** [s.replace(r, f)] for a global [r] and a replacer function [f] of the
    match and the capture.  The scan goes left to right; [skip] counts the
    characters of the last match still to pass; after an empty match the
    scan moves on by one character. *)
Fixpoint replace_from (r : t) (f : string -> option string -> JS.Result string)
    (skip i : nat) (s : string) {struct s} : JS.Result string :=
  match skip with
  | S skip' =>
      match s with
      | EmptyString => JS.Ok EmptyString
      | String _ s' => replace_from r f skip' (S i) s'
      end
  | O =>
      match exec_at r i s with
      | Some (len, cap) =>
          replacement <- f (substring 0 len s) cap ;;
          match s with
          | EmptyString => JS.Ok replacement
          | String c s' =>
              match len with
              | O =>
                  tail <- replace_from r f 0 (S i) s' ;;
                  JS.Ok (replacement ++ String c tail)%string
              | S len' =>
                  tail <- replace_from r f len' (S i) s' ;;
                  JS.Ok (replacement ++ tail)%string
              end
          end
      | None =>
          match s with
          | EmptyString => JS.Ok EmptyString
          | String c s' =>
              tail <- replace_from r f 0 (S i) s' ;;
              JS.Ok (String c tail)
          end
      end
  end.

Definition replace (r : t) (f : string -> option string -> JS.Result string)
    (s : string) : JS.Result string :=
  replace_from r f 0 0 s.

(** *** Character classes *)

Definition any (c : ascii) : bool := true.              (* [\s\S] *)
Definition space (c : ascii) : bool := JS.is_space c.   (* \s *)
Definition digit (c : ascii) : bool := JS.is_digit c.   (* \d *)
(** [.]: any character but a line terminator. *)
Definition dot (c : ascii) : bool :=
  negb (Ascii.eqb c "010" || Ascii.eqb c "013").
(** [[^\$\n]] *)
Definition not_dollar_newline (c : ascii) : bool :=
  negb (Ascii.eqb c "$" || Ascii.eqb c "010").

End RegExp.

(* ===================================================================== *)
(** ** The math-aware renderer ([components/MathMarkdown.tsx]) *)
(* ===================================================================== *)

Module MathMarkdown.
Import RegExp.

(** [katex.renderToString(text, { displayMode, ... })]: the typeset HTML,
    or an exception. *)
Definition Katex : Type := string -> bool -> JS.Result string.

(** The elements the line pass returns, with the HTML set inside. *)
Inductive Element : Type :=
| li_disc (html : string)     (* <li className="ml-5 list-disc mb-1"> *)
| li_decimal (html : string)  (* <li className="ml-5 list-decimal mb-1"> *)
| br                          (* <br /> *)
| p (html : string).          (* <p className="mb-3 leading-relaxed"> *)

(** What [renderedContent] is: [null], the content itself, or the array of
    elements. *)
Inductive Rendered : Type :=
| Null
| Raw (content : string)
| Elements (blocks : list Element).

Definition dquote : string := String (ascii_of_nat 34) EmptyString.

Definition display_open : string :=
  ("<div class=" ++ dquote ++ "katex-display-container" ++ dquote ++ ">")%string.
Definition display_close : string := "</div>".

(** The wrapper of a display-math fragment. *)
Definition display_container (html : string) : string :=
  (display_open ++ html ++ display_close)%string.

(** [renderMath]: the helper that renders math strings safely. *)
Definition renderMath (katex : Katex) (text : string) (isBlock : bool)
    : JS.Result string :=
  JS.try_catch (katex text isBlock) (fun e => JS.Ok text).

(** [/\$\$\s*([\s\S]*?)\s*\$\$/g] *)
Definition block_math : RegExp.t :=
  Seq (Char "$") (Seq (Char "$")
    (Seq (Star true (Class space))
      (Seq (Group (Star false (Class any)))
        (Seq (Star true (Class space))
          (Seq (Char "$") (Char "$")))))).

(** [/\$([^\$\n]+?)\$/g] *)
Definition inline_math : RegExp.t :=
  Seq (Char "$")
    (Seq (Group (Plus false (Class not_dollar_newline))) (Char "$")).

(** [/\*\*(.*?)\*\*/g] *)
Definition bold : RegExp.t :=
  Seq (Char "*") (Seq (Char "*")
    (Seq (Group (Star false (Class dot)))
      (Seq (Char "*") (Char "*")))).

(** [/^\d+\. /] *)
Definition ordered_item : RegExp.t :=
  Seq Bol (Seq (Plus true (Class digit)) (Seq (Char ".") (Char " "))).

(** The capture handed to a replacer. *)
Definition group1 (cap : option string) : string :=
  match cap with Some s => s | None => EmptyString end.

(** The callback of [lines.map]. *)
Definition render_line (line : string) : JS.Result Element :=
  lineHtml <- replace bold
                (fun _ cap =>
                   JS.Ok ("<strong>" ++ group1 cap ++ "</strong>")%string)
                line ;;
  if JS.startsWith "* " (JS.trim line) || JS.startsWith "- " (JS.trim line)
  then JS.Ok (li_disc (JS.substring_from 2 (JS.trim lineHtml)))
  else if test ordered_item (JS.trim line)
  then
    let contentStart := JS.indexOf " " line + 1 in
    JS.Ok (li_decimal (JS.substring_from (Z.to_nat contentStart) (JS.trim lineHtml)))
  else if negb (JS.truthy_string (JS.trim line))
  then JS.Ok br
  else JS.Ok (p lineHtml).

(** [array.map(f)] for a callback that may throw. *)
Fixpoint mapM {A B} (f : A -> JS.Result B) (l : list A) : JS.Result (list B) :=
  match l with
  | [] => JS.Ok []
  | x :: l' =>
      y <- f x ;;
      ys <- mapM f l' ;;
      JS.Ok (y :: ys)
  end.

(** The body of the [useMemo] of [MathMarkdown]; [katex] is [window.katex],
    absent when the script is not loaded. *)
Definition renderedContent (katex : option Katex) (content : string)
    : JS.Result Rendered :=
  if negb (JS.truthy_string content) then JS.Ok Null
  else
    match katex with
    | None => JS.Ok (Raw content)
    | Some katex =>
        processed1 <-
          replace block_math
            (fun _ math =>
               html <- renderMath katex (group1 math) true ;;
               JS.Ok (display_container html))
            content ;;
        processed2 <-
          replace inline_math
            (fun _ math => renderMath katex (group1 math) false)
            processed1 ;;
        blocks <- mapM render_line (JS.split "010" processed2) ;;
        JS.Ok (Elements blocks)
    end.

End MathMarkdown.

(* ===================================================================== *)
(** ** [JSON.parse] and the store read at start-up ([App.tsx], the
       [useState] initializers) *)
(* ===================================================================== *)

Module JSON.

#[local] Set Warnings "-register-all".

(** A JSON value.  A number keeps its text. *)
Inductive t : Type :=
| JNull
| JBool (b : bool)
| JNumber (lexeme : string)
| JString (s : string)
| JArray (elements : list t)
| JObject (members : list (string * t)).

(** JSON white space: space, tab, line feed, carriage return. *)
Definition is_ws (c : ascii) : bool :=
  Ascii.eqb c " " || Ascii.eqb c "009" || Ascii.eqb c "010" || Ascii.eqb c "013".

Fixpoint skip_ws (s : string) : string :=
  match s with
  | String c s' => if is_ws c then skip_ws s' else s
  | EmptyString => s
  end.

Fixpoint span_digits (s : string) : string * string :=
  match s with
  | String c s' =>
      if JS.is_digit c
      then let '(ds, r) := span_digits s' in (String c ds, r)
      else (EmptyString, s)
  | EmptyString => (EmptyString, EmptyString)
  end.

Definition hex_value (c : ascii) : option nat :=
  let n := nat_of_ascii c in
  if ((48 <=? n) && (n <=? 57))%nat then Some (n - 48)%nat
  else if ((65 <=? n) && (n <=? 70))%nat then Some (n - 55)%nat
  else if ((97 <=? n) && (n <=? 102))%nat then Some (n - 87)%nat
  else None.

(** The code unit of [\uXXXX]. *)
Definition hex4 (a b c d : ascii) : option nat :=
  match hex_value a, hex_value b, hex_value c, hex_value d with
  | Some x, Some y, Some z, Some w => Some (((x * 16 + y) * 16 + z) * 16 + w)%nat
  | _, _, _, _ => None
  end.

Section Parser.

(** A [\u] escape above 00FF names a code unit that the strings of this
    embedding do not have.  The parser proper does not accept it
    ([wide_ok = false]); with [wide_ok = true] it reads on, a question mark
    standing for the code unit, so that [parse] can tell JSON text with
    such an escape from text that is not JSON. *)
Variable wide_ok : bool.

(** The characters of a string literal after its opening quote, up to the
    closing quote. *)
Fixpoint parse_string_body (s : string) : option (string * string) :=
  match s with
  | EmptyString => None
  | String c r =>
      if Ascii.eqb c (ascii_of_nat 34) then Some (EmptyString, r)
      else if Ascii.eqb c "\" then
        match r with
        | String e r' =>
            let simple (x : ascii) :=
              match parse_string_body r' with
              | Some (body, rest) => Some (String x body, rest)
              | None => None
              end in
            if Ascii.eqb e (ascii_of_nat 34) then simple (ascii_of_nat 34)
            else if Ascii.eqb e "\" then simple "\"%char
            else if Ascii.eqb e "/" then simple "/"%char
            else if Ascii.eqb e "b" then simple "008"%char
            else if Ascii.eqb e "f" then simple "012"%char
            else if Ascii.eqb e "n" then simple "010"%char
            else if Ascii.eqb e "r" then simple "013"%char
            else if Ascii.eqb e "t" then simple "009"%char
            else if Ascii.eqb e "u" then
              match r' with
              | String h1 (String h2 (String h3 (String h4 r''))) =>
                  match hex4 h1 h2 h3 h4, parse_string_body r'' with
                  | Some n, Some (body, rest) =>
                      if (n <? 256)%nat
                      then Some (String (ascii_of_nat n) body, rest)
                      else if wide_ok then Some (String "?" body, rest)
                      else None
                  | _, _ => None
                  end
              | _ => None
              end
            else None
        | EmptyString => None
        end
      else if (nat_of_ascii c <? 32)%nat then None
      else
        match parse_string_body r with
        | Some (body, rest) => Some (String c body, rest)
        | None => None
        end
  end.

(** [accept c s]: [s] without its first character, when that is [c]. *)
Definition accept (c : ascii) (s : string) : option string :=
  match s with
  | String d r => if Ascii.eqb c d then Some r else None
  | EmptyString => None
  end.

(** [expect w s]: [s] without its prefix [w]. *)
Fixpoint expect (w s : string) : option string :=
  match w, s with
  | EmptyString, _ => Some s
  | String a w', String b s' => if Ascii.eqb a b then expect w' s' else None
  | String _ _, EmptyString => None
  end.

(** A number: an optional minus, an integer part without leading zero, an
    optional fraction, an optional exponent. *)
Definition parse_int_part (s : string) : option (string * string) :=
  match s with
  | String c r =>
      if Ascii.eqb c "0" then Some ("0", r)
      else if JS.is_digit c
      then let '(ds, r') := span_digits r in Some (String c ds, r')
      else None
  | EmptyString => None
  end.

(** One digit or more. *)
Definition digits1 (s : string) : option (string * string) :=
  match span_digits s with
  | (EmptyString, _) => None
  | (ds, r) => Some (ds, r)
  end.

Definition parse_frac_part (s : string) : option (string * string) :=
  match accept "." s with
  | Some r =>
      match digits1 r with
      | Some (ds, r') => Some (String "." ds, r')
      | None => None
      end
  | None => Some (EmptyString, s)
  end.

Definition parse_exp_part (s : string) : option (string * string) :=
  match s with
  | String c r =>
      if Ascii.eqb c "e" || Ascii.eqb c "E" then
        let '(sign, r1) :=
          match r with
          | String x r1 =>
              if Ascii.eqb x "+" || Ascii.eqb x "-"
              then (String x EmptyString, r1) else (EmptyString, r)
          | EmptyString => (EmptyString, r)
          end in
        match digits1 r1 with
        | Some (ds, r') => Some ((String c sign ++ ds)%string, r')
        | None => None
        end
      else Some (EmptyString, s)
  | EmptyString => Some (EmptyString, s)
  end.

Definition parse_number (s : string) : option (string * string) :=
  let '(sign, s1) :=
    match accept "-" s with
    | Some r => ("-", r)
    | None => (EmptyString, s)
    end in
  match parse_int_part s1 with
  | Some (i, s2) =>
      match parse_frac_part s2 with
      | Some (f, s3) =>
          match parse_exp_part s3 with
          | Some (e, s4) => Some ((sign ++ i ++ f ++ e)%string, s4)
          | None => None
          end
      | None => None
      end
  | None => None
  end.

(** A value, the elements of an array after its bracket, the members of an
    object after its brace; each with the input left.  [fuel] bounds the
    depth of the calls; every second call consumes a character. *)
Fixpoint parse_value (fuel : nat) (s : string) : option (t * string) :=
  match fuel with
  | O => None
  | S fuel' =>
      match skip_ws s with
      | EmptyString => None
      | String c r =>
          if Ascii.eqb c "n" then
            match expect "ull" r with Some r' => Some (JNull, r') | None => None end
          else if Ascii.eqb c "t" then
            match expect "rue" r with Some r' => Some (JBool true, r') | None => None end
          else if Ascii.eqb c "f" then
            match expect "alse" r with Some r' => Some (JBool false, r') | None => None end
          else if Ascii.eqb c (ascii_of_nat 34) then
            match parse_string_body r with
            | Some (str, r') => Some (JString str, r')
            | None => None
            end
          else if Ascii.eqb c "[" then
            match accept "]" (skip_ws r) with
            | Some r' => Some (JArray [], r')
            | None =>
                match parse_elements fuel' r with
                | Some (vs, r') => Some (JArray vs, r')
                | None => None
                end
            end
          else if Ascii.eqb c "{" then
            match accept "}" (skip_ws r) with
            | Some r' => Some (JObject [], r')
            | None =>
                match parse_members fuel' r with
                | Some (ms, r') => Some (JObject ms, r')
                | None => None
                end
            end
          else
            match parse_number (String c r) with
            | Some (lexeme, r') => Some (JNumber lexeme, r')
            | None => None
            end
      end
  end
with parse_elements (fuel : nat) (s : string) : option (list t * string) :=
  match fuel with
  | O => None
  | S fuel' =>
      match parse_value fuel' s with
      | Some (v, r) =>
          match accept "," (skip_ws r) with
          | Some r' =>
              match parse_elements fuel' r' with
              | Some (vs, r'') => Some (v :: vs, r'')
              | None => None
              end
          | None =>
              match accept "]" (skip_ws r) with
              | Some r' => Some ([v], r')
              | None => None
              end
          end
      | None => None
      end
  end
with parse_members (fuel : nat) (s : string) : option (list (string * t) * string) :=
  match fuel with
  | O => None
  | S fuel' =>
      match accept (ascii_of_nat 34) (skip_ws s) with
      | Some r =>
          match parse_string_body r with
          | Some (key, r1) =>
              match accept ":" (skip_ws r1) with
              | Some r2 =>
                  match parse_value fuel' r2 with
                  | Some (v, r3) =>
                      match accept "," (skip_ws r3) with
                      | Some r4 =>
                          match parse_members fuel' r4 with
                          | Some (ms, r5) => Some ((key, v) :: ms, r5)
                          | None => None
                          end
                      | None =>
                          match accept "}" (skip_ws r3) with
                          | Some r4 => Some ([(key, v)], r4)
                          | None => None
                          end
                      end
                  | None => None
                  end
              | None => None
              end
          | None => None
          end
      | None => None
      end
  end.

(** The fuel given to a text: twice its length and two, which is enough
    (see [JSONFacts.parse_fuel_enough]). *)
Definition fuel_for (s : string) : nat := (2 * String.length s + 2)%nat.

(** The value of the whole text, when the text is a value and white space
    around it. *)
Definition parse_with (fuel : nat) (text : string) : option t :=
  match parse_value fuel text with
  | Some (v, r) =>
      match skip_ws r with
      | EmptyString => Some v
      | String _ _ => None
      end
  | None => None
  end.

End Parser.

(** What [JSON.parse(text)] does. *)
Inductive Parsed : Type :=
| Value (v : t)   (* it returns [v] *)
| Malformed       (* the text is not JSON: it throws a [SyntaxError] *)
| Wide.           (* the text is JSON with a [\u] escape above 00FF: what
                     it returns has a string that is no string of this
                     embedding *)

Definition parse (text : string) : Parsed :=
  match parse_with false (fuel_for text) text with
  | Some v => Value v
  | None =>
      match parse_with true (fuel_for text) text with
      | Some _ => Wide
      | None => Malformed
      end
  end.

(** [o[key]] on the members of a parsed object: the last one wins. *)
Fixpoint get (key : string) (members : list (string * t)) : option t :=
  match members with
  | [] => None
  | (k, v) :: rest =>
      match get key rest with
      | Some v' => Some v'
      | None => if String.eqb k key then Some v else None
      end
  end.

End JSON.

Module Startup.
Import JSON.

(** *** The parsed value read at the types of [types.ts]

    [JSON.parse(saved)] is used as a [ChatSession[]] without a check.  The
    functions below read a value at the types of this embedding; they are
    partial: a value of another shape is not a state of the data model. *)

Fixpoint digits_value (s : string) (acc : Z) : option Z :=
  match s with
  | EmptyString => Some acc
  | String c r =>
      if JS.is_digit c
      then digits_value r (acc * 10 + (Z.of_nat (nat_of_ascii c) - 48))
      else None
  end.

(** The parts of a number: whether it has a minus, its integer part, its
    fraction with the point, its exponent with the [e]. *)
Definition number_parts (lexeme : string)
    : option (bool * string * string * string) :=
  let '(negative, s1) :=
    match accept "-" lexeme with
    | Some r => (true, r)
    | None => (false, lexeme)
    end in
  match parse_int_part s1 with
  | Some (i, s2) =>
      match parse_frac_part s2 with
      | Some (f, s3) =>
          match parse_exp_part s3 with
          | Some (e, EmptyString) => Some (negative, i, f, e)
          | _ => None
          end
      | None => None
      end
  | None => None
  end.

(** The digits of a fraction: what follows the point. *)
Definition fraction_digits (f : string) : string :=
  match f with
  | String _ ds => ds
  | EmptyString => EmptyString
  end.

(** The value of an exponent: what follows the [e], with its sign. *)
Definition exponent_value (e : string) : option Z :=
  match e with
  | EmptyString => Some 0
  | String _ EmptyString => None
  | String _ (String x ds) =>
      if Ascii.eqb x "-" then option_map Z.opp (digits_value ds 0)
      else if Ascii.eqb x "+" then digits_value ds 0
      else digits_value (String x ds) 0
  end.

(** The integer that a number denotes, in any notation ([1000], [1e3],
    [1000.0], [10000e-1]): its digits times the power of ten, when that is
    an integer.  A negative zero is no integer.  Up to 2^53 in magnitude
    the integer is the number that the program holds ([safe_integer]); a
    larger one is rounded by the program to a number that need not be the
    integer written. *)
Definition integer_of (lexeme : string) : option Z :=
  match number_parts lexeme with
  | Some (negative, i, f, e) =>
      match digits_value (i ++ fraction_digits f) 0, exponent_value e with
      | Some m, Some x =>
          let shift := x - Z.of_nat (String.length (fraction_digits f)) in
          let magnitude :=
            if 0 <=? shift then Some (m * 10 ^ shift)
            else if m mod 10 ^ (- shift) =? 0 then Some (m / 10 ^ (- shift))
            else None in
          match magnitude with
          | Some n =>
              if negative then (if n =? 0 then None else Some (- n))
              else Some n
          | None => None
          end
      | _, _ => None
      end
  | None => None
  end.


Definition as_string (v : option JSON.t) : option string :=
  match v with Some (JString s) => Some s | _ => None end.

Definition as_integer (v : option JSON.t) : option Z :=
  match v with Some (JNumber l) => integer_of l | _ => None end.

Fixpoint all_some {A B} (f : A -> option B) (l : list A) : option (list B) :=
  match l with
  | [] => Some []
  | x :: l' =>
      match f x, all_some f l' with
      | Some y, Some ys => Some (y :: ys)
      | _, _ => None
      end
  end.

(** An object of the data model has the members of its type in
    [types.ts] and no other: a record does not hold other members, which
    the program would keep and write back. *)
Definition known (keys : list string) (ms : list (string * JSON.t)) : bool :=
  forallb (fun kv => existsb (String.eqb (fst kv)) keys) ms.

Definition attachment_of (v : JSON.t) : option Attachment.t :=
  match v with
  | JObject ms =>
      match as_string (get "name" ms), as_string (get "type" ms),
            as_string (get "data" ms) with
      | Some n, Some t, Some d =>
          if known ["name"; "type"; "data"] ms
          then Some (Attachment.mk n t d) else None
      | _, _, _ => None
      end
  | _ => None
  end.

Definition role_of (v : option JSON.t) : option Role :=
  match as_string v with
  | Some s =>
      if String.eqb s "user" then Some user
      else if String.eqb s "assistant" then Some assistant
      else if String.eqb s "system" then Some system
      else None
  | None => None
  end.

(** An optional field: absent, or present at its type. *)
Definition attachments_of (v : option JSON.t)
    : option (option (list Attachment.t)) :=
  match v with
  | None => Some None
  | Some (JArray l) => option_map Some (all_some attachment_of l)
  | Some _ => None
  end.

Definition thinking_of (v : option JSON.t) : option JS.value :=
  match v with
  | None => Some JS.undefined
  | Some (JString s) => Some (JS.str s)
  | Some (JBool b) => Some (JS.boolean b)
  | Some _ => None
  end.

Definition message_of (v : JSON.t) : option Message.t :=
  match v with
  | JObject ms =>
      match as_string (get "id" ms), role_of (get "role" ms),
            as_string (get "content" ms), attachments_of (get "attachments" ms),
            thinking_of (get "thinking" ms), as_integer (get "timestamp" ms) with
      | Some i, Some r, Some c, Some a, Some th, Some ts =>
          if known ["id"; "role"; "content"; "attachments"; "thinking";
                    "timestamp"] ms
          then Some (Message.mk i r c a th ts) else None
      | _, _, _, _, _, _ => None
      end
  | _ => None
  end.

Definition session_of (v : JSON.t) : option ChatSession.t :=
  match v with
  | JObject ms =>
      match as_string (get "id" ms), as_string (get "title" ms),
            get "messages" ms,
            as_integer (get "createdAt" ms), as_integer (get "lastModified" ms) with
      | Some i, Some t, Some (JArray msgs), Some c, Some l =>
          match all_some message_of msgs with
          | Some messages =>
              if known ["id"; "title"; "messages"; "createdAt"; "lastModified"] ms
              then Some (ChatSession.mk i t messages c l) else None
          | None => None
          end
      | _, _, _, _, _ => None
      end
  | _ => None
  end.

Definition sessions_of (v : JSON.t) : option (list ChatSession.t) :=
  match v with
  | JArray l => all_some session_of l
  | _ => None
  end.



(** *** The initializers *)

(** How an initializer ends. *)
Inductive Init (A : Type) : Type :=
| Returns (a : A)        (* it returns [a] *)
| Throws (e : JS.Error)  (* it throws [e] *)
| Beyond.                (* what it does is outside this embedding *)
Arguments Returns {A} a.
Arguments Throws {A} e.
Arguments Beyond {A}.

(** What reading a property of a parsed value gives: [undefined], a parsed
    value, or the length of an array or of a string. *)
Inductive Read : Type :=
| undef
| json (v : JSON.t)
| count (n : nat).

Definition of_member (v : option JSON.t) : Read :=
  match v with
  | Some w => json w
  | None => undef
  end.

(** [JSON.parse(saved)] in an initializer. *)
Definition parsed_item (s : string) : Init JSON.t :=
  match JSON.parse s with
  | Value v => Returns v
  | Malformed => Throws JS.SyntaxError
  | Wide => Beyond
  end.

(** [saved ? JSON.parse(saved) : []], for [saved] the item of
    [localStorage] ([null] when absent). *)
Definition chats_initializer (saved : option string) : Init JSON.t :=
  match saved with
  | Some s => if JS.truthy_string s then parsed_item s else Returns (JArray [])
  | None => Returns (JArray [])
  end.

(** [parsed.length]: a [TypeError] on [null]; the length of an array or of
    a string; the [length] member of an object; [undefined] on a number or
    a boolean. *)
Definition length_of (parsed : JSON.t) : JS.Result Read :=
  match parsed with
  | JNull => JS.Throw JS.TypeError
  | JBool _ | JNumber _ => JS.Ok undef
  | JString s => JS.Ok (count (String.length s))
  | JArray l => JS.Ok (count (List.length l))
  | JObject ms => JS.Ok (of_member (get "length" ms))
  end.

(** [x > 0] for what [parsed.length] gave.  On a [length] member the
    comparison converts a parsed value to a number, which this embedding
    does not do: [None]. *)
Definition positive (x : Read) : option bool :=
  match x with
  | undef => Some false
  | count n => Some (0 <? n)%nat
  | json _ => None
  end.

(** [parsed[0]] *)
Definition first_of (parsed : JSON.t) : Read :=
  match parsed with
  | JArray (x :: _) => json x
  | JString (String c _) => json (JString (String c EmptyString))
  | JObject ms => of_member (get "0" ms)
  | _ => undef
  end.

(** [x.id]: a [TypeError] on [null] and on [undefined]; the [id] member of
    an object; [undefined] on anything else. *)
Definition id_of (x : Read) : JS.Result Read :=
  match x with
  | undef => JS.Throw JS.TypeError
  | json JNull => JS.Throw JS.TypeError
  | json (JObject ms) => JS.Ok (of_member (get "id" ms))
  | _ => JS.Ok undef
  end.

(** [parsed.length > 0 ? parsed[0].id : null] *)
Definition first_id (parsed : JSON.t) : Init Read :=
  match length_of parsed with
  | JS.Throw e => Throws e
  | JS.Ok len =>
      match positive len with
      | None => Beyond
      | Some true =>
          match id_of (first_of parsed) with
          | JS.Ok id => Returns id
          | JS.Throw e => Throws e
          end
      | Some false => Returns (json JNull)
      end
  end.

Definition currentChatId_initializer (saved : option string) : Init Read :=
  match saved with
  | Some s =>
      if JS.truthy_string s
      then match parsed_item s with
           | Returns parsed => first_id parsed
           | Throws e => Throws e
           | Beyond => Beyond
           end
      else Returns (json JNull)
  | None => Returns (json JNull)
  end.

(** What [currentChatId] holds, at its type [string | null]. *)
Definition current_of (id : Read) : option (option string) :=
  match id with
  | json JNull => Some None
  | json (JString s) => Some (Some s)
  | _ => None
  end.

(** How the first render's initializers end: with a state of the data
    model (its time stamps the integers written, which are the program's
    numbers when [safe]); with an exception that nothing catches; with
    values that are no state of the data model (another shape than that
    of [types.ts], or a time stamp that is no integer), kept as they are
    ([chats] the parsed value, [currentChatId] what the second initializer
    read); or outside this embedding. *)
Inductive Outcome : Type :=
| Started (st : App.State)
| Crashed (e : JS.Error)
| Untyped (chats : JSON.t) (currentChatId : Read)
| Outside.

Definition start (saved : option string) : Outcome :=
  match chats_initializer saved with
  | Throws e => Crashed e
  | Beyond => Outside
  | Returns v =>
      match currentChatId_initializer saved with
      | Throws e => Crashed e
      | Beyond => Outside
      | Returns id =>
          match sessions_of v, current_of id with
          | Some cs, Some cur => Started (App.initial cs cur)
          | _, _ => Untyped v id
          end
      end
  end.


End Startup.

(* ===================================================================== *)
(** ** Vocabulary of the specification *)
(* ===================================================================== *)

(** The store operations of the specification, as the controller runs
    them: [createSession] is [startNewChat], [deleteSession] is
    [deleteChat]. *)
Inductive StoreOp : Type :=
| createSession (now : Z)
| deleteSession (id : string).

Definition event_of_op (op : StoreOp) : App.Event :=
  match op with
  | createSession now => App.NewChat now
  | deleteSession id => App.DeleteChat id
  end.

(** The store reached from the empty store by a sequence of operations. *)
Definition apply_ops (ops : list StoreOp) : App.State :=
  App.run (map event_of_op ops) (App.initial [] None).

(** A submit orchestration is in flight when a call of [sendMessage] is
    suspended at its remote call. *)
Definition in_flight (st : App.State) : nat := List.length (App.awaiting st).

(** The typing flag and the suspended calls agree, and there is at most
    one of the latter. *)
Definition single_flight (st : App.State) : Prop :=
  (App.isTyping st = true /\ exists call, App.awaiting st = [call]) \/
  (App.isTyping st = false /\ App.awaiting st = []).

(** The files of a selection that are kept, as attachments, and the ones
    that are over the bound. *)
Definition accepted (files : list App.File) : list Attachment.t :=
  map (fun f => Attachment.mk (App.file_name f) (App.file_type f) (App.file_dataURL f))
      (filter (fun f => App.file_size f <=? App.max_file_size) files).

Definition oversized (files : list App.File) : list App.File :=
  filter (fun f => App.max_file_size <? App.file_size f) files.

Definition size_warning : string := "File too large. Max 10MB per file.".

(** The title of a session that a submit creates: the first 35 characters
    of the text, or a fixed title when the text is empty. *)
Definition auto_title (text : string) : string :=
  match text with
  | EmptyString => "Multimodal Query"
  | _ => JS.slice0 35 text
  end.

(** The input is not empty: text that is not blank, or an attachment. *)
Definition has_input (st : App.State) : Prop :=
  JS.trim (App.inputText st) <> EmptyString \/ App.attachments st <> [].

(** [c] does not occur in [s]. *)
Fixpoint lacks (c : ascii) (s : string) : bool :=
  match s with
  | EmptyString => true
  | String d s' => negb (Ascii.eqb c d) && lacks c s'
  end.

(** The backend that never throws: where [katex] fails on a fragment, the
    raw text of the fragment stands for its HTML. *)
Definition degrade (katex : MathMarkdown.Katex) : MathMarkdown.Katex :=
  fun text isBlock =>
    match katex text isBlock with
    | JS.Ok html => JS.Ok html
    | JS.Throw _ => JS.Ok text
    end.

(** The scenario of the specification: one block-math expression. *)
Definition sine_integral_tex : string := "\int_0^\infty \frac{\sin x}{x}dx".
Definition sine_integral : string := ("$$" ++ sine_integral_tex ++ "$$")%string.

(** HTML that the later passes leave alone: no dollar, no line feed, no
    star. *)
Definition clean (html : string) : bool :=
  lacks "$" html && lacks "010" html && lacks "*" html.

(** The paragraph blocks of a rendering. *)
Definition is_paragraph (e : MathMarkdown.Element) : bool :=
  match e with
  | MathMarkdown.p _ => true
  | _ => false
  end.

Definition paragraphs (r : MathMarkdown.Rendered) : nat :=
  match r with
  | MathMarkdown.Elements blocks => List.length (filter is_paragraph blocks)
  | _ => 0%nat
  end.

(** A stand-in for KaTeX: the source in a span. *)
Definition span_backend : MathMarkdown.Katex :=
  fun text isBlock =>
    JS.Ok ("<span class=" ++ MathMarkdown.dquote ++ "katex" ++ MathMarkdown.dquote
           ++ ">" ++ text ++ "</span>")%string.

(** A backend that throws on every fragment. *)
Definition failing_backend : MathMarkdown.Katex :=
  fun _ _ => JS.Throw (JS.BackendError "no font").

(** A reply has no tagged part: no part with text that is not empty, no
    part flagged as a thought. *)
Definition no_tagged_part (response : GeminiService.Response) : Prop :=
  forall part, In part (GeminiService.first_parts response) ->
    GeminiService.has_text part = false /\
    JS.truthy (GeminiService.thought part) = false.

(** A reply has no usable text: no part has text that is not empty, and
    the [text] field is absent or empty. *)
Definition no_usable_text (response : GeminiService.Response) : Prop :=
  (forall part, In part (GeminiService.first_parts response) ->
                GeminiService.has_text part = false) /\
  (GeminiService.response_text response = None \/
   GeminiService.response_text response = Some EmptyString).

(** A reply that carries the [text] field only. *)
Definition plain_reply (t : string) : GeminiService.Response :=
  GeminiService.mkResponse None (Some t).







(** *** Scenarios *)

Module Scenarios.
Import App.

(** Three sessions, the second the most recent and active. *)
Definition three_sessions : State :=
  initial [ ChatSession.mk "a" "first" [] 10 10;
            ChatSession.mk "b" "second" [] 30 30;
            ChatSession.mk "c" "third" [] 20 20 ]
          (Some "b").

(** An 11 MiB file and a 1 MiB file chosen together. *)
Definition MiB : Z := 1024 * 1024.

Definition two_files : list File :=
  [ mkFile "scan.png" "image/png" (11 * MiB) "data:image/png;base64,AAAA";
    mkFile "notes.pdf" "application/pdf" (1 * MiB) "data:application/pdf;base64,BBBB" ].

(** A submit at time 1000 whose remote call fails at time 2000. *)
Definition failed_submit : State :=
  run [SetInputText "2+2"; Send 1000;
       Settle 0 2000 (JS.Throw (JS.RemoteError "503"))]
      (initial [] None).

(** The same submit with a reply at time 2000. *)
Definition answered_submit : State :=
  run [SetInputText "2+2"; Send 1000;
       Settle 0 2000 (JS.Ok (GeminiService.mkResponse None (Some "4")))]
      (initial [] None).

(** The state after: a submit, the deletion of its session while the call
    is pending, and new text typed. *)
Definition busy_without_session : State :=
  run [SetInputText "1+1"; Send 1000; DeleteChat "1000"; SetInputText "2+2"]
      (initial [] None).


End Scenarios.
From Stdlib Require DecimalPos DecimalFacts DecimalZ.
From Stdlib Require QArith.

(* ===================================================================== *)
(** ** [JSON.stringify] and the store written back ([App.tsx], the effect
       that saves [chats]) *)
(* ===================================================================== *)

Module Persistence.
Import JSON.

Definition dq : ascii := ascii_of_nat 34.

(** A hexadecimal digit, lower case. *)
Definition hex_digit (n : nat) : ascii :=
  if (n <? 10)%nat then ascii_of_nat (48 + n) else ascii_of_nat (87 + n).

(** How [JSON.stringify] writes one character of a string: the quote, the
    backslash and the control characters are escaped, the rest is written
    as it is. *)
Definition escape_char (c : ascii) : string :=
  if Ascii.eqb c dq then String "\" (String dq EmptyString)
  else if Ascii.eqb c "\" then "\\"
  else if Ascii.eqb c "008" then "\b"
  else if Ascii.eqb c "012" then "\f"
  else if Ascii.eqb c "010" then "\n"
  else if Ascii.eqb c "013" then "\r"
  else if Ascii.eqb c "009" then "\t"
  else if (nat_of_ascii c <? 32)%nat then
    String "\" (String "u" (String "0" (String "0"
      (String (hex_digit (nat_of_ascii c / 16))
         (String (hex_digit (nat_of_ascii c mod 16)) EmptyString)))))
  else String c EmptyString.

Fixpoint escape (s : string) : string :=
  match s with
  | EmptyString => EmptyString
  | String c s' => (escape_char c ++ escape s')%string
  end.

Definition quote (s : string) : string :=
  String dq (escape s ++ String dq EmptyString).

(** [parts.join(",")] *)
Fixpoint join (parts : list string) : string :=
  match parts with
  | [] => EmptyString
  | [x] => x
  | x :: rest => (x ++ "," ++ join rest)%string
  end.

(** [JSON.stringify(v)], without indentation. *)
Fixpoint stringify (v : JSON.t) : string :=
  match v with
  | JNull => "null"
  | JBool true => "true"
  | JBool false => "false"
  | JNumber lexeme => lexeme
  | JString s => quote s
  | JArray elements => ("[" ++ join (map stringify elements) ++ "]")%string
  | JObject members =>
      ("{" ++ join (map (fun kv => (quote (fst kv) ++ ":" ++ stringify (snd kv))%string)
                        members)
           ++ "}")%string
  end.

(** *** The values of [types.ts] as [JSON.stringify] sees them: the
    properties in the order of the interfaces, a property that is
    [undefined] left out, an integer written in decimal. *)

Definition number (n : Z) : JSON.t := JNumber (JS.toString n).

Definition attachment_json (a : Attachment.t) : JSON.t :=
  JObject [ ("name", JString (Attachment.name a));
            ("type", JString (Attachment.type a));
            ("data", JString (Attachment.data a)) ].

Definition role_json (r : Role) : JSON.t :=
  JString (match r with
           | user => "user"
           | assistant => "assistant"
           | system => "system"
           end).

Definition optional (key : string) (v : option JSON.t) : list (string * JSON.t) :=
  match v with
  | Some j => [(key, j)]
  | None => []
  end.

Definition thinking_json (v : JS.value) : option JSON.t :=
  match v with
  | JS.undefined => None
  | JS.boolean b => Some (JBool b)
  | JS.str s => Some (JString s)
  end.

Definition message_json (m : Message.t) : JSON.t :=
  JObject
    ([ ("id", JString (Message.id m));
       ("role", role_json (Message.role m));
       ("content", JString (Message.content m)) ]
     ++ optional "attachments"
          (option_map (fun l => JArray (map attachment_json l)) (Message.attachments m))
     ++ optional "thinking" (thinking_json (Message.thinking m))
     ++ [ ("timestamp", number (Message.timestamp m)) ]).

Definition session_json (c : ChatSession.t) : JSON.t :=
  JObject [ ("id", JString (ChatSession.id c));
            ("title", JString (ChatSession.title c));
            ("messages", JArray (map message_json (ChatSession.messages c)));
            ("createdAt", number (ChatSession.createdAt c));
            ("lastModified", number (ChatSession.lastModified c)) ].

Definition sessions_json (cs : list ChatSession.t) : JSON.t :=
  JArray (map session_json cs).

(** [localStorage.setItem('sigma_math_chats', JSON.stringify(chats))]: what
    the effect leaves under the key after a render. *)
Definition saved_chats (st : App.State) : string :=
  stringify (sessions_json (App.chats st)).

(** A number of a value is an integer in decimal: what [number] writes. *)
Definition is_integer (lexeme : string) : bool :=
  match Startup.integer_of lexeme with
  | Some n => String.eqb (JS.toString n) lexeme
  | None => false
  end.

Fixpoint integral (v : JSON.t) : bool :=
  match v with
  | JNumber lexeme => is_integer lexeme
  | JArray elements => forallb integral elements
  | JObject members => forallb (fun kv => integral (snd kv)) members
  | _ => true
  end.

(** What follows a value inside a text that [stringify] writes: nothing,
    a comma, or a closing bracket or brace. *)
Definition delimited (rest : string) : bool :=
  match rest with
  | EmptyString => true
  | String c _ => Ascii.eqb c "," || Ascii.eqb c "]" || Ascii.eqb c "}"
  end.

(** The digits of a decimal number, most significant first. *)
Definition digits (d : Decimal.uint) : string := NilEmpty.string_of_uint d.

Definition nonzero_digits : list ascii :=
  ["1"; "2"; "3"; "4"; "5"; "6"; "7"; "8"; "9"]%char.

(** A character that starts a written value: it is not white space and
    closes nothing. *)
Definition opens_value (c : ascii) : Prop :=
  is_ws c = false /\ Ascii.eqb "]" c = false /\ Ascii.eqb "}" c = false.

(** A member of an object, as it is written. *)
Definition member_text (kv : string * JSON.t) : string :=
  (quote (fst kv) ++ ":" ++ stringify (snd kv))%string.

(** [v], written and followed by a delimiter, is read back as [v], with
    any fuel from some bound on. *)
Definition readable (v : JSON.t) : Prop :=
  exists bound, forall fuel rest,
    (bound <= fuel)%nat -> delimited rest = true ->
    parse_value false fuel (stringify v ++ rest) = Some (v, rest).

End Persistence.

(* ===================================================================== *)
(** ** The speech pipeline ([services/geminiService.ts], [speakText] and
       [decodeBase64]; [App.tsx], the handler of the Voice button) *)
(* ===================================================================== *)

Module Speech.

(** The reply of the speech model, as far as [speakText] reads it:
    [candidates?.[0]?.content?.parts?.[0]?.inlineData?.data]. *)
Record InlineData : Type := mkInlineData { data : option string }.
Record Part : Type := mkPart { inlineData : option InlineData }.
Record Content : Type := mkContent { parts : option (list Part) }.
Record Candidate : Type := mkCandidate { content : option Content }.
Record Response : Type := mkResponse { candidates : option (list Candidate) }.

Definition audioData (response : Response) : option string :=
  match candidates response with
  | Some (c :: _) =>
      match content c with
      | Some ct =>
          match parts ct with
          | Some (p :: _) =>
              match inlineData p with
              | Some d => data d
              | None => None
              end
          | _ => None
          end
      | None => None
      end
  | _ => None
  end.

(** The text sent: [`Explain this math problem clearly: ${text}`]. *)
Definition prompt (text : string) : string :=
  ("Explain this math problem clearly: " ++ text)%string.

(** [binaryString.charCodeAt(i)] for every [i]: the bytes of the
    [Uint8Array]. *)
Definition char_codes (binaryString : string) : list Z :=
  map (fun c => Z.of_nat (nat_of_ascii c)) (list_ascii_of_string binaryString).

Section WithPlatform.

(** [atob]: the binary string of a base64 text, or an exception. *)
Variable atob : string -> JS.Result string.
(** The remote speech call, by the text sent. *)
Variable remote : string -> JS.Result Response.

Definition decodeBase64 (base64 : string) : JS.Result (list Z) :=
  binaryString <- atob base64 ;;
  JS.Ok (char_codes binaryString).

(** [speakText]: the bytes, or [null]. *)
Definition speakText (text : string) : JS.Result (option (list Z)) :=
  JS.try_catch
    (response <- remote (prompt text) ;;
     match audioData response with
     | Some audio =>
         if JS.truthy_string audio
         then bytes <- decodeBase64 audio ;; JS.Ok (Some bytes)
         else JS.Ok None
     | None => JS.Ok None
     end)
    (fun e => JS.Ok None).

End WithPlatform.

(** *** The samples played

    [new Int16Array(bytes.buffer)] reads the bytes two by two, low byte
    first, as signed 16-bit integers, and fails with a [RangeError] on an odd
    number of bytes; each sample is then [v / 32768].  The division is by a
    power of two, so the quotient is exact: it is kept as a rational. *)

Inductive AudioError : Type := RangeError.

Definition int16 (lo hi : Z) : Z :=
  let v := lo + 256 * hi in
  if 32768 <=? v then v - 65536 else v.

Fixpoint Int16Array (bytes : list Z) : AudioError + list Z :=
  match bytes with
  | [] => inr []
  | [_] => inl RangeError
  | lo :: hi :: rest =>
      match Int16Array rest with
      | inr vs => inr (int16 lo hi :: vs)
      | inl e => inl e
      end
  end.

Definition sample (v : Z) : QArith_base.Q := QArith_base.Qmake v 32768.

(** [Array.from(int16).map(v => v / 32768)] *)
Definition samples (bytes : list Z) : AudioError + list QArith_base.Q :=
  match Int16Array bytes with
  | inr vs => inr (map sample vs)
  | inl e => inl e
  end.

Definition is_byte (b : Z) : Prop := 0 <= b < 256.

(** A reply that carries [payload] as its audio. *)
Definition audio_reply (payload : string) : Response :=
  mkResponse (Some [mkCandidate (Some (mkContent
    (Some [mkPart (Some (mkInlineData (Some payload)))])))]).

End Speech.


(* ===================================================================== *)
(** ** The history of a session over a run of the controller *)
(* ===================================================================== *)

Module History.
Import App.

(** [c'] is [c] later on: the same id and creation time, the messages of
    [c] followed by more, and, once [c] has a message, the same title. *)
Definition extends (c c' : ChatSession.t) : Prop :=
  ChatSession.id c' = ChatSession.id c /\
  ChatSession.createdAt c' = ChatSession.createdAt c /\
  (exists more,
     ChatSession.messages c' = ChatSession.messages c ++ more) /\
  (ChatSession.messages c <> [] ->
   ChatSession.title c' = ChatSession.title c).

(** The clock readings at which the events of a run may create a session:
    those of [startNewChat] and of [sendMessage]. *)
Fixpoint readings (events : list Event) : list Z :=
  match events with
  | [] => []
  | NewChat now :: rest => now :: readings rest
  | Send now :: rest => now :: readings rest
  | _ :: rest => readings rest
  end.

Definition ids (cs : list ChatSession.t) : list string :=
  map ChatSession.id cs.

(** What a run keeps true of its suspended submits, given the clock
    readings still to come ([future]): the readings are pairwise distinct;
    the active id is null or the id of a session; no reading to come prints
    as the id of a session, or as the id that a suspended submit holds; and
    a session with the id that a suspended submit holds has a message. *)
Definition pending_inv (future : list Z) (st : State) : Prop :=
  NoDup future /\
  store_inv st /\
  (forall r, In r future -> ~ In (JS.toString r) (ids (chats st))) /\
  (forall r call, In r future -> In call (awaiting st) ->
     activeChatId call <> JS.toString r) /\
  (forall call c, In call (awaiting st) -> In c (chats st) ->
     ChatSession.id c = activeChatId call -> ChatSession.messages c <> []).

(** The session [chat] with [m] appended at [now], as [sendMessage] stores
    it. *)
Definition with_message (m : Message.t) (now : Z) (chat : ChatSession.t)
    : ChatSession.t :=
  ChatSession.mk (ChatSession.id chat) (ChatSession.title chat)
                 (ChatSession.messages chat ++ [m])
                 (ChatSession.createdAt chat) now.

End History.

(* ===================================================================== *)
(** ** The passes of [MathMarkdown], one by one *)
(* ===================================================================== *)

Module Passes.
Import RegExp MathMarkdown.

(** Step 1 of [renderedContent]: the replacement of block math. *)
Definition block_pass (katex : Katex) (content : string) : JS.Result string :=
  replace block_math
    (fun _ math =>
       html <- renderMath katex (group1 math) true ;;
       JS.Ok (display_container html))
    content.

(** Step 2: the replacement of inline math. *)
Definition inline_pass (katex : Katex) (processed : string) : JS.Result string :=
  replace inline_math
    (fun _ math => renderMath katex (group1 math) false)
    processed.

(** The first statement of the line callback: the replacement of bold. *)
Definition bold_pass (line : string) : JS.Result string :=
  replace bold
    (fun _ cap => JS.Ok ("<strong>" ++ group1 cap ++ "</strong>")%string)
    line.

(** Every character of [s] passes [f]. *)
Fixpoint every (f : ascii -> bool) (s : string) : bool :=
  match s with
  | EmptyString => true
  | String c s' => f c && every f s'
  end.

(** Every occurrence of [c] in [s] is followed by another character: [s]
    has no two [c] in a row and does not end with [c]. *)
Fixpoint unpaired (c : ascii) (s : string) : bool :=
  match s with
  | EmptyString => true
  | String d s' =>
      (if Ascii.eqb c d
       then match s' with
            | EmptyString => false
            | String e _ => negb (Ascii.eqb c e)
            end
       else true)
      && unpaired c s'
  end.

(** The pattern has no [^]: where it matches does not depend on the
    index. *)
Fixpoint bol_free (r : RegExp.t) : bool :=
  match r with
  | Char _ | Class _ => true
  | Seq r1 r2 => bol_free r1 && bol_free r2
  | Star _ r' | Group r' => bol_free r'
  | Bol => false
  end.

(** A matcher state moved to another index, and one advanced by [k]
    characters. *)
Definition shift (d : nat) (st : MState) : MState :=
  mkMState (index st + d) (rest st) (capture st).

Definition adv (st : MState) (k : nat) : MState :=
  mkMState (index st + k) (JS.substring_from k (rest st)) (capture st).

(** The number of line feeds of [s]. *)
Fixpoint line_feeds (s : string) : nat :=
  match s with
  | EmptyString => 0
  | String c s' => (if Ascii.eqb "010" c then 1 else 0) + line_feeds s'
  end.

End Passes.
(* ===================================================================== *)
(** ** Properties of the session store *)
(* ===================================================================== *)

Module StoreFacts.
Import App.

(** [a] is at least as recent as [b]. *)
Definition not_older (a b : ChatSession.t) : Prop :=
  ChatSession.lastModified b <= ChatSession.lastModified a.

Definition recent_first (l : list ChatSession.t) : Prop :=
  StronglySorted not_older l.

Lemma insert_desc_perm x l : Permutation (insert_desc x l) (x :: l).
Proof.
  induction l as [|y l IH]; simpl.
  - apply Permutation_refl.
  - destruct (ChatSession.lastModified y <=? ChatSession.lastModified x).
    + apply Permutation_refl.
    + eapply perm_trans; [apply perm_skip, IH | apply perm_swap].
Qed.

Lemma sort_desc_perm l : Permutation (sort_desc l) l.
Proof.
  induction l as [|x l IH]; simpl.
  - constructor.
  - eapply perm_trans; [apply insert_desc_perm | now apply perm_skip].
Qed.

Lemma In_sort_desc c l : In c (sort_desc l) <-> In c l.
Proof.
  split; apply Permutation_in;
    [apply sort_desc_perm | apply Permutation_sym, sort_desc_perm].
Qed.

Lemma insert_desc_sorted x l : recent_first l -> recent_first (insert_desc x l).
Proof.
  unfold recent_first.
  induction l as [|y l IH]; simpl; intros Hs.
  - constructor; [constructor | constructor].
  - inversion Hs as [|? ? Hl Hy]; subst.
    destruct (Z.leb_spec (ChatSession.lastModified y) (ChatSession.lastModified x))
      as [Hle | Hgt].
    + constructor; [exact Hs|].
      constructor; [exact Hle|].
      rewrite Forall_forall in *. intros z Hz.
      specialize (Hy z Hz). unfold not_older in *. lia.
    + constructor; [now apply IH|].
      rewrite Forall_forall in *. intros z Hz.
      apply (Permutation_in _ (insert_desc_perm x l)) in Hz.
      destruct Hz as [<- | Hz]; [unfold not_older; lia | now apply Hy].
Qed.

Lemma sort_desc_sorted l : recent_first (sort_desc l).
Proof.
  induction l as [|x l IH]; simpl.
  - constructor.
  - now apply insert_desc_sorted.
Qed.

(** Sorting what is sorted changes nothing: a render is idempotent. *)
Lemma sort_desc_fixpoint l : recent_first l -> sort_desc l = l.
Proof.
  unfold recent_first.
  induction l as [|x l IH]; simpl; intros Hs; [reflexivity|].
  inversion Hs as [|? ? Hl Hx]; subst.
  rewrite (IH Hl).
  destruct l as [|y l]; [reflexivity|]. simpl.
  inversion Hx as [|? ? Hy _]; subst. unfold not_older in Hy.
  destruct (Z.leb_spec (ChatSession.lastModified y) (ChatSession.lastModified x));
    [reflexivity | lia].
Qed.

Lemma filter_recent_first f l : recent_first l -> recent_first (filter f l).
Proof.
  unfold recent_first.
  induction 1 as [|x l Hl IH Hx]; simpl; [constructor|].
  destruct (f x); [|exact IH].
  constructor; [exact IH|].
  rewrite Forall_forall in *. intros z Hz.
  apply filter_In in Hz. now apply Hx.
Qed.

Lemma render_idempotent st : render (render st) = render st.
Proof.
  unfold render, set_chats; simpl. f_equal.
  apply sort_desc_fixpoint, sort_desc_sorted.
Qed.

Lemma run_rendered events st : render (run events st) = run events st.
Proof.
  unfold run. revert st.
  induction events as [|e events IH] using rev_ind; intros st; simpl.
  - apply render_idempotent.
  - rewrite fold_left_app. simpl. unfold step at 1 3. apply render_idempotent.
Qed.

(** The head of a list ordered by recency is a most recent element. *)
Lemma head_most_recent s l :
  recent_first (s :: l) ->
  forall t, In t (s :: l) -> ChatSession.lastModified t <= ChatSession.lastModified s.
Proof.
  intros Hs t [<- | Ht]; [lia|].
  inversion Hs as [|? ? _ Hx]; subst.
  rewrite Forall_forall in Hx. now apply Hx.
Qed.

Lemma In_remove_id id c l :
  In c (remove_id id l) <-> In c l /\ ChatSession.id c <> id.
Proof.
  unfold remove_id, has_id. rewrite filter_In.
  destruct (String.eqb_spec (ChatSession.id c) id); simpl; intuition congruence.
Qed.

Lemma remove_id_absent id l :
  (forall c, In c l -> ChatSession.id c <> id) -> remove_id id l = l.
Proof.
  intros H. unfold remove_id.
  induction l as [|x l IH]; simpl; [reflexivity|].
  unfold has_id at 1.
  destruct (String.eqb_spec (ChatSession.id x) id) as [E|_]; simpl.
  - exfalso. apply (H x); [now left | exact E].
  - f_equal. apply IH. intros c Hc. apply H. now right.
Qed.

Lemma is_current_true cur id : is_current cur id = true <-> cur = Some id.
Proof.
  destruct cur as [c|]; simpl.
  - rewrite String.eqb_eq. split; congruence.
  - split; discriminate.
Qed.

(** *** The invariant is kept by every transition *)

Lemma store_inv_render st : store_inv st -> store_inv (render st).
Proof.
  unfold store_inv, render; simpl.
  destruct (currentChatId st); [|trivial].
  intros [c [Hc E]]. exists c. split; [now apply In_sort_desc | exact E].
Qed.

Lemma store_inv_startNewChat now st : store_inv (startNewChat now st).
Proof.
  unfold store_inv, startNewChat; simpl.
  eexists. split; [left; reflexivity | reflexivity].
Qed.

Lemma store_inv_deleteChat id st : store_inv st -> store_inv (deleteChat id st).
Proof.
  unfold store_inv, deleteChat.
  destruct (is_current (currentChatId st) id) eqn:Hcur; simpl.
  - intros _. destruct (remove_id id (chats st)) as [|c l] eqn:E; [trivial|].
    exists c. split; [now left | reflexivity].
  - destruct (currentChatId st) as [cur|] eqn:Ec; [|trivial].
    intros [c [Hc E]]. exists c. split; [|exact E].
    apply In_remove_id. split; [exact Hc|].
    simpl in Hcur. apply String.eqb_neq in Hcur. congruence.
Qed.

Lemma store_inv_selectChat n st : store_inv st -> store_inv (selectChat n st).
Proof.
  unfold selectChat. destruct (nth_error (chats st) n) as [c|] eqn:E; [|trivial].
  intros _. apply nth_error_In in E. unfold store_inv; simpl. now exists c.
Qed.

Lemma alerts_keep_store warns st :
  chats (fold_left (fun s w => alert w s) warns st) = chats st /\
  currentChatId (fold_left (fun s w => alert w s) warns st) = currentChatId st /\
  inputText (fold_left (fun s w => alert w s) warns st) = inputText st /\
  attachments (fold_left (fun s w => alert w s) warns st) = attachments st /\
  isTyping (fold_left (fun s w => alert w s) warns st) = isTyping st /\
  awaiting (fold_left (fun s w => alert w s) warns st) = awaiting st /\
  alerts (fold_left (fun s w => alert w s) warns st) = alerts st ++ warns.
Proof.
  revert st. induction warns as [|w warns IH]; intros st; simpl.
  - rewrite app_nil_r. repeat split; reflexivity.
  - destruct (IH (alert w st)) as (H1 & H2 & H3 & H4 & H5 & H6 & H7).
    rewrite H1, H2, H3, H4, H5, H6, H7. simpl.
    rewrite <- app_assoc. repeat split; reflexivity.
Qed.

Lemma handleFileChange_store files st :
  chats (handleFileChange files st) = chats st /\
  currentChatId (handleFileChange files st) = currentChatId st /\
  isTyping (handleFileChange files st) = isTyping st /\
  awaiting (handleFileChange files st) = awaiting st.
Proof.
  unfold handleFileChange. destruct files as [fs|]; [|repeat split; reflexivity].
  destruct (read_files fs) as [atts warns]. simpl.
  destruct (alerts_keep_store warns st) as (H1 & H2 & _ & _ & H5 & H6 & _).
  repeat split; assumption.
Qed.

(** A map that keeps ids keeps the invariant. *)
Lemma store_inv_map f st :
  (forall c, ChatSession.id (f c) = ChatSession.id c) ->
  store_inv st -> store_inv (set_chats (map f) st).
Proof.
  intros Hf. unfold store_inv; simpl.
  destruct (currentChatId st); [|trivial].
  intros [c [Hc E]]. exists (f c). split; [now apply in_map | now rewrite Hf].
Qed.

Lemma append_message_id target m now c :
  ChatSession.id (append_message target m now c) = ChatSession.id c.
Proof. unfold append_message. now destruct (has_id target c). Qed.

Lemma append_reply_id call reply now c :
  ChatSession.id (append_reply call reply now c) = ChatSession.id c.
Proof. unfold append_reply. now destruct (has_id (activeChatId call) c). Qed.

Lemma append_error_id call now c :
  ChatSession.id (append_error call now c) = ChatSession.id c.
Proof. unfold append_error. now destruct (has_id (activeChatId call) c). Qed.

Lemma store_inv_sendMessage now st : store_inv st -> store_inv (sendMessage now st).
Proof.
  intros Hinv. unfold sendMessage.
  destruct (negb _ && _); [exact Hinv|].
  destruct (isTyping st); [exact Hinv|].
  set (m := userMessage now st).
  destruct (match currentChatId st with
            | Some id => if JS.truthy_string id then Some id else None
            | None => None
            end) as [id|]; simpl.
  - apply (store_inv_map (append_message id m now)) in Hinv;
      [exact Hinv | intros c; apply append_message_id].
  - unfold store_inv; simpl. eexists. split; [left; reflexivity|].
    apply append_message_id.
Qed.

Lemma store_inv_resume k now outcome st :
  store_inv st -> store_inv (sendMessage_resume k now outcome st).
Proof.
  intros Hinv. unfold sendMessage_resume.
  destruct (nth_error (awaiting st) k) as [call|]; [|exact Hinv].
  destruct (GeminiService.generateMathResponse _ _ _ _) as [reply|e].
  - apply (store_inv_map (append_reply call reply now)) in Hinv;
      [exact Hinv | intros c; apply append_reply_id].
  - apply (store_inv_map (append_error call now)) in Hinv;
      [exact Hinv | intros c; apply append_error_id].
Qed.

Lemma store_inv_handle e st : store_inv st -> store_inv (handle e st).
Proof.
  destruct e; simpl; intros Hinv.
  - apply store_inv_startNewChat.
  - now apply store_inv_deleteChat.
  - now apply store_inv_selectChat.
  - exact Hinv.
  - unfold store_inv in *.
    destruct (handleFileChange_store files st) as (H1 & H2 & _).
    now rewrite H1, H2.
  - exact Hinv.
  - exact Hinv.
  - now apply store_inv_sendMessage.
  - now apply store_inv_resume.
Qed.

Lemma store_inv_step st e : store_inv st -> store_inv (step st e).
Proof. intros H. unfold step. now apply store_inv_render, store_inv_handle. Qed.

Lemma store_inv_run events st : store_inv st -> store_inv (run events st).
Proof.
  unfold run. intros H. apply store_inv_render in H.
  revert H. generalize (render st) as s.
  induction events as [|e events IH]; intros s Hs; simpl; [exact Hs|].
  apply IH. now apply store_inv_step.
Qed.

End StoreFacts.

(* ===================================================================== *)
(** ** Facts about the matcher and the string functions *)
(* ===================================================================== *)

Module RegExpFacts.
Import RegExp.

(** The fuel of [star] is never what stops it: an iteration runs on a
    shorter input, so any fuel above the length of the input gives the same
    states. *)
Lemma star_fuel_enough greedy step :
  forall fuel1 fuel2 st,
    (String.length (rest st) < fuel1)%nat ->
    (String.length (rest st) < fuel2)%nat ->
    star greedy step fuel1 st = star greedy step fuel2 st.
Proof.
  induction fuel1 as [|fuel1 IH]; intros fuel2 st H1 H2; [lia|].
  destruct fuel2 as [|fuel2]; [lia|]. simpl.
  assert (E : flat_map
                (fun st' =>
                   if (String.length (rest st') <? String.length (rest st))%nat
                   then star greedy step fuel1 st' else []) (step st) =
              flat_map
                (fun st' =>
                   if (String.length (rest st') <? String.length (rest st))%nat
                   then star greedy step fuel2 st' else []) (step st)).
  { apply flat_map_ext. intros st'.
    destruct (Nat.ltb_spec (String.length (rest st')) (String.length (rest st)));
      [|reflexivity].
    apply IH; lia. }
  now rewrite E.
Qed.

(** A replacer that does not throw makes [replace] return. *)
Lemma replace_from_total r f :
  (forall m cap, exists v, f m cap = JS.Ok v) ->
  forall s skip i, exists v, replace_from r f skip i s = JS.Ok v.
Proof.
  intros Hf. induction s as [|c s IH]; intros skip i.
  - destruct skip as [|skip]; cbn [replace_from]; [|eexists; reflexivity].
    destruct (exec_at r i EmptyString) as [[len cap]|]; [|eexists; reflexivity].
    destruct (Hf (substring 0 len EmptyString) cap) as [v ->]. cbn [JS.bind].
    eexists; reflexivity.
  - destruct skip as [|skip]; cbn [replace_from]; [|apply IH].
    destruct (exec_at r i (String c s)) as [[len cap]|].
    + destruct (Hf (substring 0 len (String c s)) cap) as [v ->]. cbn [JS.bind].
      destruct len as [|len].
      * destruct (IH 0%nat (S i)) as [w ->]. cbn [JS.bind]. eexists; reflexivity.
      * destruct (IH len (S i)) as [w ->]. cbn [JS.bind]. eexists; reflexivity.
    + destruct (IH 0%nat (S i)) as [w ->]. cbn [JS.bind]. eexists; reflexivity.
Qed.

(** [replace] depends on the replacer through its results only. *)
Lemma replace_from_ext r f g :
  (forall m cap, f m cap = g m cap) ->
  forall s skip i, replace_from r f skip i s = replace_from r g skip i s.
Proof.
  intros Hfg. induction s as [|c s IH]; intros skip i.
  - destruct skip as [|skip]; cbn [replace_from]; [|reflexivity].
    destruct (exec_at r i EmptyString) as [[len cap]|]; [|reflexivity].
    now rewrite Hfg.
  - destruct skip as [|skip]; cbn [replace_from]; [|apply IH].
    destruct (exec_at r i (String c s)) as [[len cap]|].
    + rewrite Hfg. destruct (g (substring 0 len (String c s)) cap); [|reflexivity].
      cbn [JS.bind]. destruct len as [|len]; now rewrite IH.
    + now rewrite IH.
Qed.

(** Once the last match covers the rest of the input, and the pattern does
    not match the empty rest, nothing is added. *)
Lemma replace_from_skip_rest r f :
  (forall j, exec_at r j EmptyString = None) ->
  forall s skip i, (String.length s <= skip)%nat ->
    replace_from r f skip i s = JS.Ok EmptyString.
Proof.
  intros Hend. induction s as [|c s IH]; intros skip i H.
  - destruct skip; cbn [replace_from]; [now rewrite Hend | reflexivity].
  - destruct skip as [|skip]; simpl in H; [lia|].
    cbn [replace_from]. apply IH. lia.
Qed.

(** The step of [replace] at a match that is not empty. *)
Lemma replace_from_at_match r f i c s len cap :
  exec_at r i (String c s) = Some (S len, cap) ->
  replace_from r f 0 i (String c s) =
    (replacement <- f (substring 0 (S len) (String c s)) cap ;;
     tail <- replace_from r f len (S i) s ;;
     JS.Ok (replacement ++ tail)%string).
Proof. intros H. cbn [replace_from]. now rewrite H. Qed.

Lemma lacks_app c a b : lacks c (a ++ b) = lacks c a && lacks c b.
Proof.
  induction a as [|d a IH]; simpl; [reflexivity|].
  now rewrite IH, andb_assoc.
Qed.

(** A pattern that starts with a character does not match where the input
    starts with another or is over. *)
Lemma no_match_without_first_char c r i s :
  match s with
  | EmptyString => True
  | String d _ => Ascii.eqb c d = false
  end ->
  exec_at (Seq (Char c) r) i s = None.
Proof.
  intros H. unfold exec_at. simpl. unfold eat. simpl.
  destruct s as [|d s]; [reflexivity|]. now rewrite H.
Qed.

(** So [replace] leaves a string without that character as it is. *)
Lemma replace_lacking_first_char c r f :
  forall s i, lacks c s = true ->
    replace_from (Seq (Char c) r) f 0 i s = JS.Ok s.
Proof.
  induction s as [|d s IH]; intros i H.
  - cbn [replace_from]. now rewrite no_match_without_first_char.
  - simpl in H. apply andb_true_iff in H. destruct H as [Hd Hs].
    apply negb_true_iff in Hd.
    cbn [replace_from]. rewrite no_match_without_first_char by exact Hd.
    now rewrite (IH (S i) Hs).
Qed.

(** A string without the separator is a single piece. *)
Lemma split_lacking c s : lacks c s = true -> JS.split c s = [s].
Proof.
  induction s as [|d s IH]; simpl; intros H; [reflexivity|].
  apply andb_true_iff in H. destruct H as [Hd Hs].
  apply negb_true_iff in Hd. rewrite Hd. now rewrite (IH Hs).
Qed.

(** A pattern anchored with [^] matches at index 0 only. *)
Lemma anchored_fails_later r :
  forall s i, test_from (Seq Bol r) (S i) s = false.
Proof.
  induction s as [|c s IH]; intros i; simpl; [reflexivity|]. apply IH.
Qed.

(** [trimEnd] keeps the first character of a string that starts with a
    character that is not a space. *)
Lemma trimEnd_keeps_head c s :
  JS.is_space c = false -> exists t, JS.trimEnd (String c s) = String c t.
Proof.
  intros H. simpl. destruct (JS.trimEnd s) as [|d t].
  - rewrite H. eexists; reflexivity.
  - eexists; reflexivity.
Qed.

Lemma append_empty_r (s : string) : (s ++ EmptyString)%string = s.
Proof. induction s as [|c s IH]; simpl; [reflexivity | now rewrite IH]. Qed.

Lemma substring_whole (s : string) : substring 0 (String.length s) s = s.
Proof. induction s as [|c s IH]; simpl; [reflexivity | now rewrite IH]. Qed.

(** [replace] on an input that is one match from end to end. *)
Lemma replace_whole_match r f s cap :
  s <> EmptyString ->
  exec_at r 0 s = Some (String.length s, cap) ->
  (forall j, exec_at r j EmptyString = None) ->
  replace r f s = (replacement <- f s cap ;; JS.Ok replacement).
Proof.
  intros Hne Hexec Hend. destruct s as [|c s]; [congruence|].
  unfold replace. simpl String.length in Hexec.
  rewrite (replace_from_at_match r f 0 c s (String.length s) cap Hexec).
  change (substring 0 (S (String.length s)) (String c s))
    with (String c (substring 0 (String.length s) s)).
  rewrite substring_whole.
  destruct (f (String c s) cap) as [replacement|e]; [|reflexivity].
  cbn [JS.bind].
  rewrite (replace_from_skip_rest r f Hend s (String.length s) 1 (le_n _)).
  cbn [JS.bind]. now rewrite append_empty_r.
Qed.

End RegExpFacts.

(* ===================================================================== *)
(** ** The parser consumes its input, and its fuel is enough *)
(* ===================================================================== *)

Module JSONFacts.
Import JSON.

Section WithFlag.

(** The facts hold of the parser proper and of the one that reads on. *)
Variable wide : bool.

Lemma skip_ws_length s : (String.length (skip_ws s) <= String.length s)%nat.
Proof.
  induction s as [|c s IH]; simpl; [lia|].
  destruct (is_ws c); simpl; lia.
Qed.

Lemma accept_length c s r : accept c s = Some r -> (String.length r < String.length s)%nat.
Proof.
  destruct s as [|d s]; simpl; [discriminate|].
  destruct (Ascii.eqb c d); [|discriminate]. intros [= <-]. lia.
Qed.

Lemma expect_length w : forall s r, expect w s = Some r -> (String.length r <= String.length s)%nat.
Proof.
  induction w as [|a w IH]; intros s r; simpl.
  - intros [= <-]. lia.
  - destruct s as [|b s]; [discriminate|].
    destruct (Ascii.eqb a b); [|discriminate].
    intros H. apply IH in H. simpl. lia.
Qed.

Lemma span_digits_length s : (String.length (snd (span_digits s)) <= String.length s)%nat.
Proof.
  induction s as [|c s IH]; simpl; [lia|].
  destruct (JS.is_digit c); simpl; [|lia].
  destruct (span_digits s) as [ds r]. simpl in *. lia.
Qed.

Ltac split_ifs H :=
  repeat match type of H with
         | context [if ?b then _ else _] => destruct b
         end.

Lemma parse_string_body_length :
  forall n s body r,
    (String.length s <= n)%nat ->
    parse_string_body wide s = Some (body, r) -> (String.length r < String.length s)%nat.
Proof.
  induction n as [|n IH]; intros s body r Hn H.
  - destruct s; [discriminate | simpl in Hn; lia].
  - destruct s as [|c s]; [discriminate|].
    simpl in Hn. cbn [parse_string_body] in H.
    destruct (Ascii.eqb c (ascii_of_nat 34)).
    { injection H as _ <-. simpl. lia. }
    destruct (Ascii.eqb c "\").
    + destruct s as [|e s]; [discriminate|]. simpl in Hn. cbv zeta in H.
      assert (Hsimple : forall x,
                 match parse_string_body wide s with
                 | Some (body0, rest) => Some (String x body0, rest)
                 | None => None
                 end = Some (body, r) ->
                 (String.length r < String.length (String c (String e s)))%nat).
      { intros x Hx.
        destruct (parse_string_body wide s) as [[b0 r0]|] eqn:E; [|discriminate].
        injection Hx as _ <-.
        apply IH in E; [simpl; lia | lia]. }
      repeat match type of H with
             | (if ?b then _ else _) = _ =>
                 destruct b; [eapply Hsimple; exact H|]
             end.
      destruct (Ascii.eqb e "u"); [|discriminate].
      destruct s as [|h1 [|h2 [|h3 [|h4 s]]]]; try discriminate.
      destruct (hex4 h1 h2 h3 h4); [|discriminate].
      destruct (parse_string_body wide s) as [[b0 r0]|] eqn:E; [|discriminate].
      apply IH in E; [|simpl in Hn; lia].
      destruct (_ <? 256)%nat; [|destruct wide; [|discriminate]];
        injection H as _ <-; simpl; lia.
    + destruct (_ <? 32)%nat; [discriminate|].
      destruct (parse_string_body wide s) as [[b0 r0]|] eqn:E; [|discriminate].
      injection H as _ <-.
      apply IH in E; [simpl; lia | lia].
Qed.

Lemma parse_int_part_length s i r :
  parse_int_part s = Some (i, r) -> (String.length r < String.length s)%nat.
Proof.
  destruct s as [|c s]; simpl; [discriminate|].
  destruct (Ascii.eqb c "0"); [intros [= _ <-]; lia|].
  destruct (JS.is_digit c); [|discriminate].
  pose proof (span_digits_length s) as Hs.
  destruct (span_digits s) as [ds r']. simpl in Hs.
  intros [= _ <-]. lia.
Qed.

Lemma digits1_length s ds r :
  digits1 s = Some (ds, r) -> (String.length r <= String.length s)%nat.
Proof.
  unfold digits1. pose proof (span_digits_length s) as Hs.
  destruct (span_digits s) as [[|d ds'] r']; [discriminate|]. simpl in Hs.
  intros [= _ <-]. exact Hs.
Qed.

Lemma parse_frac_part_length s f r :
  parse_frac_part s = Some (f, r) -> (String.length r <= String.length s)%nat.
Proof.
  unfold parse_frac_part.
  destruct (accept "." s) as [r0|] eqn:E; [|intros [= _ <-]; lia].
  apply accept_length in E.
  destruct (digits1 r0) as [[ds r']|] eqn:Ed; [|discriminate].
  apply digits1_length in Ed. intros [= _ <-]. lia.
Qed.

Lemma parse_exp_part_length s e r :
  parse_exp_part s = Some (e, r) -> (String.length r <= String.length s)%nat.
Proof.
  unfold parse_exp_part.
  destruct s as [|c s]; [intros [= _ <-]; lia|].
  destruct (_ || _); [|intros [= _ <-]; lia].
  assert (Hsign : forall sign r1,
             (String.length r1 <= String.length s)%nat ->
             match digits1 r1 with
             | Some (ds, r') => Some ((String c sign ++ ds)%string, r')
             | None => None
             end = Some (e, r) ->
             (String.length r <= String.length (String c s))%nat).
  { intros sign r1 Hr1 H.
    destruct (digits1 r1) as [[ds r']|] eqn:Ed; [|discriminate].
    apply digits1_length in Ed. injection H as _ <-. simpl. lia. }
  destruct s as [|x s]; [apply (Hsign EmptyString); lia|].
  destruct (_ || _); [apply (Hsign (String x EmptyString)) | apply (Hsign EmptyString)];
    simpl; lia.
Qed.

Lemma parse_number_length s l r :
  parse_number s = Some (l, r) -> (String.length r < String.length s)%nat.
Proof.
  unfold parse_number.
  assert (Hrest : forall sign s1,
             (String.length s1 <= String.length s)%nat ->
             match parse_int_part s1 with
             | Some (i, s2) =>
                 match parse_frac_part s2 with
                 | Some (f, s3) =>
                     match parse_exp_part s3 with
                     | Some (e, s4) => Some ((sign ++ i ++ f ++ e)%string, s4)
                     | None => None
                     end
                 | None => None
                 end
             | None => None
             end = Some (l, r) -> (String.length r < String.length s)%nat).
  { intros sign s1 Hs1 H.
    destruct (parse_int_part s1) as [[i s2]|] eqn:Ei; [|discriminate].
    destruct (parse_frac_part s2) as [[f s3]|] eqn:Ef; [|discriminate].
    destruct (parse_exp_part s3) as [[e s4]|] eqn:Ee; [|discriminate].
    injection H as _ <-.
    apply parse_int_part_length in Ei. apply parse_frac_part_length in Ef.
    apply parse_exp_part_length in Ee. lia. }
  destruct (accept "-" s) as [r0|] eqn:E.
  - apply accept_length in E. apply Hrest. lia.
  - apply Hrest. lia.
Qed.

(** Every parser that succeeds leaves less input than it was given. *)
Lemma parse_lengths :
  forall fuel,
    (forall s v r, parse_value wide fuel s = Some (v, r) ->
                   (String.length r < String.length s)%nat) /\
    (forall s vs r, parse_elements wide fuel s = Some (vs, r) ->
                    (String.length r < String.length s)%nat) /\
    (forall s ms r, parse_members wide fuel s = Some (ms, r) ->
                    (String.length r < String.length s)%nat).
Proof.
  induction fuel as [|fuel (IHv & IHe & IHm)];
    [repeat split; intros; discriminate|].
  split; [|split].
  - intros s v r H. cbn [parse_value] in H.
    pose proof (skip_ws_length s) as Hws.
    destruct (skip_ws s) as [|c r0]; [discriminate|]. simpl in Hws.
    destruct (Ascii.eqb c "n").
    { destruct (expect "ull" r0) eqn:E; [|discriminate].
      apply expect_length in E. injection H as _ <-. lia. }
    destruct (Ascii.eqb c "t").
    { destruct (expect "rue" r0) eqn:E; [|discriminate].
      apply expect_length in E. injection H as _ <-. lia. }
    destruct (Ascii.eqb c "f").
    { destruct (expect "alse" r0) eqn:E; [|discriminate].
      apply expect_length in E. injection H as _ <-. lia. }
    destruct (Ascii.eqb c (ascii_of_nat 34)).
    { destruct (parse_string_body wide r0) as [[b r']|] eqn:E; [|discriminate].
      apply (parse_string_body_length _ _ _ _ (le_n _)) in E.
      injection H as _ <-. lia. }
    pose proof (skip_ws_length r0) as Hws0.
    destruct (Ascii.eqb c "[").
    { destruct (accept "]" (skip_ws r0)) as [r'|] eqn:E.
      - apply accept_length in E. injection H as _ <-. lia.
      - destruct (parse_elements wide fuel r0) as [[vs r']|] eqn:Ee; [|discriminate].
        apply IHe in Ee. injection H as _ <-. lia. }
    destruct (Ascii.eqb c "{").
    { destruct (accept "}" (skip_ws r0)) as [r'|] eqn:E.
      - apply accept_length in E. injection H as _ <-. lia.
      - destruct (parse_members wide fuel r0) as [[ms r']|] eqn:Em; [|discriminate].
        apply IHm in Em. injection H as _ <-. lia. }
    destruct (parse_number (String c r0)) as [[l r']|] eqn:E; [|discriminate].
    apply parse_number_length in E. simpl in E. injection H as _ <-. lia.
  - intros s vs r H. cbn [parse_elements] in H.
    destruct (parse_value wide fuel s) as [[v r0]|] eqn:Ev; [|discriminate].
    apply IHv in Ev. pose proof (skip_ws_length r0) as Hws.
    destruct (accept "," (skip_ws r0)) as [r1|] eqn:Ea.
    + apply accept_length in Ea.
      destruct (parse_elements wide fuel r1) as [[vs' r2]|] eqn:Ee; [|discriminate].
      apply IHe in Ee. injection H as _ <-. lia.
    + destruct (accept "]" (skip_ws r0)) as [r1|] eqn:Eb; [|discriminate].
      apply accept_length in Eb. injection H as _ <-. lia.
  - intros s ms r H. cbn [parse_members] in H.
    pose proof (skip_ws_length s) as Hws.
    destruct (accept (ascii_of_nat 34) (skip_ws s)) as [r0|] eqn:Eq; [|discriminate].
    apply accept_length in Eq.
    destruct (parse_string_body wide r0) as [[key r1]|] eqn:Ek; [|discriminate].
    apply (parse_string_body_length _ _ _ _ (le_n _)) in Ek.
    pose proof (skip_ws_length r1) as Hws1.
    destruct (accept ":" (skip_ws r1)) as [r2|] eqn:Ec; [|discriminate].
    apply accept_length in Ec.
    destruct (parse_value wide fuel r2) as [[v r3]|] eqn:Ev; [|discriminate].
    apply IHv in Ev. pose proof (skip_ws_length r3) as Hws3.
    destruct (accept "," (skip_ws r3)) as [r4|] eqn:Ea.
    + apply accept_length in Ea.
      destruct (parse_members wide fuel r4) as [[ms' r5]|] eqn:Em; [|discriminate].
      apply IHm in Em. injection H as _ <-. lia.
    + destruct (accept "}" (skip_ws r3)) as [r4|] eqn:Eb; [|discriminate].
      apply accept_length in Eb. injection H as _ <-. lia.
Qed.

(** Above twice the length of the input (and one, or two), the result
    does not depend on the fuel. *)
Lemma parse_fuel_stable :
  forall f1,
    (forall s f2,
       (2 * String.length s + 1 <= f1)%nat -> (2 * String.length s + 1 <= f2)%nat ->
       parse_value wide f1 s = parse_value wide f2 s) /\
    (forall s f2,
       (2 * String.length s + 2 <= f1)%nat -> (2 * String.length s + 2 <= f2)%nat ->
       parse_elements wide f1 s = parse_elements wide f2 s) /\
    (forall s f2,
       (2 * String.length s + 2 <= f1)%nat -> (2 * String.length s + 2 <= f2)%nat ->
       parse_members wide f1 s = parse_members wide f2 s).
Proof.
  induction f1 as [|f1 (IHv & IHe & IHm)];
    [repeat split; intros; lia|].
  split; [|split].
  - intros s [|f2] H1 H2; [lia|]. cbn [parse_value].
    pose proof (skip_ws_length s) as Hws.
    destruct (skip_ws s) as [|c r0]; [reflexivity|]. simpl in Hws.
    rewrite (IHe r0 f2) by lia. rewrite (IHm r0 f2) by lia. reflexivity.
  - intros s [|f2] H1 H2; [lia|]. cbn [parse_elements].
    rewrite (IHv s f2) by lia.
    destruct (parse_value wide f2 s) as [[v r0]|] eqn:Ev; [|reflexivity].
    apply (proj1 (parse_lengths f2)) in Ev.
    pose proof (skip_ws_length r0) as Hws.
    destruct (accept "," (skip_ws r0)) as [r1|] eqn:Ea; [|reflexivity].
    apply accept_length in Ea.
    rewrite (IHe r1 f2) by lia. reflexivity.
  - intros s [|f2] H1 H2; [lia|]. cbn [parse_members].
    pose proof (skip_ws_length s) as Hws.
    destruct (accept (ascii_of_nat 34) (skip_ws s)) as [r0|] eqn:Eq; [|reflexivity].
    apply accept_length in Eq.
    destruct (parse_string_body wide r0) as [[key r1]|] eqn:Ek; [|reflexivity].
    apply (parse_string_body_length _ _ _ _ (le_n _)) in Ek.
    pose proof (skip_ws_length r1) as Hws1.
    destruct (accept ":" (skip_ws r1)) as [r2|] eqn:Ec; [|reflexivity].
    apply accept_length in Ec.
    rewrite (IHv r2 f2) by lia.
    destruct (parse_value wide f2 r2) as [[v r3]|] eqn:Ev; [|reflexivity].
    apply (proj1 (parse_lengths f2)) in Ev.
    pose proof (skip_ws_length r3) as Hws3.
    destruct (accept "," (skip_ws r3)) as [r4|] eqn:Ea; [|reflexivity].
    apply accept_length in Ea.
    rewrite (IHm r4 f2) by lia. reflexivity.
Qed.

(** [JSON.parse] with its fuel is the parser with any larger fuel: the
    fuel is never what makes a text fail. *)
Lemma parse_fuel_enough (text : string) (fuel : nat) :
  (fuel_for text <= fuel)%nat ->
  parse_with wide fuel text = parse_with wide (fuel_for text) text.
Proof.
  intros H. unfold parse_with, fuel_for in *.
  now rewrite (proj1 (parse_fuel_stable fuel) text (2 * String.length text + 2)%nat)
    by lia.
Qed.

End WithFlag.

End JSONFacts.

(* ===================================================================== *)
(** ** The typing flag and the suspended calls *)
(* ===================================================================== *)

Module FlightFacts.
Import App StoreFacts.

(** A transition that touches neither the flag nor the suspended calls. *)
Lemma single_flight_frame st st' :
  isTyping st' = isTyping st -> awaiting st' = awaiting st ->
  single_flight st -> single_flight st'.
Proof. unfold single_flight. intros -> ->. trivial. Qed.

Lemma single_flight_initial cs cur : single_flight (initial cs cur).
Proof. right. split; reflexivity. Qed.

Lemma deleteChat_flight id st :
  isTyping (deleteChat id st) = isTyping st /\
  awaiting (deleteChat id st) = awaiting st.
Proof.
  unfold deleteChat. destruct (is_current (currentChatId st) id);
    split; reflexivity.
Qed.

Lemma selectChat_flight n st :
  isTyping (selectChat n st) = isTyping st /\
  awaiting (selectChat n st) = awaiting st.
Proof.
  unfold selectChat. destruct (nth_error (chats st) n); split; reflexivity.
Qed.

(** A submit that passes both guards raises the flag and suspends exactly
    one call more. *)
Lemma sendMessage_accepted now st :
  sendMessage now st = st \/
  (isTyping st = false /\
   isTyping (sendMessage now st) = true /\
   exists call, awaiting (sendMessage now st) = awaiting st ++ [call]).
Proof.
  unfold sendMessage.
  destruct (negb _ && _); [now left|].
  destruct (isTyping st) eqn:Ht; [now left|].
  right. split; [reflexivity|].
  destruct (match currentChatId st with
            | Some id => if JS.truthy_string id then Some id else None
            | None => None
            end) as [id|]; simpl; (split; [reflexivity | eexists; reflexivity]).
Qed.

(** While the flag is set, [sendMessage] returns at once: the state, and
    with it every session and the list of suspended calls, is unchanged. *)
Lemma sendMessage_rejected now st :
  isTyping st = true -> sendMessage now st = st.
Proof.
  intros Ht. unfold sendMessage. rewrite Ht.
  now destruct (negb _ && _).
Qed.

Lemma resume_flight k now outcome st call :
  nth_error (awaiting st) k = Some call ->
  isTyping (sendMessage_resume k now outcome st) = false /\
  awaiting (sendMessage_resume k now outcome st) = remove_nth k (awaiting st).
Proof.
  intros H. unfold sendMessage_resume. rewrite H.
  destruct (GeminiService.generateMathResponse _ _ _ _); split; reflexivity.
Qed.

Lemma single_flight_handle e st : single_flight st -> single_flight (handle e st).
Proof.
  intros H. destruct e; simpl.
  - exact H.
  - destruct (deleteChat_flight id st) as [E1 E2].
    now apply (single_flight_frame st).
  - destruct (selectChat_flight n st) as [E1 E2].
    now apply (single_flight_frame st).
  - exact H.
  - destruct (handleFileChange_store files st) as (_ & _ & E1 & E2).
    now apply (single_flight_frame st).
  - exact H.
  - exact H.
  - destruct (sendMessage_accepted now st) as [-> | (Hidle & Hbusy & call & Hcalls)];
      [exact H|].
    destruct H as [[Ht _] | [_ Hnone]]; [congruence|].
    left. split; [exact Hbusy|]. exists call. now rewrite Hcalls, Hnone.
  - destruct (nth_error (awaiting st) k) as [call|] eqn:Ek.
    + destruct (resume_flight k now outcome st call Ek) as [E1 E2].
      right. split; [exact E1|]. rewrite E2.
      destruct H as [[_ [c Hc]] | [_ Hnone]].
      * rewrite Hc in *. destruct k as [|[|k]]; simpl in *; try reflexivity;
          discriminate.
      * rewrite Hnone in Ek. destruct k; discriminate.
    + unfold sendMessage_resume. now rewrite Ek.
Qed.

Lemma single_flight_render st : single_flight st -> single_flight (render st).
Proof. apply single_flight_frame; reflexivity. Qed.

Lemma single_flight_run events cs cur : single_flight (run events (initial cs cur)).
Proof.
  unfold run.
  assert (H : single_flight (render (initial cs cur)))
    by apply single_flight_render, single_flight_initial.
  revert H. generalize (render (initial cs cur)) as s.
  induction events as [|e events IH]; intros s Hs; simpl; [exact Hs|].
  apply IH. unfold step. now apply single_flight_render, single_flight_handle.
Qed.

End FlightFacts.

(* ===================================================================== *)
(** ** Claims about the session store and the controller *)
(* ===================================================================== *)

Module StoreClaims.
Import App StoreFacts Scenarios.

(** C3. Deleting the session whose id is the active session id makes
    active a most recently modified remaining session (by [lastModified]),
    or null when none remains; deleting an id that no session of the store
    has leaves the store unchanged.  The store is the one the last render
    committed ([render st]), the deletion is the whole transition. *)
Theorem deleteChat_reselects_most_recent :
  forall (st : State) (id : string),
    let shown := render st in
    let after := step shown (DeleteChat id) in
    (currentChatId shown = Some id ->
       (forall c, In c (chats after) <->
                  In c (chats st) /\ ChatSession.id c <> id) /\
       match currentChatId after with
       | None => chats after = []
       | Some a =>
           exists s, In s (chats after) /\ ChatSession.id s = a /\
             forall t, In t (chats after) ->
               ChatSession.lastModified t <= ChatSession.lastModified s
       end) /\
    (store_inv st ->
     (forall c, In c (chats st) -> ChatSession.id c <> id) ->
     after = shown).
Proof.
  intros st id shown after.
  assert (Hsorted : recent_first (remove_id id (chats shown))).
  { apply filter_recent_first. apply sort_desc_sorted. }
  split.
  - intros Hcur.
    assert (Hafter : chats after = remove_id id (chats shown) /\
                     currentChatId after =
                       match remove_id id (chats shown) with
                       | c :: _ => Some (ChatSession.id c)
                       | [] => None
                       end).
    { unfold after, step, handle, deleteChat.
      apply is_current_true in Hcur. rewrite Hcur.
      unfold render at 1. simpl. split; [|reflexivity].
      now apply sort_desc_fixpoint. }
    destruct Hafter as [Hchats Hactive]. rewrite Hchats, Hactive. split.
    + intros c. rewrite In_remove_id. unfold shown, render; simpl.
      rewrite In_sort_desc. reflexivity.
    + destruct (remove_id id (chats shown)) as [|s l] eqn:E; [reflexivity|].
      exists s. split; [now left|]. split; [reflexivity|].
      now apply head_most_recent.
  - intros Hinv Habsent.
    assert (Hrem : remove_id id (chats shown) = chats shown).
    { apply remove_id_absent. intros c Hc. apply Habsent.
      unfold shown, render in Hc; simpl in Hc. exact (proj1 (In_sort_desc c (chats st)) Hc). }
    assert (Hnot : is_current (currentChatId shown) id = false).
    { destruct (is_current (currentChatId shown) id) eqn:E; [|reflexivity].
      apply is_current_true in E. exfalso.
      unfold store_inv in Hinv. unfold shown, render in E; simpl in E.
      rewrite E in Hinv. destruct Hinv as [c [Hc Hid]].
      now apply (Habsent c Hc). }
    unfold after, step, handle, deleteChat. rewrite Hnot.
    unfold set_chats at 1. rewrite Hrem.
    change (render (mkState (chats shown) (currentChatId shown) (inputText shown)
                      (attachments shown) (isTyping shown) (awaiting shown)
                      (alerts shown)) = shown).
    replace (mkState (chats shown) (currentChatId shown) (inputText shown)
               (attachments shown) (isTyping shown) (awaiting shown)
               (alerts shown)) with shown by (now destruct shown).
    apply render_idempotent.
Qed.

(** At a store of three sessions, deleting the active one ("b", the most
    recent) activates "c" (modified at 20) and not "a" (modified at 10),
    and deleting the unknown id "z" changes nothing. *)
Lemma deleteChat_reselects_most_recent_witness :
  currentChatId (step (render three_sessions) (DeleteChat "b")) = Some "c" /\
  (exists s, In s (chats (step (render three_sessions) (DeleteChat "b"))) /\
             ChatSession.id s = "c" /\
     forall t, In t (chats (step (render three_sessions) (DeleteChat "b"))) ->
       ChatSession.lastModified t <= ChatSession.lastModified s) /\
  step (render three_sessions) (DeleteChat "z") = render three_sessions.
Proof.
  split; [reflexivity|]. split.
  - exact (proj2 (proj1 (deleteChat_reselects_most_recent three_sessions "b")
                        eq_refl)).
  - apply (proj2 (deleteChat_reselects_most_recent three_sessions "z")).
    + simpl. eexists. split; [right; left; reflexivity | reflexivity].
    + intros c [<- | [<- | [<- | []]]]; discriminate.
Defined.

(** C4. After every finite sequence of [createSession] and
    [deleteSession] from the empty store, the active session id is null or
    the id of a session of the store. *)
Theorem active_session_never_dangling :
  forall ops : list StoreOp,
    currentChatId (apply_ops ops) = None \/
    exists c, In c (chats (apply_ops ops)) /\
              currentChatId (apply_ops ops) = Some (ChatSession.id c).
Proof.
  intros ops.
  assert (H : store_inv (apply_ops ops)).
  { unfold apply_ops. apply store_inv_run. exact I. }
  unfold store_inv in H.
  destruct (currentChatId (apply_ops ops)) as [id|]; [right | now left].
  destruct H as [c [Hc E]]. exists c. split; [exact Hc | now rewrite E].
Qed.

End StoreClaims.

Module ControllerClaims.
Import App StoreFacts FlightFacts Scenarios.

(** C1. In every state the controller reaches, by any interleaving of
    events from any store read at start-up, at most one submit is in flight,
    and it is in flight exactly when the typing flag is set.  While it is, a
    further submit returns at once whatever the active session: no session
    changes (no user message is appended) and no call is added (the model is
    not invoked).  The flag falls when the pending call settles, with a
    reply or with a failure. *)
Theorem submit_is_single_flight :
  forall (cs : list ChatSession.t) (cur : option string) (events : list Event),
    let st := run events (initial cs cur) in
    (in_flight st <= 1)%nat /\
    (isTyping st = true <-> in_flight st = 1%nat) /\
    (isTyping st = true ->
       forall now, sendMessage now st = st /\ step st (Send now) = st) /\
    (forall k now outcome call,
       nth_error (awaiting st) k = Some call ->
       isTyping (step st (Settle k now outcome)) = false /\
       in_flight (step st (Settle k now outcome)) = 0%nat).
Proof.
  intros cs cur events st.
  assert (Hsf : single_flight st) by apply single_flight_run.
  assert (Hr : render st = st) by apply run_rendered.
  unfold in_flight.
  repeat split.
  - destruct Hsf as [[_ [c ->]] | [_ ->]]; simpl; lia.
  - intros Ht. destruct Hsf as [[_ [c ->]] | [Hf _]]; [reflexivity | congruence].
  - intros Hn. destruct Hsf as [[Ht _] | [_ Hnone]]; [exact Ht|].
    rewrite Hnone in Hn. discriminate.
  - now apply sendMessage_rejected.
  - unfold step, handle. rewrite sendMessage_rejected by assumption. exact Hr.
  - unfold step, handle, render; simpl.
    now destruct (resume_flight k now outcome st call H).
  - unfold step, handle, render; simpl.
    destruct (resume_flight k now outcome st call H) as [_ ->].
    destruct Hsf as [[_ [c Hc]] | [_ Hnone]].
    + rewrite Hc in *. destruct k as [|[|k]]; simpl in *; try reflexivity;
        discriminate.
    + rewrite Hnone in H. destruct k; discriminate.
Qed.

(** A submit is in flight after the first [Send]; the second [Send], with
    new text in the input bar, changes nothing; the failure of the pending
    call lowers the flag. *)
Lemma submit_is_single_flight_witness :
  let st := run [SetInputText "1+1"; Send 1000; SetInputText "2+2"]
                (initial [] None) in
  isTyping st = true /\ in_flight st = 1%nat /\
  step st (Send 2000) = st /\
  isTyping (step st (Settle 0 3000 (JS.Throw (JS.RemoteError "503")))) = false.
Proof.
  intros st.
  pose proof (submit_is_single_flight []%list None
                [SetInputText "1+1"; Send 1000; SetInputText "2+2"]) as H.
  cbv zeta in H. fold st in H.
  destruct H as (_ & _ & Hreject & Hsettle).
  split; [reflexivity|]. split; [reflexivity|]. split.
  - apply Hreject. reflexivity.
  - eapply Hsettle. reflexivity.
Defined.

(** *** Attachments *)

Lemma read_files_spec fs :
  read_files fs = (accepted fs, map (fun _ => size_warning) (oversized fs)).
Proof.
  unfold accepted, oversized.
  induction fs as [|f fs IH]; simpl; [reflexivity|].
  rewrite IH. rewrite Z.leb_antisym.
  destruct (max_file_size <? file_size f); reflexivity.
Qed.

Lemma sendMessage_suspends now st :
  isTyping st = false -> has_input st ->
  exists call,
    awaiting (sendMessage now st) = awaiting st ++ [call] /\
    originalInput call = inputText st /\
    originalAttachments call = attachments st.
Proof.
  intros Hidle Hin. unfold sendMessage. rewrite Hidle.
  assert (Hguard : negb (JS.truthy_string (JS.trim (inputText st)))
                   && Nat.eqb (List.length (attachments st)) 0 = false).
  { destruct Hin as [Ht | Ha].
    - destruct (JS.trim (inputText st)); [congruence | reflexivity].
    - destruct (attachments st); [congruence|]. simpl. apply andb_false_r. }
  rewrite Hguard.
  destruct (match currentChatId st with
            | Some id => if JS.truthy_string id then Some id else None
            | None => None
            end) as [id|]; simpl; eexists; repeat split; reflexivity.
Qed.

(** A submit stores its user message: last in the active session, which
    is the session that was active or, when none was, a new one. *)
Lemma sendMessage_stores now st :
  isTyping st = false -> has_input st -> store_inv st ->
  exists c earlier,
    In c (chats (sendMessage now st)) /\
    currentChatId (sendMessage now st) = Some (ChatSession.id c) /\
    ChatSession.messages c = earlier ++ [userMessage now st] /\
    ChatSession.lastModified c = now.
Proof.
  intros Hidle Hin Hinv. unfold sendMessage. rewrite Hidle.
  assert (Hguard : negb (JS.truthy_string (JS.trim (inputText st)))
                   && Nat.eqb (List.length (attachments st)) 0 = false).
  { destruct Hin as [Ht | Ha].
    - destruct (JS.trim (inputText st)); [congruence | reflexivity].
    - destruct (attachments st); [congruence|]. simpl. apply andb_false_r. }
  rewrite Hguard. unfold store_inv in Hinv.
  assert (Hnew : forall title,
            append_message (ChatSession.id (newChat now title))
                           (userMessage now st) now (newChat now title) =
            ChatSession.mk (JS.toString now) title [userMessage now st] now now).
  { intros title. unfold append_message, has_id, newChat.
    cbn [ChatSession.id]. now rewrite String.eqb_refl. }
  destruct (currentChatId st) as [id|] eqn:Hcur.
  - destruct (JS.truthy_string id) eqn:Hid.
    + destruct Hinv as (c0 & Hc0 & Hc0id).
      assert (Hhas : has_id id c0 = true)
        by (unfold has_id; rewrite Hc0id; apply String.eqb_refl).
      assert (Happ : append_message id (userMessage now st) now c0 =
                     ChatSession.mk (ChatSession.id c0) (ChatSession.title c0)
                       (ChatSession.messages c0 ++ [userMessage now st])
                       (ChatSession.createdAt c0) now)
        by (unfold append_message; now rewrite Hhas).
      exists (append_message id (userMessage now st) now c0),
             (ChatSession.messages c0).
      split; [simpl; now apply in_map|]. rewrite Happ.
      split; [simpl; congruence|]. split; reflexivity.
    + cbv zeta. cbn [fst snd chats currentChatId set_chats set_currentChatId
                     set_awaiting set_isTyping set_attachments set_inputText map].
      rewrite Hnew. eexists; exists []%list.
      split; [left; reflexivity|]. repeat split; reflexivity.
  - cbv zeta. cbn [fst snd chats currentChatId set_chats set_currentChatId
                   set_awaiting set_isTyping set_attachments set_inputText map].
    rewrite Hnew. eexists; exists []%list.
    split; [left; reflexivity|]. repeat split; reflexivity.
Qed.

(** C8. Of the files of one selection, each one over 10 MiB is dropped
    with its own warning, and every file at or under the bound becomes an
    attachment, in order; the text of the input bar is untouched.  The
    submit that follows carries that text and exactly the attachments kept:
    in the user message, in what is sent to the model, and in the store,
    where the message with that text and those attachments is the last of
    the session that the submit leaves active. *)
Theorem oversized_files_dropped_individually :
  forall (files : list File) (st : State),
    let st' := handleFileChange (Some files) st in
    max_file_size = 10485760 /\
    attachments st' = attachments st ++ accepted files /\
    alerts st' = alerts st ++ map (fun _ => size_warning) (oversized files) /\
    inputText st' = inputText st /\
    chats st' = chats st /\
    (forall now,
       isTyping st = false -> has_input st' ->
       Message.content (userMessage now st') = inputText st /\
       Message.attachments (userMessage now st') =
         Some (attachments st ++ accepted files) /\
       exists call,
         awaiting (sendMessage now st') = awaiting st ++ [call] /\
         originalInput call = inputText st /\
         originalAttachments call = attachments st ++ accepted files) /\
    (forall now,
       isTyping st = false -> has_input st' -> store_inv st ->
       exists c earlier m,
         In c (chats (sendMessage now st')) /\
         currentChatId (sendMessage now st') = Some (ChatSession.id c) /\
         ChatSession.messages c = earlier ++ [m] /\
         Message.role m = user /\
         Message.content m = inputText st /\
         Message.attachments m = Some (attachments st ++ accepted files)).
Proof.
  intros files st st'.
  assert (Hst' : st' = set_attachments (fun prev => prev ++ accepted files)
                         (fold_left (fun s w => alert w s)
                            (map (fun _ => size_warning) (oversized files)) st)).
  { unfold st', handleFileChange. now rewrite read_files_spec. }
  destruct (alerts_keep_store (map (fun _ => size_warning) (oversized files)) st)
    as (H1 & H2 & H3 & H4 & H5 & H6 & H7).
  assert (Hatt : attachments st' = attachments st ++ accepted files)
    by (rewrite Hst'; simpl; now rewrite H4).
  assert (Htxt : inputText st' = inputText st)
    by (rewrite Hst'; simpl; exact H3).
  assert (Hidle' : isTyping st = false -> isTyping st' = false)
    by (rewrite Hst'; simpl; now rewrite H5).
  split; [reflexivity|]. split; [exact Hatt|].
  split; [rewrite Hst'; simpl; exact H7|].
  split; [exact Htxt|].
  split; [rewrite Hst'; simpl; exact H1|].
  split.
  - intros now Hidle Hin.
    split; [simpl; exact Htxt|].
    split; [simpl; now rewrite Hatt|].
    destruct (sendMessage_suspends now st') as (call & Hc1 & Hc2 & Hc3);
      [now apply Hidle' | exact Hin |].
    exists call. rewrite Hc1, Hc2, Hc3, Htxt, Hatt.
    split; [|split; reflexivity].
    f_equal. rewrite Hst'. simpl. exact H6.
  - intros now Hidle Hin Hinv.
    assert (Hinv' : store_inv st').
    { unfold store_inv in *. rewrite Hst'. simpl. now rewrite H1, H2. }
    destruct (sendMessage_stores now st' (Hidle' Hidle) Hin Hinv')
      as (c & earlier & Hc & Hcur & Hmsgs & _).
    exists c, earlier, (userMessage now st').
    split; [exact Hc|]. split; [exact Hcur|]. split; [exact Hmsgs|].
    split; [reflexivity|]. split; [simpl; exact Htxt|].
    simpl. now rewrite Hatt.
Qed.

(** An 11 MiB file and a 1 MiB file chosen together, with text typed: one
    warning, the 1 MiB file attached, and the submit carries it with the
    text, to the model and into the session that it creates. *)
Lemma oversized_files_dropped_individually_witness :
  let st := set_inputText "integrate this" (initial [] None) in
  let st' := handleFileChange (Some two_files) st in
  attachments st' =
    [Attachment.mk "notes.pdf" "application/pdf" "data:application/pdf;base64,BBBB"] /\
  alerts st' = [size_warning] /\
  (exists call,
     awaiting (sendMessage 1000 st') = [call] /\
     originalInput call = "integrate this" /\
     originalAttachments call =
       [Attachment.mk "notes.pdf" "application/pdf" "data:application/pdf;base64,BBBB"]) /\
  (exists c earlier m,
     In c (chats (sendMessage 1000 st')) /\
     currentChatId (sendMessage 1000 st') = Some (ChatSession.id c) /\
     ChatSession.messages c = earlier ++ [m] /\
     Message.role m = user /\
     Message.content m = "integrate this" /\
     Message.attachments m =
       Some [Attachment.mk "notes.pdf" "application/pdf"
                           "data:application/pdf;base64,BBBB"]).
Proof.
  intros st st'.
  pose proof (oversized_files_dropped_individually two_files st) as H.
  cbv zeta in H. fold st' in H.
  destruct H as (_ & Hatt & Hal & _ & _ & Hsend & Hstore).
  assert (Hin : has_input st') by (right; rewrite Hatt; discriminate).
  split; [exact Hatt|]. split; [exact Hal|]. split.
  - destruct (Hsend 1000 eq_refl Hin) as (_ & _ & call & Hc).
    exists call. exact Hc.
  - exact (Hstore 1000 eq_refl Hin I).
Defined.

(** *** [lastModified] *)

(** C9 (evaluation of the code). The [catch] branch of [sendMessage]
    appends the fallback message and leaves [lastModified] as it was: after
    a failure at time 2000 the session still says 1000, the time of the user
    message, where the success branch says 2000. *)
Theorem error_path_keeps_lastModified :
  (forall call now chat,
     ChatSession.lastModified (append_error call now chat) =
     ChatSession.lastModified chat) /\
  (exists c m_user m_error,
     chats failed_submit = [c] /\
     ChatSession.messages c = [m_user; m_error] /\
     Message.content m_error = error_text /\
     Message.timestamp m_error = 2000 /\
     ChatSession.lastModified c = 1000) /\
  (exists c m_user m_reply,
     chats answered_submit = [c] /\
     ChatSession.messages c = [m_user; m_reply] /\
     Message.timestamp m_reply = 2000 /\
     ChatSession.lastModified c = 2000).
Proof.
  split; [|split].
  - intros call now chat. unfold append_error.
    now destruct (has_id (activeChatId call) chat).
  - do 3 eexists. vm_compute. repeat split; reflexivity.
  - do 3 eexists. vm_compute. repeat split; reflexivity.
Qed.

(** *** A submit with no active session *)

(** C10 (as amended). A submit with input, made while no session is
    active and no submit is in flight, creates a session whose id is the
    clock reading, titled with the first 35 characters of the text (or
    'Multimodal Query' when the text is empty), puts it first, makes it
    active and appends the user message, which carries the text and the
    attachments, to it. *)
Theorem submit_without_session_creates_one :
  forall (now : Z) (st : State),
    has_input st ->
    currentChatId st = None ->
    isTyping st = false ->
    let st' := sendMessage now st in
    let m := userMessage now st in
    chats st' =
      ChatSession.mk (JS.toString now) (auto_title (inputText st)) [m] now now
      :: map (append_message (JS.toString now) m now) (chats st) /\
    currentChatId st' = Some (JS.toString now) /\
    Message.role m = user /\
    Message.content m = inputText st /\
    Message.attachments m = Some (attachments st) /\
    isTyping st' = true.
Proof.
  intros now st Hin Hcur Hidle st' m.
  assert (Hguard : negb (JS.truthy_string (JS.trim (inputText st)))
                   && Nat.eqb (List.length (attachments st)) 0 = false).
  { destruct Hin as [Ht | Ha].
    - destruct (JS.trim (inputText st)); [congruence | reflexivity].
    - destruct (attachments st); [congruence|]. simpl. apply andb_false_r. }
  assert (Htitle : JS.or_string (JS.slice0 35 (inputText st)) "Multimodal Query"
                   = auto_title (inputText st)).
  { unfold auto_title. destruct (inputText st); reflexivity. }
  unfold st', sendMessage. rewrite Hguard, Hidle, Hcur. simpl.
  fold m. rewrite Htitle.
  unfold append_message at 1, has_id at 1. simpl.
  rewrite String.eqb_refl. simpl.
  repeat split; reflexivity.
Qed.

Lemma submit_without_session_creates_one_witness :
  let st := set_inputText "Solve x^2 = 4" (initial [] None) in
  exists m,
    chats (sendMessage 1000 st) =
      [ChatSession.mk "1000" "Solve x^2 = 4" [m] 1000 1000] /\
    Message.content m = "Solve x^2 = 4" /\
    currentChatId (sendMessage 1000 st) = Some "1000".
Proof.
  intros st.
  destruct (submit_without_session_creates_one 1000 st)
    as (Hchats & Hcur & _ & Hcontent & _).
  - left. discriminate.
  - reflexivity.
  - reflexivity.
  - exists (userMessage 1000 st). split; [exact Hchats|].
    split; [exact Hcontent | exact Hcur].
Defined.

(** C10 (as stated) fails while a submit is in flight: there is input and
    no active session, and the submit creates no session and appends no
    message. *)
Lemma submit_while_busy_creates_no_session :
  inputText busy_without_session = "2+2" /\
  has_input busy_without_session /\
  currentChatId busy_without_session = None /\
  isTyping busy_without_session = true /\
  sendMessage 2000 busy_without_session = busy_without_session /\
  chats (sendMessage 2000 busy_without_session) = [] /\
  currentChatId (sendMessage 2000 busy_without_session) = None.
Proof.
  vm_compute. repeat split; try reflexivity. left. discriminate.
Qed.

End ControllerClaims.

(* ===================================================================== *)
(** ** Claims about the renderer *)
(* ===================================================================== *)

Module RenderClaims.
Import RegExp MathMarkdown RegExpFacts.

Lemma renderMath_total katex text isBlock :
  exists html, renderMath katex text isBlock = JS.Ok html.
Proof.
  unfold renderMath, JS.try_catch.
  destruct (katex text isBlock); eexists; reflexivity.
Qed.

Lemma renderMath_degrade katex text isBlock :
  renderMath katex text isBlock = renderMath (degrade katex) text isBlock.
Proof.
  unfold renderMath, degrade, JS.try_catch.
  now destruct (katex text isBlock).
Qed.

Lemma render_line_total line : exists e, render_line line = JS.Ok e.
Proof.
  unfold render_line, replace.
  destruct (replace_from_total bold
              (fun _ cap => JS.Ok ("<strong>" ++ group1 cap ++ "</strong>")%string)
              (fun m cap => ex_intro _ _ eq_refl) line 0%nat 0%nat) as [html ->].
  cbn [JS.bind].
  destruct (_ || _); [eexists; reflexivity|].
  destruct (test ordered_item (JS.trim line)); [eexists; reflexivity|].
  destruct (negb _); eexists; reflexivity.
Qed.

Lemma mapM_total {A B} (f : A -> JS.Result B) :
  (forall x, exists y, f x = JS.Ok y) ->
  forall l, exists ys, mapM f l = JS.Ok ys.
Proof.
  intros Hf. induction l as [|x l [ys IH]]; simpl; [eexists; reflexivity|].
  destruct (Hf x) as [y ->]. rewrite IH. simpl. eexists; reflexivity.
Qed.

Lemma block_replacer_total k :
  forall (m : string) (cap : option string),
  exists v,
    (html <- renderMath k (group1 cap) true ;;
     JS.Ok (display_container html)) = JS.Ok v.
Proof.
  intros m cap. destruct (renderMath_total k (group1 cap) true) as [html ->].
  eexists; reflexivity.
Qed.

(** C5. For every input string and every typesetting backend, present or
    absent, throwing or not, the renderer returns a result.  A fragment on
    which the backend throws is replaced by its raw text, and the rendering
    is the one obtained from the backend that yields that raw text instead
    of throwing: the rest of the input is rendered as usual. *)
Theorem render_never_throws :
  forall (katex : option Katex) (content : string),
    (exists rendered, renderedContent katex content = JS.Ok rendered) /\
    (forall k, katex = Some k ->
       (forall text isBlock e,
          k text isBlock = JS.Throw e ->
          renderMath k text isBlock = JS.Ok text) /\
       renderedContent (Some k) content =
       renderedContent (Some (degrade k)) content).
Proof.
  intros katex content. split.
  - unfold renderedContent.
    destruct (negb (JS.truthy_string content)); [eexists; reflexivity|].
    destruct katex as [k|]; [|eexists; reflexivity].
    unfold replace.
    destruct (replace_from_total block_math
                (fun _ math =>
                   html <- renderMath k (group1 math) true ;;
                   JS.Ok (display_container html))
                (block_replacer_total k)
                content 0%nat 0%nat) as [processed1 ->].
    cbn [JS.bind].
    destruct (replace_from_total inline_math
                (fun _ math => renderMath k (group1 math) false)
                (fun m cap => renderMath_total k (group1 cap) false)
                processed1 0%nat 0%nat) as [processed2 ->].
    cbn [JS.bind].
    destruct (mapM_total render_line render_line_total
                (JS.split "010" processed2)) as [blocks ->].
    cbn [JS.bind]. eexists; reflexivity.
  - intros k _. split.
    + intros text isBlock e H. unfold renderMath. now rewrite H.
    + unfold renderedContent.
      destruct (negb (JS.truthy_string content)); [reflexivity|].
      unfold replace.
      rewrite (replace_from_ext block_math
                 (fun _ math =>
                    html <- renderMath k (group1 math) true ;;
                    JS.Ok (display_container html))
                 (fun _ math =>
                    html <- renderMath (degrade k) (group1 math) true ;;
                    JS.Ok (display_container html)))
        by (intros m cap; now rewrite renderMath_degrade).
      destruct (replace_from block_math _ 0 0 content) as [processed1|e];
        [|reflexivity].
      cbn [JS.bind].
      rewrite (replace_from_ext inline_math
                 (fun _ math => renderMath k (group1 math) false)
                 (fun _ math => renderMath (degrade k) (group1 math) false))
        by (intros m cap; apply renderMath_degrade).
      reflexivity.
Qed.

(** With a backend that throws on every fragment, text with inline math
    and emphasis is rendered with the raw TeX in place. *)
Lemma render_never_throws_witness :
  renderedContent (Some failing_backend) "Area: $\pi r^2$ and **done**" =
  JS.Ok (Elements [p "Area: \pi r^2 and <strong>done</strong>"]).
Proof.
  destruct (render_never_throws (Some failing_backend)
              "Area: $\pi r^2$ and **done**") as [_ H].
  destruct (H failing_backend eq_refl) as [_ E].
  rewrite E. reflexivity.
Defined.

(** The inputs the specification names: an unmatched [$], an unmatched
    [$$], the empty string. *)
Example render_unmatched_delimiters :
  renderedContent (Some span_backend) "costs $5" =
    JS.Ok (Elements [p "costs $5"]) /\
  renderedContent (Some span_backend) "$$ x + 1" =
    JS.Ok (Elements [p "$$ x + 1"]) /\
  renderedContent (Some span_backend) EmptyString = JS.Ok Null.
Proof. repeat split; reflexivity. Qed.

(** *** The block-math scenario *)

Lemma block_math_on_sine_integral :
  exec_at block_math 0 sine_integral =
    Some (String.length sine_integral, Some sine_integral_tex).
Proof. vm_compute. reflexivity. Qed.

Lemma block_math_needs_input j : exec_at block_math j EmptyString = None.
Proof. reflexivity. Qed.

(** A line of HTML without a star is a paragraph, as it is. *)
Lemma render_line_html t :
  lacks "*" (String "<" t) = true ->
  render_line (String "<" t) = JS.Ok (p (String "<" t)).
Proof.
  intros Hstar. unfold render_line, replace, bold.
  rewrite replace_lacking_first_char by exact Hstar.
  cbn [JS.bind].
  assert (Htrim : exists t', JS.trim (String "<" t) = String "<" t').
  { unfold JS.trim. cbn [JS.trimStart]. apply trimEnd_keeps_head. reflexivity. }
  destruct Htrim as [t' ->].
  assert (Htest : test ordered_item (String "<" t') = false).
  { unfold test. cbn [test_from].
    change (exec_at ordered_item 0 (String "<" t')) with (@None (nat * option string)).
    apply anchored_fails_later. }
  rewrite Htest. reflexivity.
Qed.

Lemma display_container_clean html :
  clean html = true ->
  lacks "$" (display_container html) = true /\
  lacks "010" (display_container html) = true /\
  lacks "*" (display_container html) = true.
Proof.
  unfold clean. intros H.
  apply andb_true_iff in H. destruct H as [H Hstar].
  apply andb_true_iff in H. destruct H as [Hdollar Hnl].
  unfold display_container. rewrite !lacks_app, Hdollar, Hnl, Hstar.
  repeat split; reflexivity.
Qed.

(** C6 (as amended). With a typesetting backend loaded, the input
    [$$\int_0^\infty \frac{\sin x}{x}dx$$] is rendered as exactly one block:
    a paragraph whose HTML is the display-math container around what
    [renderMath] gives for the TeX between the delimiters, provided that
    HTML holds no dollar, line feed or star.  There is one display-math
    container and it lies inside a paragraph. *)
Theorem block_math_is_one_paragraph :
  forall (katex : Katex) (html : string),
    renderMath katex sine_integral_tex true = JS.Ok html ->
    clean html = true ->
    renderedContent (Some katex) sine_integral =
      JS.Ok (Elements [p (display_container html)]).
Proof.
  intros katex html Hmath Hclean.
  destruct (display_container_clean html Hclean) as (Hdollar & Hnl & Hstar).
  unfold renderedContent.
  change (negb (JS.truthy_string sine_integral)) with false. cbv iota.
  rewrite (replace_whole_match block_math _ sine_integral (Some sine_integral_tex));
    [ | discriminate | exact block_math_on_sine_integral
      | exact block_math_needs_input ].
  cbn [group1]. rewrite Hmath. cbn [JS.bind].
  unfold replace, inline_math.
  rewrite replace_lacking_first_char by exact Hdollar.
  cbn [JS.bind].
  rewrite split_lacking by exact Hnl.
  cbn [mapM].
  assert (Hline : render_line (display_container html) =
                  JS.Ok (p (display_container html))).
  { apply (render_line_html
             (("div class=" ++ dquote ++ "katex-display-container" ++ dquote ++ ">")
              ++ html ++ display_close)%string).
    exact Hstar. }
  rewrite Hline. reflexivity.
Qed.

(** For the stand-in backend and for a backend that throws, the rendering
    is one paragraph around the container. *)
Lemma block_math_is_one_paragraph_witness :
  renderedContent (Some span_backend) sine_integral =
    JS.Ok (Elements
             [p (display_container
                   ("<span class=" ++ dquote ++ "katex" ++ dquote ++ ">"
                    ++ sine_integral_tex ++ "</span>"))]) /\
  renderedContent (Some failing_backend) sine_integral =
    JS.Ok (Elements [p (display_container sine_integral_tex)]).
Proof.
  split.
  - apply (block_math_is_one_paragraph span_backend); reflexivity.
  - apply (block_math_is_one_paragraph failing_backend); reflexivity.
Defined.

(** C6 (as stated) fails: the rendering of the block-math input has a
    paragraph block; it is its only block. *)
Lemma block_math_is_wrapped_in_a_paragraph :
  exists html,
    renderedContent (Some span_backend) sine_integral =
      JS.Ok (Elements [p html]) /\
    paragraphs (Elements [p html]) = 1%nat /\
    paragraphs (Elements [p html]) <> 0%nat.
Proof.
  eexists. split; [vm_compute; reflexivity|]. split; [reflexivity | discriminate].
Qed.

End RenderClaims.

(* ===================================================================== *)
(** ** Claims about the orchestrator and about start-up *)
(* ===================================================================== *)

Module ServiceClaims.
Import GeminiService.

Lemma find_all_false {A} (f : A -> bool) (l : list A) :
  (forall x, In x l -> f x = false) -> find f l = None.
Proof.
  induction l as [|x l IH]; simpl; intros H; [reflexivity|].
  rewrite (H x (or_introl eq_refl)). apply IH. intros y Hy. apply H. now right.
Qed.

(** C7 (as amended). When the reply has no tagged part and its [text]
    field is a string that is not empty, [generateMathResponse] resolves to
    that text with the empty string as [thinking]; when no part has text and
    the field is absent or empty, it resolves, without an exception, to the
    apology. *)
Theorem plain_text_reply_decomposition :
  forall (response : Response) (history : list Message.t) (message : string)
         (attachments : option (list Attachment.t)),
    (forall t,
       no_tagged_part response ->
       response_text response = Some t ->
       t <> EmptyString ->
       generateMathResponse (fun _ => JS.Ok response) history message attachments
       = JS.Ok (mkReply t (JS.str EmptyString))) /\
    (no_usable_text response ->
       exists trace,
         generateMathResponse (fun _ => JS.Ok response) history message attachments
         = JS.Ok (mkReply apology trace)).
Proof.
  intros response history message attachments. split.
  - intros t Hparts Htext Hne.
    unfold generateMathResponse, decompose. cbn [JS.bind JS.try_catch].
    unfold textPart, thinkingPart.
    rewrite (find_all_false has_text (first_parts response))
      by (intros p Hp; apply (Hparts p Hp)).
    rewrite (find_all_false (fun p => JS.truthy (thought p)) (first_parts response))
      by (intros p Hp; apply (Hparts p Hp)).
    rewrite Htext.
    destruct t as [|c t]; [congruence | reflexivity].
  - intros [Hparts Htext].
    unfold generateMathResponse, decompose. cbn [JS.bind JS.try_catch].
    unfold textPart. rewrite (find_all_false has_text _ Hparts).
    exists (thinkingPart (first_parts response)).
    destruct Htext as [-> | ->]; reflexivity.
Qed.

Lemma plain_text_reply_decomposition_witness :
  generateMathResponse (fun _ => JS.Ok (plain_reply "x = 2")) [] "solve" None
  = JS.Ok (mkReply "x = 2" (JS.str EmptyString)) /\
  exists trace,
    generateMathResponse
      (fun _ => JS.Ok (mkResponse (Some [mkCandidate None]) None)) [] "solve" None
    = JS.Ok (mkReply apology trace).
Proof.
  split.
  - apply (proj1 (plain_text_reply_decomposition (plain_reply "x = 2")
                    [] "solve" None));
      [intros part [] | reflexivity | discriminate].
  - apply (proj2 (plain_text_reply_decomposition
                    (mkResponse (Some [mkCandidate None]) None) [] "solve" None)).
    split; [intros part [] | now left].
Defined.

(** C7 (as stated) fails: for a reply with the [text] field only, the
    reasoning trace is the empty string, which is not [undefined]; and when
    that field is the empty string the answer is the apology, not the
    field. *)
Lemma plain_text_reply_trace_is_empty_string :
  generateMathResponse (fun _ => JS.Ok (plain_reply "x = 2")) [] "solve" None
  = JS.Ok (mkReply "x = 2" (JS.str EmptyString)) /\
  JS.str EmptyString <> JS.undefined /\
  generateMathResponse (fun _ => JS.Ok (plain_reply EmptyString)) [] "solve" None
  = JS.Ok (mkReply apology (JS.str EmptyString)).
Proof. repeat split; try reflexivity. discriminate. Qed.

Import Startup.

Lemma all_some_head {A B} (f : A -> option B) (l : list A) (ys : list B) :
  all_some f l = Some ys ->
  match l, ys with
  | [], [] => True
  | x :: _, y :: _ => f x = Some y
  | _, _ => False
  end.
Proof.
  destruct l as [|x l]; simpl.
  - intros [= <-]. exact I.
  - destruct (f x) as [y|]; [|discriminate].
    destruct (all_some f l) as [ys'|]; [|discriminate].
    now intros [= <-].
Qed.

(** Read at the type of a session, an object has the id of its [id]
    member. *)
Lemma session_of_id v c :
  session_of v = Some c ->
  exists ms, v = JSON.JObject ms /\
             as_string (JSON.get "id" ms) = Some (ChatSession.id c).
Proof.
  unfold session_of. destruct v as [| | | | |ms]; try discriminate.
  destruct (as_string (JSON.get "id" ms)) as [i|] eqn:Hid; [|discriminate].
  destruct (as_string (JSON.get "title" ms)); [|discriminate].
  destruct (JSON.get "messages" ms) as [[| | | |msgs|]|]; try discriminate.
  destruct (as_integer (JSON.get "createdAt" ms)); [|discriminate].
  destruct (as_integer (JSON.get "lastModified" ms)); [|discriminate].
  destruct (all_some message_of msgs); [|discriminate].
  destruct (known _ ms); [|discriminate].
  intros [= <-]. exists ms. split; [reflexivity | exact Hid].
Qed.

Lemma first_id_of_sessions v cs :
  sessions_of v = Some cs ->
  first_id v = Returns (json (match cs with
                              | c :: _ => JSON.JString (ChatSession.id c)
                              | [] => JSON.JNull
                              end)).
Proof.
  unfold sessions_of. destruct v as [| | | |l|]; try discriminate.
  intros H. apply all_some_head in H.
  destruct l as [|x l], cs as [|c cs]; try contradiction; [reflexivity|].
  destruct (session_of_id x c H) as [ms [-> Hid]].
  unfold first_id. cbn [length_of positive List.length Nat.ltb Nat.leb
                        first_of id_of].
  unfold as_string in Hid.
  destruct (JSON.get "id" ms) as [[| | |i| |]|]; try discriminate.
  now injection Hid as ->.
Qed.





End ServiceClaims.

(* ===================================================================== *)
(** ** What is saved is what is read back *)
(* ===================================================================== *)

Module PersistenceFacts.
Import JSON Persistence JSONFacts.

(** A character that needs no escape is read as it is. *)
Lemma parse_literal_char c s :
  Ascii.eqb c dq = false -> Ascii.eqb c "\" = false ->
  (nat_of_ascii c <? 32)%nat = false ->
  parse_string_body false (String c s) =
  match parse_string_body false s with
  | Some (body, rest) => Some (String c body, rest)
  | None => None
  end.
Proof.
  intros E1 E2 E3. cbn [parse_string_body]. unfold dq in E1.
  now rewrite E1, E2, E3.
Qed.

(** Reading one written character gives the character. *)
Lemma parse_escape_char c s :
  parse_string_body false (escape_char c ++ s) =
  match parse_string_body false s with
  | Some (body, rest) => Some (String c body, rest)
  | None => None
  end.
Proof.
  unfold escape_char.
  destruct (Ascii.eqb c dq) eqn:E1;
    [apply Ascii.eqb_eq in E1; subst c; reflexivity|].
  destruct (Ascii.eqb c "\") eqn:E2;
    [apply Ascii.eqb_eq in E2; subst c; reflexivity|].
  destruct (Ascii.eqb c "008") eqn:E3;
    [apply Ascii.eqb_eq in E3; subst c; reflexivity|].
  destruct (Ascii.eqb c "012") eqn:E4;
    [apply Ascii.eqb_eq in E4; subst c; reflexivity|].
  destruct (Ascii.eqb c "010") eqn:E5;
    [apply Ascii.eqb_eq in E5; subst c; reflexivity|].
  destruct (Ascii.eqb c "013") eqn:E6;
    [apply Ascii.eqb_eq in E6; subst c; reflexivity|].
  destruct (Ascii.eqb c "009") eqn:E7;
    [apply Ascii.eqb_eq in E7; subst c; reflexivity|].
  destruct (nat_of_ascii c <? 32)%nat eqn:E8.
  - pose proof (ascii_nat_embedding c) as Hc.
    remember (nat_of_ascii c) as n eqn:Hn.
    apply Nat.ltb_lt in E8. rewrite <- Hc.
    clear Hc Hn E1 E2 E3 E4 E5 E6 E7.
    do 32 (destruct n as [|n]; [reflexivity|]).
    lia.
  - now apply parse_literal_char.
Qed.

Lemma string_app_assoc (a b c : string) :
  ((a ++ b) ++ c)%string = (a ++ (b ++ c))%string.
Proof. induction a as [|x a IH]; simpl; [reflexivity | now rewrite IH]. Qed.

(** A written string, with its closing quote, is read back. *)
Lemma parse_escape s rest :
  parse_string_body false (escape s ++ String dq rest) = Some (s, rest).
Proof.
  induction s as [|c s IH]; cbn [escape].
  - reflexivity.
  - rewrite string_app_assoc, parse_escape_char. now rewrite IH.
Qed.

(** *** Integers *)

Lemma span_digits_digits d rest :
  match rest with
  | EmptyString => True
  | String c _ => JS.is_digit c = false
  end ->
  span_digits (digits d ++ rest) = (digits d, rest).
Proof.
  intros Hrest. unfold digits.
  induction d as [|d IH|d IH|d IH|d IH|d IH|d IH|d IH|d IH|d IH|d IH];
    cbn [NilEmpty.string_of_uint append span_digits];
    try (change (JS.is_digit "0") with true; cbv iota; now rewrite IH);
    try (change (JS.is_digit "1") with true; cbv iota; now rewrite IH);
    try (change (JS.is_digit "2") with true; cbv iota; now rewrite IH);
    try (change (JS.is_digit "3") with true; cbv iota; now rewrite IH);
    try (change (JS.is_digit "4") with true; cbv iota; now rewrite IH);
    try (change (JS.is_digit "5") with true; cbv iota; now rewrite IH);
    try (change (JS.is_digit "6") with true; cbv iota; now rewrite IH);
    try (change (JS.is_digit "7") with true; cbv iota; now rewrite IH);
    try (change (JS.is_digit "8") with true; cbv iota; now rewrite IH);
    try (change (JS.is_digit "9") with true; cbv iota; now rewrite IH).
  destruct rest as [|c r]; [reflexivity|]. cbn [span_digits]. now rewrite Hrest.
Qed.

Lemma digits_value_acc d :
  forall p, Startup.digits_value (digits d) (Zpos p) =
            Some (Zpos (Pos.of_uint_acc d p)).
Proof.
  unfold digits.
  induction d as [|d IH|d IH|d IH|d IH|d IH|d IH|d IH|d IH|d IH|d IH];
    intros p; [reflexivity|..];
    cbn [NilEmpty.string_of_uint Startup.digits_value Pos.of_uint_acc];
    match goal with
    | |- context [JS.is_digit ?c] => change (JS.is_digit c) with true
    end; cbv iota;
    match goal with
    | |- Startup.digits_value _ ?acc = Some (Zpos (Pos.of_uint_acc _ ?q)) =>
        replace acc with (Zpos q) by (vm_compute Z.of_nat; lia)
    end; apply IH.
Qed.

Lemma digits_value_zero d :
  Startup.digits_value (digits d) 0 = Some (Z.of_N (Pos.of_uint d)).
Proof.
  unfold digits.
  induction d as [|d IH|d IH|d IH|d IH|d IH|d IH|d IH|d IH|d IH|d IH];
    [reflexivity | exact IH | ..];
    cbn [NilEmpty.string_of_uint Startup.digits_value Pos.of_uint];
    match goal with
    | |- context [JS.is_digit ?c] => change (JS.is_digit c) with true
    end; cbv iota;
    match goal with
    | |- Startup.digits_value _ ?acc = Some (Z.of_N (Npos (Pos.of_uint_acc _ ?q))) =>
        change acc with (Zpos q)
    end; apply (digits_value_acc d).
Qed.

(** The decimal digits of a positive number start with a digit that is
    not zero. *)
Lemma to_uint_head p :
  exists c l,
    Pos.to_uint p <> Decimal.Nil /\
    digits (Pos.to_uint p) = String c (digits l) /\
    In c nonzero_digits.
Proof.
  pose proof (DecimalPos.Unsigned.to_uint_nonnil p) as Hnil.
  assert (Hnorm : Decimal.unorm (Pos.to_uint p) = Pos.to_uint p).
  { rewrite <- (DecimalPos.Unsigned.to_of (Pos.to_uint p)).
    now rewrite DecimalPos.Unsigned.of_to. }
  assert (Hhead : forall d', Pos.to_uint p <> Decimal.D0 d').
  { intros d' E. rewrite E in Hnorm.
    pose proof (DecimalPos.Unsigned.to_uint_nonzero p) as Hz. rewrite E in Hz.
    rewrite DecimalFacts.unorm_D0 in Hnorm. unfold Decimal.unorm in Hnorm.
    destruct (Decimal.nzhead d') eqn:En.
    - injection Hnorm as Hd. apply Hz. now rewrite <- Hd.
    - now injection Hnorm as Hd; apply (DecimalFacts.nzhead_nonzero d' d');
        rewrite En, Hd.
    - discriminate.
    - discriminate.
    - discriminate.
    - discriminate.
    - discriminate.
    - discriminate.
    - discriminate.
    - discriminate.
    - discriminate. }
  unfold digits, nonzero_digits.
  destruct (Pos.to_uint p) as [|d|d|d|d|d|d|d|d|d|d];
    [congruence | exfalso; now apply (Hhead d) | ..];
    eexists; exists d; (split; [discriminate|]); (split; [reflexivity|]);
    simpl; tauto.
Qed.

Lemma string_of_pos p :
  NilZero.string_of_uint (Pos.to_uint p) = digits (Pos.to_uint p).
Proof.
  pose proof (DecimalPos.Unsigned.to_uint_nonnil p) as Hnil.
  unfold digits. now destruct (Pos.to_uint p).
Qed.

(** The shape of [n.toString()]. *)
Lemma toString_shape n :
  JS.toString n = "0" \/
  (exists c l, JS.toString n = String c (digits l) /\ In c nonzero_digits) \/
  (exists c l, JS.toString n = String "-" (String c (digits l)) /\
               In c nonzero_digits).
Proof.
  unfold JS.toString. destruct n as [|p|p]; cbn [Z.to_int NilZero.string_of_int].
  - now left.
  - right; left. rewrite string_of_pos.
    destruct (to_uint_head p) as (c & l & _ & E & Hc). now exists c, l.
  - right; right. rewrite string_of_pos.
    destruct (to_uint_head p) as (c & l & _ & E & Hc). exists c, l. now rewrite E.
Qed.

(** The parts of digits that start with a digit that is not zero: no
    fraction and no exponent. *)
Lemma number_parts_digits c l :
  In c nonzero_digits ->
  Startup.number_parts (String c (digits l)) =
    Some (false, String c (digits l), EmptyString, EmptyString) /\
  Startup.number_parts (String "-" (String c (digits l))) =
    Some (true, String c (digits l), EmptyString, EmptyString).
Proof.
  intros Hc.
  pose proof (span_digits_digits l EmptyString I) as Hspan.
  rewrite RegExpFacts.append_empty_r in Hspan.
  assert (Hint : parse_int_part (String c (digits l)) =
                 Some (String c (digits l), EmptyString)).
  { unfold nonzero_digits in Hc. simpl in Hc.
    repeat (destruct Hc as [<- | Hc];
            [cbn [parse_int_part]; rewrite Hspan; reflexivity|]).
    contradiction. }
  split.
  - unfold Startup.number_parts.
    replace (accept "-" (String c (digits l))) with (@None string).
    + now rewrite Hint.
    + unfold nonzero_digits in Hc. simpl in Hc.
      repeat (destruct Hc as [<- | Hc]; [reflexivity|]). contradiction.
  - unfold Startup.number_parts. cbn [accept]. rewrite Ascii.eqb_refl.
    now rewrite Hint.
Qed.

(** Reading [n.toString()] as an integer gives [n]. *)
Lemma integer_of_toString n : Startup.integer_of (JS.toString n) = Some n.
Proof.
  unfold JS.toString. destruct n as [|p|p]; cbn [Z.to_int NilZero.string_of_int].
  - reflexivity.
  - rewrite string_of_pos.
    destruct (to_uint_head p) as (c & l & _ & E & Hc).
    pose proof (digits_value_zero (Pos.to_uint p)) as Hv.
    rewrite DecimalPos.Unsigned.of_to in Hv. rewrite E in *.
    unfold Startup.integer_of.
    rewrite (proj1 (number_parts_digits c l Hc)).
    cbn [Startup.fraction_digits Startup.exponent_value String.length].
    rewrite RegExpFacts.append_empty_r, Hv.
    cbn [Z.of_nat Z.sub Z.opp Z.add Z.leb Z.compare Z.pow Z.pow_pos].
    cbv iota. f_equal. change (Z.of_N (N.pos p)) with (Z.pos p). lia.
  - rewrite string_of_pos.
    destruct (to_uint_head p) as (c & l & _ & E & Hc).
    pose proof (digits_value_zero (Pos.to_uint p)) as Hv.
    rewrite DecimalPos.Unsigned.of_to in Hv. rewrite E in *.
    unfold Startup.integer_of.
    rewrite (proj2 (number_parts_digits c l Hc)).
    cbn [Startup.fraction_digits Startup.exponent_value String.length].
    rewrite RegExpFacts.append_empty_r, Hv.
    cbn [Z.of_nat Z.sub Z.opp Z.add Z.leb Z.compare Z.pow Z.pow_pos].
    cbv iota. change (Z.of_N (N.pos p)) with (Z.pos p).
    replace (Z.pos p * 1) with (Z.pos p) by lia.
    change (Z.pos p =? 0) with false. reflexivity.
Qed.

Lemma delimited_not_digit rest :
  delimited rest = true ->
  match rest with
  | EmptyString => True
  | String c _ => JS.is_digit c = false
  end.
Proof.
  destruct rest as [|c r]; [trivial|]. simpl. intros H.
  apply orb_true_iff in H. destruct H as [H | H];
    [apply orb_true_iff in H; destruct H as [H | H]|];
    apply Ascii.eqb_eq in H; subst c; reflexivity.
Qed.

Lemma delimited_no_fraction rest :
  delimited rest = true ->
  parse_frac_part rest = Some (EmptyString, rest) /\
  parse_exp_part rest = Some (EmptyString, rest).
Proof.
  destruct rest as [|c r]; [split; reflexivity|]. simpl. intros H.
  apply orb_true_iff in H. destruct H as [H | H];
    [apply orb_true_iff in H; destruct H as [H | H]|];
    apply Ascii.eqb_eq in H; subst c; split; reflexivity.
Qed.

(** The integer part and what follows it, for digits that start with a
    digit that is not zero. *)
Lemma parse_number_digits c l rest :
  In c nonzero_digits -> delimited rest = true ->
  parse_number (String c (digits l ++ rest)) = Some (String c (digits l), rest) /\
  parse_number (String "-" (String c (digits l ++ rest))) =
    Some (String "-" (String c (digits l)), rest).
Proof.
  intros Hc Hrest.
  pose proof (span_digits_digits l rest (delimited_not_digit rest Hrest)) as Hspan.
  destruct (delimited_no_fraction rest Hrest) as [Hf He].
  assert (Hint : parse_int_part (String c (digits l ++ rest)) =
                 Some (String c (digits l), rest)).
  { unfold nonzero_digits in Hc. simpl in Hc.
    repeat (destruct Hc as [<- | Hc];
            [cbn [parse_int_part]; rewrite Hspan; reflexivity|]).
    contradiction. }
  split.
  - unfold parse_number.
    replace (accept "-" (String c (digits l ++ rest))) with (@None string).
    + rewrite Hint, Hf, He. cbn [append]. now rewrite !RegExpFacts.append_empty_r.
    + unfold nonzero_digits in Hc. simpl in Hc.
      repeat (destruct Hc as [<- | Hc]; [reflexivity|]). contradiction.
  - unfold parse_number. cbn [accept]. rewrite Ascii.eqb_refl.
    rewrite Hint, Hf, He. cbn [append]. now rewrite !RegExpFacts.append_empty_r.
Qed.

(** [n.toString()], followed by a delimiter, is read as one number. *)
Lemma parse_number_toString n rest :
  delimited rest = true ->
  parse_number (JS.toString n ++ rest) = Some (JS.toString n, rest).
Proof.
  intros Hrest.
  destruct (toString_shape n) as [-> | [(c & l & -> & Hc) | (c & l & -> & Hc)]].
  - destruct (delimited_no_fraction rest Hrest) as [Hf He].
    unfold parse_number. cbn [append accept]. 
    change (Ascii.eqb "-" "0") with false. cbv iota.
    cbn [parse_int_part]. change (Ascii.eqb "0" "0") with true. cbv iota.
    now rewrite Hf, He.
  - cbn [append]. now apply parse_number_digits.
  - cbn [append]. now apply parse_number_digits.
Qed.

(** *** Values *)

(** Induction on a value, with the elements and the members. *)
Lemma value_ind (P : JSON.t -> Prop) :
  P JNull ->
  (forall b, P (JBool b)) ->
  (forall lexeme, P (JNumber lexeme)) ->
  (forall s, P (JString s)) ->
  (forall elements, Forall P elements -> P (JArray elements)) ->
  (forall members, Forall (fun kv => P (snd kv)) members -> P (JObject members)) ->
  forall v, P v.
Proof.
  intros Hnull Hbool Hnum Hstr Harr Hobj.
  fix IH 1. intros [| b | lexeme | s | elements | members].
  - exact Hnull.
  - apply Hbool.
  - apply Hnum.
  - apply Hstr.
  - apply Harr. induction elements as [|v l IHl]; constructor; [apply IH | exact IHl].
  - apply Hobj. induction members as [|[k v] l IHl]; constructor;
      [apply IH | exact IHl].
Qed.

Lemma is_integer_toString lexeme :
  is_integer lexeme = true -> exists n, lexeme = JS.toString n.
Proof.
  unfold is_integer. destruct (Startup.integer_of lexeme) as [n|]; [|discriminate].
  intros H. apply String.eqb_eq in H. now exists n.
Qed.

Lemma stringify_head v :
  integral v = true ->
  exists c r, stringify v = String c r /\ opens_value c.
Proof.
  unfold opens_value.
  destruct v as [| [|] | lexeme | s | elements | members]; cbn [integral stringify];
    intros H; try (eexists; eexists; split; [reflexivity | repeat split; reflexivity]).
  destruct (is_integer_toString lexeme H) as [n ->].
  destruct (toString_shape n) as [-> | [(c & l & -> & Hc) | (c & l & -> & Hc)]].
  - eexists; eexists; split; [reflexivity | repeat split; reflexivity].
  - exists c, (digits l). split; [reflexivity|].
    unfold nonzero_digits in Hc. simpl in Hc.
    repeat (destruct Hc as [<- | Hc]; [repeat split; reflexivity|]). contradiction.
  - eexists; eexists; split; [reflexivity | repeat split; reflexivity].
Qed.

Lemma skip_ws_opens c r : is_ws c = false -> skip_ws (String c r) = String c r.
Proof. intros H. cbn [skip_ws]. now rewrite H. Qed.

(** The unfoldings of the parsers on a first character. *)
Lemma parse_value_array fuel r :
  parse_value false (S fuel) (String "[" r) =
  match accept "]" (skip_ws r) with
  | Some r' => Some (JArray [], r')
  | None =>
      match parse_elements false fuel r with
      | Some (vs, r') => Some (JArray vs, r')
      | None => None
      end
  end.
Proof. reflexivity. Qed.

Lemma parse_value_object fuel r :
  parse_value false (S fuel) (String "{" r) =
  match accept "}" (skip_ws r) with
  | Some r' => Some (JObject [], r')
  | None =>
      match parse_members false fuel r with
      | Some (ms, r') => Some (JObject ms, r')
      | None => None
      end
  end.
Proof. reflexivity. Qed.

Lemma parse_value_string fuel r :
  parse_value false (S fuel) (String dq r) =
  match parse_string_body false r with
  | Some (str, r') => Some (JString str, r')
  | None => None
  end.
Proof. reflexivity. Qed.

Lemma parse_value_number fuel c r :
  In c ("0" :: "-" :: nonzero_digits)%char ->
  parse_value false (S fuel) (String c r) =
  match parse_number (String c r) with
  | Some (lexeme, r') => Some (JNumber lexeme, r')
  | None => None
  end.
Proof.
  unfold nonzero_digits. simpl.
  intros Hc. repeat (destruct Hc as [<- | Hc]; [reflexivity|]). contradiction.
Qed.

Lemma parse_value_toString fuel n rest :
  delimited rest = true ->
  parse_value false (S fuel) (JS.toString n ++ rest) =
    Some (JNumber (JS.toString n), rest).
Proof.
  intros Hrest. pose proof (parse_number_toString n rest Hrest) as Hnum.
  destruct (toString_shape n) as [E | [(c & l & E & Hc) | (c & l & E & Hc)]];
    rewrite E in *; cbn [append] in *;
    rewrite parse_value_number, Hnum; try reflexivity.
  - simpl. tauto.
  - right. right. exact Hc.
  - simpl. tauto.
Qed.

Lemma quote_app k mid :
  (quote k ++ mid)%string = String dq (escape k ++ String dq mid).
Proof. unfold quote. cbn [append]. now rewrite string_app_assoc. Qed.

Lemma parse_elements_join l :
  l <> [] -> Forall readable l ->
  exists bound, forall fuel rest,
    (bound <= fuel)%nat ->
    parse_elements false fuel (join (map stringify l) ++ String "]" rest) = Some (l, rest).
Proof.
  induction l as [|v l IH]; [congruence|]. intros _ Hall.
  inversion Hall as [|? ? [b0 Hv] Hl]; subst.
  destruct l as [|w l].
  - exists (S b0). intros [|fuel] rest Hf; [lia|].
    cbn [map join parse_elements].
    rewrite (Hv fuel (String "]" rest)) by (lia || reflexivity).
    reflexivity.
  - destruct (IH ltac:(discriminate) Hl) as [b1 Hrec].
    exists (S (Nat.max b0 b1)). intros [|fuel] rest Hf; [lia|].
    change (join (map stringify (v :: w :: l)))
      with (stringify v ++ "," ++ join (map stringify (w :: l)))%string.
    rewrite string_app_assoc. cbn [append parse_elements].
    rewrite (Hv fuel) by (lia || reflexivity).
    cbn [skip_ws]. change (is_ws ",") with false. cbv iota. cbn [accept].
    change (Ascii.eqb "," ",") with true. cbv iota.
    rewrite Hrec by lia. reflexivity.
Qed.

Lemma parse_members_join ms :
  ms <> [] -> Forall (fun kv => readable (snd kv)) ms ->
  exists bound, forall fuel rest,
    (bound <= fuel)%nat ->
    parse_members false fuel (join (map member_text ms) ++ String "}" rest) = Some (ms, rest).
Proof.
  induction ms as [|[k v] ms IH]; [congruence|]. intros _ Hall.
  inversion Hall as [|? ? [b0 Hv] Hl]; subst. cbn [snd] in Hv.
  destruct ms as [|kw ms].
  - exists (S b0). intros [|fuel] rest Hf; [lia|].
    cbn [map join]. unfold member_text. cbn [fst snd].
    rewrite string_app_assoc, quote_app.
    cbn [parse_members skip_ws]. change (is_ws dq) with false. cbv iota.
    cbn [accept]. change (Ascii.eqb (ascii_of_nat 34) dq) with true. cbv iota.
    rewrite parse_escape. cbn [append skip_ws].
    change (is_ws ":") with false. cbv iota. cbn [accept].
    change (Ascii.eqb ":" ":") with true. cbv iota.
    rewrite (Hv fuel (String "}" rest)) by (lia || reflexivity).
    reflexivity.
  - destruct (IH ltac:(discriminate) Hl) as [b1 Hrec].
    exists (S (Nat.max b0 b1)). intros [|fuel] rest Hf; [lia|].
    change (join (map member_text ((k, v) :: kw :: ms)))
      with (member_text (k, v) ++ "," ++ join (map member_text (kw :: ms)))%string.
    unfold member_text at 1. cbn [fst snd].
    rewrite !string_app_assoc, quote_app.
    cbn [parse_members skip_ws]. change (is_ws dq) with false. cbv iota.
    cbn [accept]. change (Ascii.eqb (ascii_of_nat 34) dq) with true. cbv iota.
    rewrite parse_escape. cbn [append skip_ws].
    change (is_ws ":") with false. cbv iota. cbn [accept].
    change (Ascii.eqb ":" ":") with true. cbv iota.
    rewrite (Hv fuel) by (lia || reflexivity).
    cbn [skip_ws]. change (is_ws ",") with false. cbv iota. cbn [accept].
    change (Ascii.eqb "," ",") with true. cbv iota.
    rewrite Hrec by lia. reflexivity.
Qed.

Lemma join_head (f : string) (fs : list string) c r :
  f = String c r -> exists r', join (f :: fs) = String c r'.
Proof.
  intros ->. destruct fs as [|g fs]; cbn [join append]; eexists; reflexivity.
Qed.

Lemma stringify_readable v : integral v = true -> readable v.
Proof.
  induction v as [| b | lexeme | s | elements IH | members IH] using value_ind;
    intros Hint.
  - exists 1%nat. intros [|fuel] rest Hf Hrest; [lia | reflexivity].
  - exists 1%nat. intros [|fuel] rest Hf Hrest; [lia|]. now destruct b.
  - destruct (is_integer_toString lexeme Hint) as [n ->].
    exists 1%nat. intros [|fuel] rest Hf Hrest; [lia|].
    now apply parse_value_toString.
  - exists 1%nat. intros [|fuel] rest Hf Hrest; [lia|].
    cbn [stringify]. rewrite quote_app, parse_value_string.
    now rewrite parse_escape.
  - cbn [integral] in Hint. rewrite forallb_forall in Hint.
    assert (Hall : Forall readable elements).
    { rewrite Forall_forall in *. intros v Hv. apply (IH v Hv), (Hint v Hv). }
    destruct elements as [|v l].
    + exists 1%nat. intros [|fuel] rest Hf Hrest; [lia | reflexivity].
    + destruct (parse_elements_join (v :: l) ltac:(discriminate) Hall) as [b Hb].
      destruct (stringify_head v (Hint v (or_introl eq_refl)))
        as (c & r & Ec & Hws & Hclose & _).
      destruct (join_head (stringify v) (map stringify l) c r Ec) as [r' Ej].
      exists (S b). intros [|fuel] rest Hf Hrest; [lia|].
      cbn [stringify append]. rewrite string_app_assoc. cbn [append].
      rewrite parse_value_array.
      pose proof (Hb fuel rest ltac:(lia)) as Hparse.
      change (map stringify (v :: l)) with (stringify v :: map stringify l) in *.
      rewrite Ej in *. cbn [append] in *. rewrite (skip_ws_opens c _ Hws).
      cbn [accept]. rewrite Hclose, Hparse. reflexivity.
  - cbn [integral] in Hint. rewrite forallb_forall in Hint.
    assert (Hall : Forall (fun kv => readable (snd kv)) members).
    { rewrite Forall_forall in *. intros kv Hkv. apply (IH kv Hkv), (Hint kv Hkv). }
    destruct members as [|[k v] l].
    + exists 1%nat. intros [|fuel] rest Hf Hrest; [lia | reflexivity].
    + destruct (parse_members_join ((k, v) :: l) ltac:(discriminate) Hall) as [b Hb].
      assert (Ej : exists r', join (map member_text ((k, v) :: l)) = String dq r').
      { apply (join_head _ _ dq (escape k ++ String dq (":" ++ stringify v))).
        unfold member_text. cbn [fst snd]. apply quote_app. }
      destruct Ej as [r' Ej].
      exists (S b). intros [|fuel] rest Hf Hrest; [lia|].
      change (stringify (JObject ((k, v) :: l)))
        with ("{" ++ join (map member_text ((k, v) :: l)) ++ "}")%string.
      pose proof (Hb fuel rest ltac:(lia)) as Hparse.
      rewrite Ej in *. cbn [append] in *.
      rewrite string_app_assoc. cbn [append]. rewrite parse_value_object.
      rewrite (skip_ws_opens dq _ eq_refl). cbn [accept].
      change (Ascii.eqb "}" dq) with false. cbv iota.
      rewrite Hparse. reflexivity.
Qed.

(** [JSON.parse(JSON.stringify(v))] is [v], for a value whose numbers are
    integers. *)
Lemma parse_stringify v :
  integral v = true -> JSON.parse (stringify v) = JSON.Value v.
Proof.
  intros Hint. destruct (stringify_readable v Hint) as [bound Hread].
  unfold JSON.parse, parse_with, fuel_for.
  set (text := stringify v).
  pose proof (Hread (Nat.max bound (2 * String.length text + 2)) EmptyString
                ltac:(lia) eq_refl) as H.
  rewrite RegExpFacts.append_empty_r in H. fold text in H.
  rewrite (proj1 (parse_fuel_stable false (2 * String.length text + 2)) text
             (Nat.max bound (2 * String.length text + 2))) by lia.
  now rewrite H.
Qed.

(** *** Sessions *)

Lemma all_some_map {A B} (f : A -> option B) (g : B -> A) (l : list B) :
  (forall x, f (g x) = Some x) -> Startup.all_some f (map g l) = Some l.
Proof.
  intros H. induction l as [|x l IH]; simpl; [reflexivity|].
  now rewrite H, IH.
Qed.

Lemma forallb_map_true {A B} (p : A -> bool) (g : B -> A) (l : list B) :
  (forall x, p (g x) = true) -> forallb p (map g l) = true.
Proof.
  intros H. induction l as [|x l IH]; simpl; [reflexivity|].
  now rewrite H, IH.
Qed.

Lemma is_integer_number n : is_integer (JS.toString n) = true.
Proof.
  unfold is_integer. rewrite integer_of_toString. apply String.eqb_refl.
Qed.

Lemma attachment_round_trip a :
  Startup.attachment_of (attachment_json a) = Some a.
Proof. now destruct a. Qed.

Lemma message_round_trip m : Startup.message_of (message_json m) = Some m.
Proof.
  destruct m as [i r c a th ts].
  unfold message_json, number. cbn [Message.id Message.role Message.content
    Message.attachments Message.thinking Message.timestamp].
  pose proof (integer_of_toString ts) as Hts.
  generalize dependent (JS.toString ts). intros lexeme Hts.
  assert (Hatt : forall l,
             Startup.attachments_of (Some (JArray (map attachment_json l)))
             = Some (Some l)).
  { intros l. cbn [Startup.attachments_of].
    now rewrite (all_some_map _ _ l attachment_round_trip). }
  destruct a as [l|], th as [|b|s], r;
    cbn [option_map optional thinking_json app role_json];
    unfold Startup.message_of; cbn [get String.eqb Ascii.eqb Bool.eqb fst snd];
    cbn [Startup.as_string Startup.as_integer Startup.role_of
         Startup.thinking_of String.eqb Ascii.eqb Bool.eqb];
    try rewrite Hatt; cbn [Startup.attachments_of]; rewrite Hts; reflexivity.
Qed.

Lemma session_round_trip c : Startup.session_of (session_json c) = Some c.
Proof.
  destruct c as [i t msgs created modified].
  unfold session_json, number. cbn [ChatSession.id ChatSession.title
    ChatSession.messages ChatSession.createdAt ChatSession.lastModified].
  pose proof (integer_of_toString created) as Hc.
  pose proof (integer_of_toString modified) as Hm.
  generalize dependent (JS.toString created). intros lc Hc.
  generalize dependent (JS.toString modified). intros lm Hm.
  unfold Startup.session_of. cbn [get String.eqb Ascii.eqb Bool.eqb fst snd].
  cbn [Startup.as_string Startup.as_integer]. rewrite Hc, Hm.
  now rewrite (all_some_map _ _ msgs message_round_trip).
Qed.

(** Read at the types of [types.ts], the value written for a list of
    sessions is the list. *)
Lemma sessions_round_trip cs : Startup.sessions_of (sessions_json cs) = Some cs.
Proof.
  unfold sessions_json. cbn [Startup.sessions_of].
  apply all_some_map, session_round_trip.
Qed.

Lemma integral_message m : integral (message_json m) = true.
Proof.
  destruct m as [i r c a th ts]. unfold message_json, number.
  cbn [Message.id Message.role Message.content
       Message.attachments Message.thinking Message.timestamp].
  pose proof (is_integer_number ts) as Hts.
  assert (Hatt : forall l, forallb integral (map attachment_json l) = true)
    by (intros l; now apply forallb_map_true).
  destruct a as [l|], th as [|b|s];
    cbn [option_map optional thinking_json app integral forallb snd role_json];
    try rewrite Hatt; rewrite Hts; reflexivity.
Qed.

Lemma integral_sessions cs : integral (sessions_json cs) = true.
Proof.
  unfold sessions_json. cbn [integral]. apply forallb_map_true. intros c.
  unfold session_json, number. cbn [integral forallb snd].
  rewrite !is_integer_number.
  now rewrite (forallb_map_true integral message_json _ integral_message).
Qed.

End PersistenceFacts.

(* ===================================================================== *)
(** ** Properties of the saved store *)
(* ===================================================================== *)

Module PersistenceProperties.
Import App Persistence PersistenceFacts StoreFacts.

(** The start on the text saved for [st]: parse, read at the types, take
    the first id. *)
Ltac start_on_saved st :=
  unfold saved_chats;
  pose proof (parse_stringify (sessions_json (chats st))
                (integral_sessions (chats st))) as Hparse;
  pose proof (sessions_round_trip (chats st)) as Htyped;
  unfold Startup.start, Startup.chats_initializer,
    Startup.currentChatId_initializer, Startup.parsed_item;
  assert (Htruthy : JS.truthy_string (stringify (sessions_json (chats st))) = true)
    by reflexivity;
  rewrite Htruthy, Hparse;
  rewrite (ServiceClaims.first_id_of_sessions _ _ Htyped), Htyped;
  destruct (chats st); reflexivity.

(** X1. What the saving effect writes for a store is read back at the next
    start as the same sessions, with the same messages and attachments, in
    the same order; the first session is made active. *)
Theorem saved_chats_are_read_back :
  forall st : State,
    Startup.start (Some (saved_chats st)) =
    Startup.Started
      (initial (chats st)
               (match chats st with
                | c :: _ => Some (ChatSession.id c)
                | [] => None
                end)).
Proof.
  intros st. start_on_saved st.
Qed.

(** X2. The active session is not saved.  From any state the controller
    reaches, a restart on what was saved keeps the sessions and makes active
    a most recently modified one (none when there is no session), whichever
    session was active before. *)
Theorem restart_activates_most_recent :
  forall (cs : list ChatSession.t) (cur : option string) (events : list Event),
    let st := run events (initial cs cur) in
    exists active,
      Startup.start (Some (saved_chats st)) =
        Startup.Started (initial (chats st) active) /\
      match active with
      | None => chats st = []
      | Some a =>
          exists s, In s (chats st) /\ ChatSession.id s = a /\
            forall t, In t (chats st) ->
              ChatSession.lastModified t <= ChatSession.lastModified s
      end.
Proof.
  intros cs cur events st.
  exists (match chats st with
          | c :: _ => Some (ChatSession.id c)
          | [] => None
          end).
  split; [start_on_saved st|].
  assert (Hsorted : recent_first (chats st)).
  { pose proof (sort_desc_sorted (chats st)) as H.
    change (sort_desc (chats st)) with (chats (render st)) in H.
    unfold st in H. rewrite run_rendered in H. exact H. }
  destruct (chats st) as [|s l]; [reflexivity|].
  exists s. split; [now left|]. split; [reflexivity|].
  now apply head_most_recent.
Qed.

End PersistenceProperties.

(* ===================================================================== *)
(** ** Properties of the speech pipeline *)
(* ===================================================================== *)

Module SpeechProperties.
Import Speech.

Lemma char_codes_bytes s : Forall is_byte (char_codes s).
Proof.
  unfold char_codes. apply Forall_forall. intros b Hb.
  apply in_map_iff in Hb. destruct Hb as [c [<- _]].
  pose proof (nat_ascii_bounded c). unfold is_byte. lia.
Qed.

Lemma char_codes_length s : List.length (char_codes s) = String.length s.
Proof.
  unfold char_codes. rewrite length_map.
  induction s as [|c s IH]; simpl; [reflexivity | now rewrite IH].
Qed.

(** X3. [speakText] never throws, whatever the remote call and [atob] do:
    a failed call, a reply without audio data, an empty payload and a
    payload that [atob] rejects all give [null].  When it gives bytes, they
    are the character codes of what [atob] made of the payload of the first
    part: as many bytes as characters, each between 0 and 255. *)
Theorem speakText_never_throws :
  forall (atob : string -> JS.Result string)
         (remote : string -> JS.Result Response) (text : string),
    (exists result, speakText atob remote text = JS.Ok result) /\
    (forall e, remote (prompt text) = JS.Throw e ->
               speakText atob remote text = JS.Ok None) /\
    (forall response,
       remote (prompt text) = JS.Ok response ->
       audioData response = None \/ audioData response = Some EmptyString ->
       speakText atob remote text = JS.Ok None) /\
    (forall response audio e,
       remote (prompt text) = JS.Ok response ->
       audioData response = Some audio -> atob audio = JS.Throw e ->
       speakText atob remote text = JS.Ok None) /\
    (forall bytes,
       speakText atob remote text = JS.Ok (Some bytes) ->
       exists response audio binary,
         remote (prompt text) = JS.Ok response /\
         audioData response = Some audio /\
         atob audio = JS.Ok binary /\
         bytes = char_codes binary /\
         List.length bytes = String.length binary /\
         Forall is_byte bytes).
Proof.
  intros atob remote text. unfold speakText, decodeBase64.
  repeat split.
  - destruct (remote (prompt text)) as [response|e]; cbn; [|eexists; reflexivity].
    destruct (audioData response) as [audio|]; [|eexists; reflexivity].
    destruct (JS.truthy_string audio); [|eexists; reflexivity].
    destruct (atob audio); cbn; eexists; reflexivity.
  - intros e ->. reflexivity.
  - intros response -> H. cbn [JS.bind]. destruct H as [-> | ->]; reflexivity.
  - intros response audio e -> Haudio Hatob. cbn [JS.bind]. rewrite Haudio.
    destruct (JS.truthy_string audio); [|reflexivity]. now rewrite Hatob.
  - intros bytes H.
    destruct (remote (prompt text)) as [response|e]; cbn in H; [|discriminate].
    destruct (audioData response) as [audio|] eqn:Haudio; [|discriminate].
    destruct (JS.truthy_string audio); [|discriminate].
    destruct (atob audio) as [binary|e] eqn:Hatob; cbn in H; [|discriminate].
    injection H as <-. exists response, audio, binary.
    split; [reflexivity|]. split; [exact Haudio|]. split; [exact Hatob|].
    split; [reflexivity|]. split; [apply char_codes_length | apply char_codes_bytes].
Qed.

(** With an [atob] that rejects everything the result is [null]; with one
    that returns its argument the bytes are the character codes. *)
Lemma speakText_never_throws_witness :
  speakText (fun _ => JS.Throw JS.TypeError)
            (fun _ => JS.Ok (audio_reply "AQI=")) "x" = JS.Ok None /\
  exists binary,
    speakText (fun s => JS.Ok s) (fun _ => JS.Ok (audio_reply "AB")) "x"
    = JS.Ok (Some (char_codes binary)) /\ String.length binary = 2%nat.
Proof.
  split.
  - apply (proj1 (proj2 (proj2 (proj2
             (speakText_never_throws (fun _ => JS.Throw JS.TypeError)
                (fun _ => JS.Ok (audio_reply "AQI=")) "x"))))
             (audio_reply "AQI=") "AQI=" JS.TypeError);
      reflexivity.
  - destruct (proj2 (proj2 (proj2 (proj2
               (speakText_never_throws (fun s => JS.Ok s)
                  (fun _ => JS.Ok (audio_reply "AB")) "x"))))
               [65; 66] eq_refl)
      as (response & audio & binary & Hr & Ha & Hb & Hbytes & Hlen & _).
    exists binary. split; [now rewrite <- Hbytes | now rewrite <- Hlen].
Defined.

(** Lists two elements at a time. *)
Lemma pairs_ind {A} (P : list A -> Prop) :
  P [] -> (forall a, P [a]) -> (forall a b l, P l -> P (a :: b :: l)) ->
  forall l, P l.
Proof.
  intros Hnil Hone Hstep.
  fix IH 1. intros [|a [|b l]]; [exact Hnil | apply Hone | apply Hstep, IH].
Qed.

Lemma int16_range lo hi :
  is_byte lo -> is_byte hi -> -32768 <= int16 lo hi < 32768.
Proof.
  unfold is_byte, int16. intros Hlo Hhi.
  destruct (Z.leb_spec 32768 (lo + 256 * hi)); lia.
Qed.

(** X4. The samples played for the bytes of a clip: an even number of
    bytes gives half as many samples, each at least -1 and below 1; an odd
    number of bytes makes [new Int16Array] throw a [RangeError]. *)
Theorem samples_are_normalized :
  forall bytes : list Z,
    Forall is_byte bytes ->
    (Nat.even (List.length bytes) = true ->
       exists l, samples bytes = inr l /\
                 (2 * List.length l = List.length bytes)%nat /\
                 forall s, In s l ->
                   QArith_base.Qle (QArith_base.inject_Z (-1)) s /\
                   QArith_base.Qlt s (QArith_base.inject_Z 1)) /\
    (Nat.even (List.length bytes) = false -> samples bytes = inl RangeError).
Proof.
  unfold samples.
  induction bytes as [|a|lo hi l IH] using pairs_ind; intros Hbytes.
  - split; [|discriminate]. intros _. exists [].
    split; [reflexivity|]. split; [reflexivity|]. intros q [].
  - split; [discriminate | reflexivity].
  - inversion Hbytes as [|? ? Hlo Hrest]; subst.
    inversion Hrest as [|? ? Hhi Hl]; subst.
    destruct (IH Hl) as [Heven Hodd].
    cbn [Int16Array List.length Nat.even]. split.
    + intros He. destruct (Heven He) as (samples_l & Hs & Hlen & Hrange).
      destruct (Int16Array l) as [e|vs]; [discriminate|].
      injection Hs as <-.
      exists (sample (int16 lo hi) :: map sample vs).
      split; [reflexivity|]. split; [simpl in *; lia|].
      intros q [<- | Hq]; [|now apply Hrange].
      pose proof (int16_range lo hi Hlo Hhi) as Hr.
      unfold sample, QArith_base.Qle, QArith_base.Qlt, QArith_base.inject_Z.
      simpl. lia.
    + intros Ho. specialize (Hodd Ho).
      destruct (Int16Array l) as [e|vs]; [|discriminate].
      now injection Hodd as ->.
Qed.

(** The two bytes FF 7F are the largest sample, 00 80 the smallest. *)
Lemma samples_are_normalized_witness :
  samples [255; 127; 0; 128] =
    inr [QArith_base.Qmake 32767 32768; QArith_base.Qmake (-32768) 32768] /\
  samples [1; 2; 3] = inl RangeError.
Proof.
  assert (H4 : Forall is_byte [255; 127; 0; 128])
    by (repeat constructor; unfold is_byte; lia).
  assert (H3 : Forall is_byte [1; 2; 3])
    by (repeat constructor; unfold is_byte; lia).
  split.
  - destruct (proj1 (samples_are_normalized [255; 127; 0; 128] H4) eq_refl)
      as (l & Hs & _). rewrite Hs. f_equal.
    vm_compute in Hs. now injection Hs as <-.
  - apply (proj2 (samples_are_normalized [1; 2; 3] H3)). reflexivity.
Defined.

End SpeechProperties.

(* ===================================================================== *)
(** ** Properties of the orchestrator *)
(* ===================================================================== *)

Module OrchestratorProperties.
Import GeminiService RegExpFacts.

Lemma find_first {A} (f : A -> bool) (before : list A) (x : A) (after : list A) :
  (forall y, In y before -> f y = false) -> f x = true ->
  find f (before ++ x :: after) = Some x.
Proof.
  intros Hb Hx. induction before as [|y l IH]; simpl.
  - now rewrite Hx.
  - rewrite (Hb y (or_introl eq_refl)). apply IH. intros z Hz. apply Hb. now right.
Qed.

Lemma textPart_truthy ps : textPart ps = EmptyString \/ JS.truthy_string (textPart ps) = true.
Proof.
  unfold textPart. destruct (find has_text ps) as [p|] eqn:E; [|now left].
  apply find_some in E. destruct E as [_ E]. unfold has_text in E.
  destruct (text p) as [s|]; [now right | discriminate].
Qed.

(** X5. The answer that [generateMathResponse] resolves to is never the
    empty string.  It is the text of the first part that has text, whatever
    that part's [thought] flag and whatever the [text] field of the reply
    says. *)
Theorem answer_is_first_text_part :
  forall (remote : list Content -> JS.Result Response)
         (history : list Message.t) (message : string)
         (attachments : option (list Attachment.t)) (reply : Reply),
    generateMathResponse remote history message attachments = JS.Ok reply ->
    reply_text reply <> EmptyString /\
    exists response,
      remote (build_contents history message attachments) = JS.Ok response /\
      forall before part after t,
        first_parts response = before ++ part :: after ->
        (forall q, In q before -> has_text q = false) ->
        text part = Some t -> t <> EmptyString ->
        reply_text reply = t.
Proof.
  intros remote history message attachments reply H.
  unfold generateMathResponse in H.
  destruct (remote (build_contents history message attachments))
    as [response|e]; cbn in H; [|discriminate].
  injection H as <-. split.
  - unfold decompose. cbn [reply_text]. unfold JS.or_string.
    destruct (textPart_truthy (first_parts response)) as [-> | Ht].
    + cbn [JS.truthy_string].
      destruct (response_text response) as [[|c s]|]; discriminate.
    + rewrite Ht. intros E. rewrite E in Ht. discriminate.
  - exists response. split; [reflexivity|].
    intros before part after t Hparts Hbefore Htext Hne.
    unfold decompose. cbn [reply_text]. unfold textPart.
    assert (Hpart : has_text part = true).
    { unfold has_text. rewrite Htext. destruct t; [congruence | reflexivity]. }
    rewrite Hparts, (find_first has_text before part after Hbefore Hpart), Htext.
    unfold JS.or_string. destruct t; [congruence | reflexivity].
Qed.

(** A reply whose first part is a thought with text and whose second part
    is the answer: the thought's text is what comes back as the answer. *)
Lemma answer_is_first_text_part_witness :
  generateMathResponse
    (fun _ => JS.Ok (mkResponse
       (Some [mkCandidate (Some (mkReplyContent (Some
          [mkPart (Some "Let me think.") (JS.boolean true);
           mkPart (Some "x = 2") JS.undefined])))])
       (Some "x = 2")))
    [] "solve" None
  = JS.Ok (mkReply "Let me think." (JS.boolean true)) /\
  "Let me think." <> EmptyString.
Proof.
  split; [reflexivity|].
  apply (proj1 (answer_is_first_text_part
    (fun _ => JS.Ok (mkResponse
       (Some [mkCandidate (Some (mkReplyContent (Some
          [mkPart (Some "Let me think.") (JS.boolean true);
           mkPart (Some "x = 2") JS.undefined])))])
       (Some "x = 2")))
    [] "solve" None (mkReply "Let me think." (JS.boolean true)) eq_refl)).
Defined.

(** [split] at the first separator. *)
Lemma split_at_first c a b :
  lacks c a = true ->
  JS.split c (a ++ String c b) = a :: JS.split c b.
Proof.
  induction a as [|d a IH]; cbn [append JS.split lacks]; intros H.
  - now rewrite Ascii.eqb_refl.
  - apply andb_true_iff in H. destruct H as [Hd Ha].
    apply negb_true_iff in Hd. rewrite Hd, (IH Ha). reflexivity.
Qed.

Lemma split_head c s : exists x xs, JS.split c s = x :: xs.
Proof.
  induction s as [|d s (x & xs & IH)]; cbn [JS.split].
  - eexists; eexists; reflexivity.
  - destruct (Ascii.eqb c d); [eexists; eexists; reflexivity|].
    rewrite IH. eexists; eexists; reflexivity.
Qed.

(** X6. What is sent for the data of an attachment is the piece between
    the first comma and the second one (or the end): the payload of a data
    URL.  Data without a comma is sent as it is, and so is data whose piece
    after the first comma is empty. *)
Theorem strip_data_prefix_cases :
  forall prefix payload : string,
    lacks "," prefix = true -> lacks "," payload = true ->
    strip_data_prefix prefix = prefix /\
    (payload <> EmptyString ->
       strip_data_prefix (prefix ++ "," ++ payload) = payload /\
       forall rest,
         strip_data_prefix (prefix ++ "," ++ payload ++ "," ++ rest) = payload) /\
    strip_data_prefix (prefix ++ ",") = (prefix ++ ",")%string /\
    forall rest,
      strip_data_prefix (prefix ++ ",," ++ rest) = (prefix ++ ",," ++ rest)%string.
Proof.
  intros prefix payload Hp Hq. unfold strip_data_prefix.
  split; [now rewrite (split_lacking _ _ Hp)|].
  split; [|split].
  - intros Hne. split.
    + cbn [append]. rewrite (split_at_first _ _ _ Hp), (split_lacking _ _ Hq).
      unfold JS.or_string. destruct payload; [congruence | reflexivity].
    + intros rest. cbn [append].
      rewrite (split_at_first _ _ _ Hp), (split_at_first _ _ _ Hq).
      unfold JS.or_string. destruct payload; [congruence | reflexivity].
  - rewrite (split_at_first _ _ _ Hp). reflexivity.
  - intros rest. cbn [append].
    rewrite (split_at_first _ prefix (String "," rest) Hp). cbn [JS.split].
    rewrite Ascii.eqb_refl. reflexivity.
Qed.

Lemma strip_data_prefix_cases_witness :
  strip_data_prefix "data:image/png;base64,iVBORw0KGgo=" = "iVBORw0KGgo=" /\
  strip_data_prefix "iVBORw0KGgo=" = "iVBORw0KGgo=" /\
  strip_data_prefix "data:text/plain;base64," = "data:text/plain;base64,".
Proof.
  destruct (strip_data_prefix_cases "data:image/png;base64" "iVBORw0KGgo="
              eq_refl eq_refl) as (_ & H & _).
  destruct (strip_data_prefix_cases "iVBORw0KGgo=" EmptyString eq_refl eq_refl)
    as (H1 & _).
  destruct (strip_data_prefix_cases "data:text/plain;base64" EmptyString
              eq_refl eq_refl)
    as (_ & _ & H2 & _).
  split; [apply H; discriminate|]. split; [exact H1 | exact H2].
Defined.

(** The parts of a request, turn after turn. *)
Lemma build_contents_parts history message attachments :
  flat_map c_parts (build_contents history message (Some attachments)) =
    map (fun m => TextPart (Message.content m)) history
    ++ TextPart message
       :: map (fun a => InlineData (Attachment.type a)
                                   (strip_data_prefix (Attachment.data a)))
              attachments.
Proof.
  unfold build_contents.
  rewrite flat_map_app. cbn [flat_map c_parts]. rewrite app_nil_r. f_equal.
  induction history as [|m h IH]; [reflexivity|].
  cbn [map flat_map c_parts app]. now rewrite IH.
Qed.

Lemma build_contents_length history message attachments :
  List.length (build_contents history message attachments) =
  S (List.length history).
Proof.
  unfold build_contents. rewrite length_app, length_map. cbn. lia.
Qed.

End OrchestratorProperties.

(* ===================================================================== *)
(** ** Properties of the controller beyond the claims *)
(* ===================================================================== *)

Module ControllerProperties.
Import App StoreFacts FlightFacts History.

Lemma remove_id_idem id l : remove_id id (remove_id id l) = remove_id id l.
Proof.
  unfold remove_id. induction l as [|c l IH]; [reflexivity|].
  cbn [filter]. destruct (negb (has_id id c)) eqn:E; [|exact IH].
  cbn [filter]. now rewrite E, IH.
Qed.

Lemma head_of_remove_id id l c rest :
  remove_id id l = c :: rest -> ChatSession.id c <> id.
Proof.
  intros H. assert (Hin : In c (remove_id id l)) by (rewrite H; now left).
  unfold remove_id in Hin. apply filter_In in Hin. destruct Hin as [_ Hc].
  unfold has_id in Hc. apply negb_true_iff in Hc. now apply String.eqb_neq.
Qed.

(** X8. Deleting a session removes every session with that id and keeps
    the others, in order.  The deleted id is never the active one
    afterwards, the active id is untouched when it was another one, and
    deleting the same id again changes nothing. *)
Theorem deleteChat_forgets_id :
  forall (id : string) (st : State),
    let st' := deleteChat id st in
    chats st' = filter (fun c => negb (String.eqb (ChatSession.id c) id)) (chats st) /\
    (forall c, In c (chats st') <-> In c (chats st) /\ ChatSession.id c <> id) /\
    currentChatId st' <> Some id /\
    (currentChatId st <> Some id -> currentChatId st' = currentChatId st) /\
    deleteChat id st' = st'.
Proof.
  intros id st st'.
  assert (Hchats : chats st' = remove_id id (chats st)).
  { unfold st', deleteChat. now destruct (is_current (currentChatId st) id). }
  assert (Hcur : currentChatId st' <> Some id).
  { unfold st', deleteChat.
    destruct (is_current (currentChatId st) id) eqn:E.
    - cbn. destruct (remove_id id (chats st)) as [|c rest] eqn:R; [discriminate|].
      intros [= Hc]. exact (head_of_remove_id _ _ _ _ R Hc).
    - cbn. intros Hc. apply is_current_true in Hc. congruence. }
  split; [exact Hchats|].
  split.
  { intros c. rewrite Hchats. unfold remove_id. rewrite filter_In.
    unfold has_id. rewrite negb_true_iff, String.eqb_neq. reflexivity. }
  split; [exact Hcur|].
  split.
  { intros Hne. unfold st', deleteChat.
    destruct (is_current (currentChatId st) id) eqn:E; [|reflexivity].
    apply is_current_true in E. contradiction. }
  unfold deleteChat at 1.
  assert (E : is_current (currentChatId st') id = false).
  { destruct (is_current (currentChatId st') id) eqn:E; [|reflexivity].
    apply is_current_true in E. contradiction. }
  rewrite E. unfold set_chats. rewrite Hchats, remove_id_idem, <- Hchats.
  now destruct st'.
Qed.

(** *** Histories only grow *)

Lemma extends_refl c : extends c c.
Proof.
  repeat split. exists []. now rewrite app_nil_r.
Qed.

Lemma extends_trans a b c : extends a b -> extends b c -> extends a c.
Proof.
  intros (Hi & Hc & [m Hm] & Ht) (Hi' & Hc' & [m' Hm'] & Ht').
  repeat split; try congruence.
  - exists (m ++ m'). rewrite Hm', Hm. now rewrite app_assoc.
  - intros Hne. rewrite Ht', Ht; [reflexivity | exact Hne |].
    rewrite Hm. intros E. apply app_eq_nil in E. now destruct E.
Qed.

Lemma extends_append_message target m now c :
  extends c (append_message target m now c).
Proof.
  unfold append_message. destruct (has_id target c); [|apply extends_refl].
  repeat split. now exists [m].
Qed.

Lemma extends_append_reply call reply now c :
  extends c (append_reply call reply now c).
Proof.
  unfold append_reply. destruct (has_id (activeChatId call) c);
    [|apply extends_refl].
  repeat split; cbn.
  - eexists; reflexivity.
  - intros Hne. destruct (ChatSession.messages c); [congruence | reflexivity].
Qed.

Lemma extends_append_error call now c : extends c (append_error call now c).
Proof.
  unfold append_error. destruct (has_id (activeChatId call) c);
    [|apply extends_refl].
  repeat split. eexists; reflexivity.
Qed.

Lemma extends_handle e st c :
  In c (chats st) ->
  e <> DeleteChat (ChatSession.id c) ->
  exists c', In c' (chats (handle e st)) /\ extends c c'.
Proof.
  intros Hin Hne.
  assert (Hsame : forall st', chats st' = chats st ->
            exists c', In c' (chats st') /\ extends c c').
  { intros st' E. exists c. rewrite E. split; [exact Hin | apply extends_refl]. }
  assert (Hmap : forall f l, (forall x, extends x (f x)) -> In c l ->
            exists c', In c' (map f l) /\ extends c c').
  { intros f l Hf Hl. exists (f c). split; [now apply in_map | apply Hf]. }
  destruct e as [now|id|n|s|files|i| |now|k now outcome]; cbn [handle].
  - exists c. split; [right; exact Hin | apply extends_refl].
  - exists c. split; [|apply extends_refl].
    assert (Hchats : chats (deleteChat id st) = remove_id id (chats st)).
    { unfold deleteChat. now destruct (is_current (currentChatId st) id). }
    rewrite Hchats. apply In_remove_id. split; [exact Hin|].
    intros E. apply Hne. now rewrite E.
  - apply Hsame. unfold selectChat. now destruct (nth_error (chats st) n).
  - now apply Hsame.
  - apply Hsame. apply handleFileChange_store.
  - now apply Hsame.
  - now apply Hsame.
  - unfold sendMessage.
    destruct (negb (JS.truthy_string (JS.trim (inputText st)))
              && Nat.eqb (List.length (attachments st)) 0); [now apply Hsame|].
    destruct (isTyping st); [now apply Hsame|].
    destruct (match currentChatId st with
              | Some id => if JS.truthy_string id then Some id else None
              | None => None
              end) as [id|]; cbn.
    + apply Hmap; [intros x; apply extends_append_message | exact Hin].
    + destruct (Hmap (append_message (JS.toString now) (userMessage now st) now)
                  (chats st)) as (c' & Hc' & He);
        [intros x; apply extends_append_message | exact Hin |].
      exists c'. split; [right; exact Hc' | exact He].
  - unfold sendMessage_resume.
    destruct (nth_error (awaiting st) k) as [call|]; [|now apply Hsame].
    destruct (GeminiService.generateMathResponse _ _ _ _) as [reply|err]; cbn.
    + apply Hmap; [intros x; apply extends_append_reply | exact Hin].
    + apply Hmap; [intros x; apply extends_append_error | exact Hin].
Qed.

Lemma extends_fold events :
  forall st c,
    In c (chats st) ->
    (exists c', In c' (chats (fold_left step events st)) /\ extends c c') \/
    In (DeleteChat (ChatSession.id c)) events.
Proof.
  induction events as [|e events IH]; intros st c Hin; cbn [fold_left].
  - left. exists c. split; [exact Hin | apply extends_refl].
  - assert (Hdec : e = DeleteChat (ChatSession.id c) \/
                   e <> DeleteChat (ChatSession.id c)).
    { destruct e as [?|id|?|?|?|?| |?|? ? ?]; try (right; discriminate).
      destruct (String.eqb id (ChatSession.id c)) eqn:E.
      - apply String.eqb_eq in E. left. now rewrite E.
      - apply String.eqb_neq in E. right. intros [= H]. contradiction. }
    destruct Hdec as [-> | Hne]; [right; now left|].
    destruct (extends_handle e st c Hin Hne) as (c1 & Hc1 & He1).
    assert (Hc1' : In c1 (chats (step st e))).
    { unfold step, render. cbn. now apply In_sort_desc. }
    destruct (IH (step st e) c1 Hc1') as [(c' & Hc' & He') | Hdel].
    + left. exists c'. split; [exact Hc' | now apply extends_trans with c1].
    + right. right. destruct He1 as (Hid & _). now rewrite <- Hid.
Qed.

(** X9. Histories only grow.  Whatever the user and the model do, a session
    of the store is still there later, with its id, its creation time and
    its messages in their order as a prefix of the later ones, and, if it
    had a message, its title, unless the run contains the deletion of that
    id. *)
Theorem history_is_append_only :
  forall (events : list Event) (st : State) (c : ChatSession.t),
    (In c (chats st) ->
     (exists c',
        In c' (chats (run events st)) /\
        ChatSession.id c' = ChatSession.id c /\
        ChatSession.createdAt c' = ChatSession.createdAt c /\
        (exists more,
           ChatSession.messages c' = ChatSession.messages c ++ more) /\
        (ChatSession.messages c <> [] ->
         ChatSession.title c' = ChatSession.title c)) \/
     In (DeleteChat (ChatSession.id c)) events).
Proof.
  intros events st c Hin. unfold run.
  apply (extends_fold events (render st) c).
  unfold render. cbn. now apply In_sort_desc.
Qed.

(** A session that stood in the store, its sole message the prompt, and a
    run in which a question is asked and answered in it. *)
Lemma history_is_append_only_witness :
  let prompt := Message.mk "1" user "1+1" None JS.undefined 1 in
  let c := ChatSession.mk "1" "1+1" [prompt] 1 1 in
  let events := [SetInputText "2+2"; Send 2000;
                 Settle 0 3000 (JS.Throw (JS.RemoteError "503"))] in
  In c (chats (initial [c] (Some "1"))) /\
  ((exists c',
      In c' (chats (run events (initial [c] (Some "1")))) /\
      ChatSession.id c' = "1" /\
      ChatSession.createdAt c' = 1 /\
      (exists more, ChatSession.messages c' = [prompt] ++ more) /\
      (ChatSession.messages c <> [] -> ChatSession.title c' = "1+1")) \/
   In (DeleteChat "1") events).
Proof.
  intros prompt c events.
  split; [now left|].
  apply (history_is_append_only events (initial [c] (Some "1")) c).
  now left.
Defined.

(** *** The reply of a suspended submit *)

Lemma nth_error_map_some {A B} (f : A -> B) l i x :
  nth_error l i = Some x -> nth_error (map f l) i = Some (f x).
Proof.
  revert i. induction l as [|y l IH]; intros [|i]; cbn; try discriminate.
  - now intros [= ->].
  - apply IH.
Qed.

Lemma map_fixed {A} (f : A -> A) l :
  (forall x, In x l -> f x = x) -> map f l = l.
Proof.
  induction l as [|y l IH]; intros H; cbn; [reflexivity|].
  rewrite (H y (or_introl eq_refl)), IH; [reflexivity|].
  intros x Hx. apply H. now right.
Qed.

(** X10. When the call of a suspended submit settles, one assistant message
    is appended to every session that has the id the submit was made in,
    the active one or not: the model's answer, or the fallback text when
    the call failed.  The other sessions, the active id, the input bar and
    the pending attachments are untouched, and the typing flag falls.  If
    no session has that id any more, the reply is dropped. *)
Theorem reply_lands_in_its_session :
  forall (st : State) (k : nat) (now : Z)
         (outcome : JS.Result GeminiService.Response) (call : Suspended),
    nth_error (awaiting st) k = Some call ->
    let st' := sendMessage_resume k now outcome st in
    exists m,
      Message.role m = assistant /\
      Message.id m = JS.toString (now + 1) /\
      Message.timestamp m = now /\
      Message.content m =
        match outcome with
        | JS.Ok response =>
            GeminiService.reply_text (GeminiService.decompose response)
        | JS.Throw _ => error_text
        end /\
      (forall i c,
         nth_error (chats st) i = Some c ->
         exists c',
           nth_error (chats st') i = Some c' /\
           ChatSession.id c' = ChatSession.id c /\
           if String.eqb (ChatSession.id c) (activeChatId call)
           then ChatSession.messages c' = ChatSession.messages c ++ [m]
           else c' = c) /\
      List.length (chats st') = List.length (chats st) /\
      ((forall c, In c (chats st) -> ChatSession.id c <> activeChatId call) ->
       chats st' = chats st) /\
      currentChatId st' = currentChatId st /\
      inputText st' = inputText st /\
      attachments st' = attachments st /\
      isTyping st' = false.
Proof.
  intros st k now outcome call Hk st'.
  unfold st', sendMessage_resume. rewrite Hk.
  unfold GeminiService.generateMathResponse.
  destruct outcome as [response|err]; cbn [JS.bind JS.try_catch].
  - exists (Message.mk (JS.toString (now + 1)) assistant
              (GeminiService.reply_text (GeminiService.decompose response)) None
              (GeminiService.reply_thinking (GeminiService.decompose response)) now).
    repeat split; cbn [chats set_chats set_isTyping set_awaiting].
    + intros i c Hc. exists (append_reply call (GeminiService.decompose response) now c).
      split; [now apply nth_error_map_some|].
      split; [apply append_reply_id|].
      unfold append_reply, has_id.
      now destruct (String.eqb (ChatSession.id c) (activeChatId call)).
    + apply length_map.
    + intros Hnone. apply map_fixed. intros c Hc.
      unfold append_reply, has_id.
      destruct (String.eqb_spec (ChatSession.id c) (activeChatId call)) as [E|_];
        [|reflexivity].
      now destruct (Hnone c Hc).
  - exists (Message.mk (JS.toString (now + 1)) assistant error_text None
              JS.undefined now).
    repeat split; cbn [chats set_chats set_isTyping set_awaiting].
    + intros i c Hc. exists (append_error call now c).
      split; [now apply nth_error_map_some|].
      split; [apply append_error_id|].
      unfold append_error, has_id.
      now destruct (String.eqb (ChatSession.id c) (activeChatId call)).
    + apply length_map.
    + intros Hnone. apply map_fixed. intros c Hc.
      unfold append_error, has_id.
      destruct (String.eqb_spec (ChatSession.id c) (activeChatId call)) as [E|_];
        [|reflexivity].
      now destruct (Hnone c Hc).
Qed.

(** The user asks in session 1, opens session 2 while waiting, and the
    answer arrives: it is appended to session 1 and session 2 stays the
    active one. *)
Lemma reply_lands_in_its_session_witness :
  let one := ChatSession.mk "1" "first" [] 1 1 in
  let two := ChatSession.mk "2" "second" [] 2 2 in
  let st := run [SetInputText "2+2"; Send 1000; SelectChat 1]
                (initial [one; two] (Some "1")) in
  let st' := sendMessage_resume 0 2000 (JS.Throw (JS.RemoteError "503")) st in
  currentChatId st = Some "2" /\
  exists m,
    Message.content m = error_text /\
    (exists c', nth_error (chats st') 0 = Some c' /\
                ChatSession.id c' = "1" /\
                List.length (ChatSession.messages c') = 2%nat) /\
    nth_error (chats st') 1 = Some two /\
    currentChatId st' = Some "2".
Proof.
  intros one two st st'.
  split; [reflexivity|].
  destruct (reply_lands_in_its_session st 0 2000
              (JS.Throw (JS.RemoteError "503"))
              (mkSuspended "1" [] "2+2" []) eq_refl)
    as (m & _ & _ & _ & Hcontent & Hnth & _ & _ & Hcur & _).
  exists m. split; [exact Hcontent|].
  split; [|split].
  - destruct (Hnth 0%nat _ eq_refl) as (c' & H0 & Hid & Hmsgs).
    exists c'. split; [exact H0|]. split; [exact Hid|].
    cbn in Hmsgs. rewrite Hmsgs. reflexivity.
  - destruct (Hnth 1%nat _ eq_refl) as (c' & H1 & _ & Hsame).
    cbn in Hsame. now rewrite <- Hsame.
  - exact Hcur.
Defined.

(** *** What an accepted submit stores and suspends *)

Lemma has_input_guard st :
  has_input st ->
  negb (JS.truthy_string (JS.trim (inputText st)))
  && Nat.eqb (List.length (attachments st)) 0 = false.
Proof.
  intros [Ht | Ha].
  - destruct (JS.trim (inputText st)); [congruence | reflexivity].
  - destruct (attachments st); [congruence|]. cbn. apply andb_false_r.
Qed.

(** The two shapes of an accepted submit: in the active session, or in a
    session created for it. *)
Lemma sendMessage_shape now st :
  isTyping st = false -> has_input st ->
  exists active sessions,
    (sessions = chats st \/
     sessions = newChat now (JS.or_string (JS.slice0 35 (inputText st))
                                          "Multimodal Query") :: chats st) /\
    chats (sendMessage now st) =
      map (append_message active (userMessage now st) now) sessions /\
    awaiting (sendMessage now st) =
      awaiting st ++
      [mkSuspended active
         (match find_chat active (chats st) with
          | Some c => ChatSession.messages c
          | None => []
          end)
         (inputText st) (attachments st)] /\
    (forall id, currentChatId st = Some id -> id <> EmptyString ->
       active = id /\ sessions = chats st).
Proof.
  intros Hidle Hin. unfold sendMessage.
  rewrite (has_input_guard st Hin), Hidle.
  destruct (currentChatId st) as [id|]; [destruct id as [|a id]|]; cbn.
  - eexists; eexists. split; [right; reflexivity|].
    split; [reflexivity|]. split; [reflexivity|]. intros id [= <-]. congruence.
  - eexists; eexists. split; [left; reflexivity|].
    split; [reflexivity|]. split; [reflexivity|]. intros id' [= <-] _. now split.
  - eexists; eexists. split; [right; reflexivity|].
    split; [reflexivity|]. split; [reflexivity|]. discriminate.
Qed.

Lemma nth_error_last {A} (l : list A) x :
  nth_error (l ++ [x]) (List.length l) = Some x.
Proof. induction l as [|y l IH]; [reflexivity | exact IH]. Qed.

(** *** The request of a submit *)

Lemma find_chat_some id c l :
  find_chat id l = Some c -> In c l /\ ChatSession.id c = id.
Proof.
  unfold find_chat. intros H. apply find_some in H.
  destruct H as [Hin H]. unfold has_id in H. apply String.eqb_eq in H.
  now split.
Qed.

(** X7. What a submit in the active session sends to the model: the text
    of each message the session had before, in order, then the text typed,
    once, then one inline part per pending attachment, with the payload of
    its data URL.  The attachments of earlier messages are not sent again.
    The input bar is emptied. *)
Theorem submit_sends_history_once :
  forall (now : Z) (st : State) (c : ChatSession.t),
    isTyping st = false -> has_input st ->
    currentChatId st = Some (ChatSession.id c) ->
    ChatSession.id c <> EmptyString ->
    find_chat (ChatSession.id c) (chats st) = Some c ->
    exists call,
      awaiting (sendMessage now st) = awaiting st ++ [call] /\
      activeChatId call = ChatSession.id c /\
      flat_map GeminiService.c_parts
        (GeminiService.build_contents (chatHistory call) (originalInput call)
           (Some (originalAttachments call))) =
        map (fun m => GeminiService.TextPart (Message.content m))
            (ChatSession.messages c)
        ++ GeminiService.TextPart (inputText st)
           :: map (fun a =>
                     GeminiService.InlineData (Attachment.type a)
                       (GeminiService.strip_data_prefix (Attachment.data a)))
                  (attachments st) /\
      List.length (GeminiService.build_contents (chatHistory call)
                     (originalInput call) (Some (originalAttachments call))) =
        S (List.length (ChatSession.messages c)) /\
      inputText (sendMessage now st) = EmptyString /\
      attachments (sendMessage now st) = [].
Proof.
  intros now st c Hidle Hin Hcur Hid Hfind.
  destruct (sendMessage_shape now st Hidle Hin)
    as (active & sessions & _ & _ & Hcalls & Hactive).
  destruct (Hactive _ Hcur Hid) as [-> _].
  rewrite Hfind in Hcalls.
  eexists. split; [exact Hcalls|]. cbn [activeChatId chatHistory originalInput
                                        originalAttachments].
  split; [reflexivity|].
  split; [apply OrchestratorProperties.build_contents_parts|].
  split; [apply OrchestratorProperties.build_contents_length|].
  unfold sendMessage. rewrite (has_input_guard st Hin), Hidle, Hcur.
  destruct (ChatSession.id c); [congruence|]. cbn. now split.
Qed.

(** A second question in a session: the request has the first question,
    the second one and the payload of the picture attached to it. *)
Lemma submit_sends_history_once_witness :
  let first := Message.mk "1" user "1+1"
                 (Some [Attachment.mk "a.png" "image/png" "data:image/png;base64,AAAA"])
                 JS.undefined 1 in
  let c := ChatSession.mk "1" "1+1" [first] 1 1 in
  let st := set_attachments
              (fun _ => [Attachment.mk "b.png" "image/png" "data:image/png;base64,BBBB"])
              (set_inputText "and 2+2?" (initial [c] (Some "1"))) in
  exists call,
    awaiting (sendMessage 2000 st) = [call] /\
    flat_map GeminiService.c_parts
      (GeminiService.build_contents (chatHistory call) (originalInput call)
         (Some (originalAttachments call))) =
      [GeminiService.TextPart "1+1"; GeminiService.TextPart "and 2+2?";
       GeminiService.InlineData "image/png" "BBBB"].
Proof.
  intros first c st.
  assert (Hin : has_input st) by (left; vm_compute; discriminate).
  assert (Hid : ChatSession.id c <> EmptyString) by discriminate.
  destruct (submit_sends_history_once 2000 st c eq_refl Hin eq_refl Hid eq_refl)
    as (call & Hcalls & _ & Hparts & _).
  exists call. split; [exact Hcalls | exact Hparts].
Defined.

(** *** Session ids *)

Lemma toString_inj a b : JS.toString a = JS.toString b -> a = b.
Proof.
  intros E. pose proof (PersistenceFacts.integer_of_toString a) as Ha.
  rewrite E, PersistenceFacts.integer_of_toString in Ha. congruence.
Qed.

Lemma NoDup_map_toString l : NoDup l -> NoDup (map JS.toString l).
Proof.
  induction 1 as [|x l Hx Hl IH]; cbn; constructor; [|exact IH].
  intros Hin. apply in_map_iff in Hin. destruct Hin as (y & E & Hy).
  apply toString_inj in E. now subst.
Qed.

Lemma ids_filter_incl f l : incl (ids (filter f l)) (ids l).
Proof.
  intros x Hx. unfold ids in *. apply in_map_iff in Hx.
  destruct Hx as (c & <- & Hc). apply filter_In in Hc.
  apply in_map. now destruct Hc.
Qed.

Lemma ids_filter_NoDup f l : NoDup (ids l) -> NoDup (ids (filter f l)).
Proof.
  unfold ids. induction l as [|c l IH]; cbn; intros H; [constructor|].
  inversion H as [|? ? Hc Hl]; subst.
  destruct (f c); cbn; [|now apply IH].
  constructor; [|now apply IH].
  intros Hin. apply Hc. now apply (ids_filter_incl f l).
Qed.

Lemma NoDup_app_shrink {A} (a b b' : list A) :
  incl b' b -> (NoDup b -> NoDup b') -> NoDup (a ++ b) -> NoDup (a ++ b').
Proof.
  intros Hincl Hb. induction a as [|x a IH]; cbn; [exact Hb|].
  intros H. inversion H as [|? ? Hx Ha]; subst.
  constructor; [|now apply IH].
  intros Hin. apply Hx. apply in_app_iff in Hin. apply in_app_iff.
  destruct Hin as [Hin | Hin]; [now left | right; now apply Hincl].
Qed.

Lemma ids_map f l :
  (forall c, ChatSession.id (f c) = ChatSession.id c) -> ids (map f l) = ids l.
Proof.
  intros Hf. unfold ids. rewrite map_map. apply map_ext. exact Hf.
Qed.

(** The ids of the store after a handler: those of sessions that were
    there, or one more, the clock reading of a [New Chat] or a submit. *)
Lemma ids_handle e st :
  (exists f, ids (chats (handle e st)) = ids (filter f (chats st))) \/
  (exists now, (e = NewChat now \/ e = Send now) /\
     ids (chats (handle e st)) = JS.toString now :: ids (chats st)).
Proof.
  assert (Hsame : forall l, ids l = ids (chats st) ->
            exists f, ids l = ids (filter f (chats st))).
  { intros l E. exists (fun _ => true). rewrite E. f_equal.
    symmetry. apply forallb_filter_id. now apply forallb_forall. }
  destruct e as [now|id|n|s|files|i| |now|k now outcome]; cbn [handle].
  - right. exists now. split; [now left | reflexivity].
  - left. exists (fun c => negb (has_id id c)).
    unfold deleteChat. now destruct (is_current (currentChatId st) id).
  - left. apply Hsame. unfold selectChat. now destruct (nth_error (chats st) n).
  - left. now apply Hsame.
  - left. apply Hsame. f_equal. apply handleFileChange_store.
  - left. now apply Hsame.
  - left. now apply Hsame.
  - unfold sendMessage.
    destruct (negb (JS.truthy_string (JS.trim (inputText st)))
              && Nat.eqb (List.length (attachments st)) 0);
      [left; now apply Hsame|].
    destruct (isTyping st); [left; now apply Hsame|].
    destruct (match currentChatId st with
              | Some id => if JS.truthy_string id then Some id else None
              | None => None
              end) as [id|]; cbn.
    + left. apply Hsame. apply ids_map. intros c. apply append_message_id.
    + right. exists now. split; [now right|].
      unfold ids. cbn. f_equal.
      * unfold append_message. now destruct (has_id _ _).
      * apply (ids_map _ (chats st)). intros c. apply append_message_id.
  - left. apply Hsame. unfold sendMessage_resume.
    destruct (nth_error (awaiting st) k) as [call|]; [|reflexivity].
    destruct (GeminiService.generateMathResponse _ _ _ _); cbn;
      apply ids_map; intros c; [apply append_reply_id | apply append_error_id].
Qed.

Lemma ids_sort_desc l : Permutation (ids (sort_desc l)) (ids l).
Proof. apply Permutation_map, sort_desc_perm. Qed.

Lemma readings_cons e events :
  (exists now, (e = NewChat now \/ e = Send now) /\
               readings (e :: events) = now :: readings events) \/
  ((forall now, e <> NewChat now /\ e <> Send now) /\
   readings (e :: events) = readings events).
Proof.
  destruct e; cbn;
    try (right; split; [intros; split; discriminate | reflexivity]);
    left; eexists; (split; [|reflexivity]); [now left | now right].
Qed.

Lemma ids_unique_fold events :
  forall st,
    NoDup (map JS.toString (readings events) ++ ids (chats st)) ->
    NoDup (ids (chats (fold_left step events st))).
Proof.
  induction events as [|e events IH]; intros st H; cbn [fold_left].
  - exact H.
  - apply IH.
    assert (Hstep : Permutation (ids (chats (step st e)))
                                (ids (chats (handle e st)))).
    { unfold step, render. cbn. apply ids_sort_desc. }
    apply (Permutation_NoDup
             (Permutation_app_head _ (Permutation_sym Hstep))).
    destruct (ids_handle e st) as [[f Hf] | (now & He & Hnow)].
    + rewrite Hf.
      apply (NoDup_app_shrink _ (ids (chats st)));
        [apply ids_filter_incl | apply ids_filter_NoDup |].
      destruct (readings_cons e events) as [(now & _ & E) | [_ E]];
        rewrite E in H; [|exact H].
      cbn in H. now inversion H.
    + rewrite Hnow.
      assert (Hr : readings (e :: events) = now :: readings events)
        by (destruct He as [-> | ->]; reflexivity).
      rewrite Hr in H. cbn in H.
      apply (Permutation_NoDup (Permutation_middle _ _ _)). exact H.
Qed.

(** X12. Session ids stay unique.  If the ids of the store read at
    start-up are pairwise distinct, the clock readings of the [New Chat]
    and submit events of a run are pairwise distinct, and none of them
    prints as a stored id, then in the state the run reaches no two
    sessions share an id. *)
Theorem session_ids_stay_unique :
  forall (cs : list ChatSession.t) (cur : option string) (events : list Event),
    NoDup (ids cs) ->
    NoDup (readings events) ->
    (forall now, In now (readings events) -> ~ In (JS.toString now) (ids cs)) ->
    NoDup (ids (chats (run events (initial cs cur)))).
Proof.
  intros cs cur events Hcs Hclock Hfresh. unfold run.
  apply ids_unique_fold.
  apply (Permutation_NoDup
           (Permutation_app_head _ (Permutation_sym (ids_sort_desc cs)))).
  induction (readings events) as [|now l IH]; [exact Hcs|].
  inversion Hclock as [|? ? Hnow Hl]; subst. cbn. constructor.
  - intros Hin. apply in_app_iff in Hin. destruct Hin as [Hin | Hin].
    + apply in_map_iff in Hin. destruct Hin as (y & E & Hy).
      apply toString_inj in E. now subst.
    + apply (Hfresh now); [now left | exact Hin].
  - apply IH; [exact Hl|]. intros n Hn. apply Hfresh. now right.
Qed.

(** Sessions created at three instants next to a stored one, two of them
    deleted on the way. *)
Lemma session_ids_stay_unique_witness :
  let stored := ChatSession.mk "1" "first" [] 1 1 in
  let events := [NewChat 1000; SetInputText "2+2"; DeleteChat "1000";
                 DeleteChat "1"; Send 2000; NewChat 3000] in
  ids (chats (run events (initial [stored] (Some "1")))) = ["3000"; "2000"] /\
  NoDup (ids (chats (run events (initial [stored] (Some "1"))))).
Proof.
  intros stored events. split; [vm_compute; reflexivity|].
  apply (session_ids_stay_unique [stored] (Some "1") events).
  - repeat constructor. intros [].
  - repeat constructor; cbn; intros H;
      repeat (destruct H as [H | H]; [discriminate|]); exact H.
  - intros now H. cbn in H.
    repeat (destruct H as [<- | H];
            [vm_compute; intros [E | []]; discriminate|]).
    destruct H.
Defined.

(** *** The title of a session when a reply arrives *)

Lemma pending_inv_later r future st :
  pending_inv (r :: future) st -> pending_inv future st.
Proof.
  intros (Hnd & Hinv & Hfresh & Hcalls & Hfull).
  split; [now inversion Hnd|]. split; [exact Hinv|].
  split; [intros r' Hr'; apply Hfresh; now right|].
  split; [intros r' call Hr'; apply Hcalls; now right | exact Hfull].
Qed.

(** A handler that maps the sessions, keeping ids and messages that are
    there, and suspends no new call. *)
Lemma pending_inv_map future g st st' :
  (forall c, ChatSession.id (g c) = ChatSession.id c) ->
  (forall c, ChatSession.messages c <> [] -> ChatSession.messages (g c) <> []) ->
  chats st' = map g (chats st) ->
  incl (awaiting st') (awaiting st) ->
  store_inv st' ->
  pending_inv future st -> pending_inv future st'.
Proof.
  intros Hid Hmsg Hchats Hcalls Hinv' (Hnd & _ & Hfresh & Hactive & Hfull).
  split; [exact Hnd|]. split; [exact Hinv'|].
  split.
  { intros r Hr. rewrite Hchats, (ids_map g _ Hid). now apply Hfresh. }
  split.
  { intros r call Hr Hcall. apply Hactive; [exact Hr | now apply Hcalls]. }
  intros call c Hcall Hc E. rewrite Hchats in Hc. apply in_map_iff in Hc.
  destruct Hc as (c0 & <- & Hc0). apply Hmsg.
  apply (Hfull call c0); [now apply Hcalls | exact Hc0 |].
  now rewrite <- Hid.
Qed.

Lemma pending_inv_same future st st' :
  chats st' = chats st -> awaiting st' = awaiting st -> store_inv st' ->
  pending_inv future st -> pending_inv future st'.
Proof.
  intros Hchats Hcalls.
  apply (pending_inv_map future (fun c => c)); try easy.
  - now rewrite map_id.
  - rewrite Hcalls. apply incl_refl.
Qed.

Lemma pending_inv_render future st :
  pending_inv future st -> pending_inv future (render st).
Proof.
  intros (Hnd & Hinv & Hfresh & Hactive & Hfull).
  split; [exact Hnd|]. split; [now apply store_inv_render|].
  unfold render. cbn [chats awaiting set_chats].
  split.
  { intros r Hr Hin. apply (Hfresh r Hr).
    apply (Permutation_in _ (ids_sort_desc (chats st))). exact Hin. }
  split; [exact Hactive|].
  intros call c Hcall Hc. apply (proj1 (In_sort_desc _ _)) in Hc.
  now apply Hfull.
Qed.

Lemma remove_nth_incl {A} k (l : list A) : incl (remove_nth k l) l.
Proof.
  revert k. induction l as [|x l IH]; intros [|k]; cbn; try easy.
  - now apply incl_tl, incl_refl.
  - intros y [<- | Hy]; [now left | right; now apply (IH k)].
Qed.

Lemma append_message_full target m now c :
  ChatSession.messages c <> [] ->
  ChatSession.messages (append_message target m now c) <> [].
Proof.
  unfold append_message. destruct (has_id target c); [|easy].
  cbn. intros _ E. apply app_eq_nil in E. now destruct E.
Qed.

Lemma append_message_stored target m now c :
  ChatSession.id c = target ->
  ChatSession.messages (append_message target m now c) <> [].
Proof.
  intros <-. unfold append_message, has_id. rewrite String.eqb_refl. cbn.
  intros E. apply app_eq_nil in E. now destruct E.
Qed.

Lemma append_reply_full call reply now c :
  ChatSession.messages c <> [] ->
  ChatSession.messages (append_reply call reply now c) <> [].
Proof.
  unfold append_reply. destruct (has_id (activeChatId call) c); [|easy].
  cbn. intros _ E. apply app_eq_nil in E. now destruct E.
Qed.

Lemma append_error_full call now c :
  ChatSession.messages c <> [] ->
  ChatSession.messages (append_error call now c) <> [].
Proof.
  unfold append_error. destruct (has_id (activeChatId call) c); [|easy].
  cbn. intros _ E. apply app_eq_nil in E. now destruct E.
Qed.

(** A submit that creates its session. *)
Lemma pending_inv_created now future st title m input atts history :
  pending_inv (now :: future) st ->
  let c := newChat now title in
  forall st',
    chats st' = map (append_message (ChatSession.id c) m now) (c :: chats st) ->
    awaiting st' =
      awaiting st ++ [mkSuspended (ChatSession.id c) history input atts] ->
    store_inv st' ->
    pending_inv future st'.
Proof.
  intros (Hnd & Hinv & Hfresh & Hactive & Hfull) c st' Hchats Hcalls Hinv'.
  inversion Hnd as [|? ? Hnow Hnd']; subst.
  split; [exact Hnd'|]. split; [exact Hinv'|].
  rewrite Hchats, Hcalls. split.
  { intros r Hr. rewrite (ids_map _ _ (append_message_id _ m now)).
    intros [E | Hin].
    - cbn in E. apply toString_inj in E. now subst.
    - apply (Hfresh r); [now right | exact Hin]. }
  split.
  { intros r call Hr Hcall. apply in_app_iff in Hcall.
    destruct Hcall as [Hcall | [<- | []]].
    - apply Hactive; [now right | exact Hcall].
    - cbn. intros E. apply toString_inj in E. now subst. }
  intros call c2 Hcall Hc E. apply in_map_iff in Hc.
  destruct Hc as (c1 & <- & Hc1). rewrite append_message_id in E.
  apply in_app_iff in Hcall. destruct Hcall as [Hcall | [<- | []]].
  - destruct Hc1 as [<- | Hc1].
    + exfalso. apply (Hactive now call); [now left | exact Hcall |].
      now rewrite <- E.
    + apply append_message_full. now apply (Hfull call c1).
  - now apply append_message_stored.
Qed.

Lemma pending_inv_handle e events st :
  pending_inv (readings (e :: events)) st ->
  pending_inv (readings events) (handle e st).
Proof.
  intros H.
  assert (Hinv' : store_inv (handle e st))
    by (apply store_inv_handle; now destruct H as (_ & ? & _)).
  destruct e as [now|id|n|s|files|i| |now|k now outcome];
    cbn [handle readings] in *.
  - (* New Chat *)
    destruct H as (Hnd & Hinv & Hfresh & Hactive & Hfull).
    inversion Hnd as [|? ? Hnow Hnd']; subst.
    split; [exact Hnd'|]. split; [exact Hinv'|].
    unfold startNewChat. cbn [chats awaiting set_chats set_currentChatId].
    split.
    { intros r Hr [E | Hin].
      - cbn in E. apply toString_inj in E. now subst.
      - apply (Hfresh r); [now right | exact Hin]. }
    split; [intros r call Hr; apply Hactive; now right|].
    intros call c Hcall [<- | Hc] E.
    + cbn in E. exfalso.
      apply (Hactive now call); [now left | exact Hcall | now symmetry].
    + now apply (Hfull call c).
  - (* Delete *)
    destruct H as (Hnd & Hinv & Hfresh & Hactive & Hfull).
    split; [exact Hnd|]. split; [exact Hinv'|].
    assert (Hchats : chats (deleteChat id st) = remove_id id (chats st))
      by (unfold deleteChat; now destruct (is_current _ _)).
    assert (Hcalls : awaiting (deleteChat id st) = awaiting st)
      by (unfold deleteChat; now destruct (is_current _ _)).
    rewrite Hchats, Hcalls. unfold remove_id. split.
    { intros r Hr Hin. apply (Hfresh r Hr).
      exact (ids_filter_incl _ _ _ Hin). }
    split; [exact Hactive|].
    intros call c Hcall Hc. apply filter_In in Hc.
    apply Hfull; [exact Hcall | now destruct Hc].
  - (* Select *)
    apply (pending_inv_same _ st); try assumption;
      unfold selectChat; now destruct (nth_error (chats st) n).
  - now apply (pending_inv_same _ st).
  - apply (pending_inv_same _ st); try assumption; apply handleFileChange_store.
  - now apply (pending_inv_same _ st).
  - now apply (pending_inv_same _ st).
  - (* Send *)
    pose proof (pending_inv_later _ _ _ H) as Hlater.
    unfold sendMessage in *.
    destruct (negb (JS.truthy_string (JS.trim (inputText st)))
              && Nat.eqb (List.length (attachments st)) 0); [exact Hlater|].
    destruct (isTyping st); [exact Hlater|].
    destruct (currentChatId st) as [id|] eqn:Hcur;
      [destruct (JS.truthy_string id) eqn:Hid|].
    + destruct H as (Hnd & Hinv & Hfresh & Hactive & Hfull).
      inversion Hnd as [|? ? Hnow Hnd']; subst.
      split; [exact Hnd'|]. split; [exact Hinv'|].
      unfold store_inv in Hinv. rewrite Hcur in Hinv.
      cbv zeta.
      cbn [fst snd chats awaiting set_chats set_currentChatId set_awaiting
           set_isTyping set_attachments set_inputText].
      destruct Hinv as (c0 & Hc0 & Hc0id).
      split.
      { intros r Hr. rewrite (ids_map _ _ (append_message_id id _ now)).
        apply Hfresh. now right. }
      split.
      { intros r call Hr Hcall. apply in_app_iff in Hcall.
        destruct Hcall as [Hcall | [<- | []]].
        - apply Hactive; [now right | exact Hcall].
        - cbn [activeChatId]. intros E. apply (Hfresh r); [now right|].
          rewrite <- E, <- Hc0id. now apply in_map. }
      intros call c Hcall Hc E. apply in_map_iff in Hc.
      destruct Hc as (c1 & <- & Hc1). rewrite append_message_id in E.
      apply in_app_iff in Hcall. destruct Hcall as [Hcall | [<- | []]].
      * apply append_message_full. now apply (Hfull call c1).
      * now apply append_message_stored.
    + eapply (pending_inv_created now _ st); [exact H | | | exact Hinv'];
        reflexivity.
    + eapply (pending_inv_created now _ st); [exact H | | | exact Hinv'];
        reflexivity.
  - (* Settle *)
    unfold sendMessage_resume in *.
    destruct (nth_error (awaiting st) k) as [call|]; [|exact H].
    destruct (GeminiService.generateMathResponse _ _ _ _) as [reply|err].
    + apply (pending_inv_map _ (append_reply call reply now) st);
        [apply append_reply_id | apply append_reply_full | reflexivity
        | apply remove_nth_incl | exact Hinv' | exact H].
    + apply (pending_inv_map _ (append_error call now) st);
        [apply append_error_id | apply append_error_full | reflexivity
        | apply remove_nth_incl | exact Hinv' | exact H].
Qed.

Lemma pending_inv_fold events :
  forall st,
    pending_inv (readings events) st ->
    pending_inv [] (fold_left step events st).
Proof.
  induction events as [|e events IH]; intros st H; cbn [fold_left].
  - exact H.
  - apply IH. unfold step. now apply pending_inv_render, pending_inv_handle.
Qed.

(** X11. A reply never retitles a session.  Take a run from a store whose
    active id is null or the id of a session, in which the clock readings
    of the [New Chat] and submit events are pairwise distinct and none of
    them prints as a stored id.  When a call of the model settles in the
    state that the run reaches, with an answer or with a failure, every
    session afterwards has the id, the title and the creation time of a
    session before: the session of the suspended submit holds the user
    message by then, so the branch of [sendMessage] that would set the
    title to the first 35 characters of the question is not taken. *)
Theorem reply_never_retitles :
  forall (cs : list ChatSession.t) (cur : option string) (events : list Event)
         (k : nat) (now : Z) (outcome : JS.Result GeminiService.Response),
    store_inv (initial cs cur) ->
    NoDup (readings events) ->
    (forall r, In r (readings events) -> ~ In (JS.toString r) (ids cs)) ->
    let st := run events (initial cs cur) in
    let st' := step st (Settle k now outcome) in
    forall c2, In c2 (chats st') ->
      exists c1,
        In c1 (chats st) /\
        ChatSession.id c2 = ChatSession.id c1 /\
        ChatSession.title c2 = ChatSession.title c1 /\
        ChatSession.createdAt c2 = ChatSession.createdAt c1.
Proof.
  intros cs cur events k now outcome Hinv Hclock Hfresh st st' c2 Hc2.
  assert (H : pending_inv [] st).
  { unfold st, run. apply pending_inv_fold, pending_inv_render.
    split; [exact Hclock|]. split; [exact Hinv|].
    split; [exact Hfresh|].
    split; [intros r call _ [] | intros call c []]. }
  destruct H as (_ & _ & _ & _ & Hfull).
  unfold st', step, render, handle in Hc2.
  cbn [chats set_chats] in Hc2. apply (proj1 (In_sort_desc _ _)) in Hc2.
  unfold sendMessage_resume in Hc2.
  destruct (nth_error (awaiting st) k) as [call|] eqn:Hk;
    [|exists c2; now repeat split].
  apply nth_error_In in Hk.
  destruct (GeminiService.generateMathResponse _ _ _ _) as [reply|err];
    cbn [chats set_chats set_isTyping set_awaiting] in Hc2;
    apply in_map_iff in Hc2; destruct Hc2 as (c1 & <- & Hc1);
    exists c1; (split; [exact Hc1|]).
  - unfold append_reply.
    destruct (has_id (activeChatId call) c1) eqn:E; [|repeat split].
    cbn. repeat split.
    destruct (ChatSession.messages c1) eqn:M; [|reflexivity].
    exfalso. apply (Hfull call c1 Hk Hc1); [|exact M].
    unfold has_id in E. now apply String.eqb_eq in E.
  - unfold append_error. now destruct (has_id (activeChatId call) c1).
Qed.

(** A session opened with New Chat keeps the title it was created with
    after its first question is answered. *)
Lemma reply_never_retitles_witness :
  let events := [NewChat 1000; SetInputText "Integrate x^2"; Send 2000] in
  let answer := GeminiService.mkResponse None (Some "x^3/3 + C") in
  let st := run events (initial [] None) in
  let st' := step st (Settle 0 3000 (JS.Ok answer)) in
  map ChatSession.title (chats st') = ["New Calculation"] /\
  map (fun c => List.length (ChatSession.messages c)) (chats st') = [2%nat] /\
  forall c2, In c2 (chats st') ->
    exists c1,
      In c1 (chats st) /\
      ChatSession.id c2 = ChatSession.id c1 /\
      ChatSession.title c2 = ChatSession.title c1 /\
      ChatSession.createdAt c2 = ChatSession.createdAt c1.
Proof.
  intros events answer st st'.
  split; [vm_compute; reflexivity|]. split; [vm_compute; reflexivity|].
  apply (reply_never_retitles [] None events 0 3000 (JS.Ok answer)).
  - exact I.
  - repeat constructor; cbn; intros H;
      repeat (destruct H as [H | H]; [discriminate|]); exact H.
  - intros r _ [].
Defined.

(** Where a clock reading comes twice the title can change: the session of
    a suspended submit is deleted and a session is created at the reading
    of the submit; the reply finds that session, empty, under the id it
    holds and titles it with the question. *)
Lemma reused_reading_retitles :
  let events := [SetInputText "2+2"; Send 1000; DeleteChat "1000";
                 NewChat 1000] in
  let answer := GeminiService.mkResponse None (Some "4") in
  let st := run events (initial [] None) in
  map ChatSession.title (chats st) = ["New Calculation"] /\
  map ChatSession.title (chats (step st (Settle 0 2000 (JS.Ok answer)))) =
    ["2+2"].
Proof. vm_compute. split; reflexivity. Qed.

(** *** The order of the history list *)

Lemma insert_desc_first x l :
  (forall y, In y l -> ChatSession.lastModified y <= ChatSession.lastModified x) ->
  insert_desc x l = x :: l.
Proof.
  destruct l as [|y l]; [reflexivity|]. intros H. cbn.
  destruct (Z.leb_spec (ChatSession.lastModified y) (ChatSession.lastModified x));
    [reflexivity|].
  specialize (H y (or_introl eq_refl)). lia.
Qed.

Lemma sort_bumped target m now c :
  forall l,
    recent_first l -> NoDup (ids l) -> In c l -> ChatSession.id c = target ->
    (forall x, In x l -> ChatSession.lastModified x < now) ->
    sort_desc (map (append_message target m now) l) =
      with_message m now c :: remove_id target l.
Proof.
  intros l Hs Hids Hin Hc Hnow. subst target.
  induction l as [|x l IH]; [destruct Hin|].
  unfold recent_first in Hs. inversion Hs as [|? ? Hl Hx]; subst.
  unfold ids in Hids. cbn in Hids. inversion Hids as [|? ? Hfresh Hnd]; subst.
  rewrite Forall_forall in Hx.
  cbn [map sort_desc].
  assert (Hx_id : has_id (ChatSession.id c) x = true -> x = c).
  { intros E. unfold has_id in E. apply String.eqb_eq in E.
    destruct Hin as [Hin | Hin]; [exact Hin|].
    exfalso. apply Hfresh. rewrite E. now apply in_map. }
  destruct (has_id (ChatSession.id c) x) eqn:E.
  - rewrite (Hx_id eq_refl) in *.
    assert (Habsent : forall y, In y l -> ChatSession.id y <> ChatSession.id c).
    { intros y Hy Ey. apply Hfresh. rewrite <- Ey. now apply in_map. }
    rewrite map_fixed.
    + rewrite (sort_desc_fixpoint l Hl). unfold append_message. rewrite E.
      rewrite insert_desc_first.
      * unfold remove_id at 1. cbn [filter]. rewrite E. cbn [negb].
        fold (remove_id (ChatSession.id c) l).
        now rewrite (remove_id_absent _ _ Habsent).
      * intros y Hy. cbn. specialize (Hnow y (or_intror Hy)). lia.
    + intros y Hy. unfold append_message, has_id.
      destruct (String.eqb_spec (ChatSession.id y) (ChatSession.id c)) as [Ey|_];
        [now destruct (Habsent y Hy) | reflexivity].
  - assert (Hin' : In c l).
    { destruct Hin as [-> | Hin]; [|exact Hin].
      unfold has_id in E. now rewrite String.eqb_refl in E. }
    rewrite (IH Hl Hnd Hin' (fun y Hy => Hnow y (or_intror Hy))).
    unfold append_message at 1. rewrite E.
    cbn [insert_desc with_message ChatSession.lastModified].
    destruct (Z.leb_spec now (ChatSession.lastModified x)) as [Hle|_];
      [specialize (Hnow x (or_introl eq_refl)); lia|].
    f_equal. rewrite insert_desc_first.
    + unfold remove_id at 2. cbn [filter]. now rewrite E.
    + intros y Hy. apply In_remove_id in Hy. destruct Hy as [Hy _].
      exact (Hx y Hy).
Qed.

(** X13. The history list after activity, for a clock that has moved on
    since the last change of every session.  [New Chat] puts the new
    session first, before the others in their order, and makes it active.
    A submit in the active session moves that session to the first place,
    with the user message appended, and leaves the others in their order. *)
Theorem latest_activity_is_listed_first :
  forall (st : State) (now : Z),
    recent_first (chats st) ->
    (forall x, In x (chats st) -> ChatSession.lastModified x < now) ->
    (chats (step st (NewChat now)) =
       ChatSession.mk (JS.toString now) "New Calculation" [] now now :: chats st /\
     currentChatId (step st (NewChat now)) = Some (JS.toString now)) /\
    (forall c,
       NoDup (ids (chats st)) -> In c (chats st) ->
       currentChatId st = Some (ChatSession.id c) ->
       ChatSession.id c <> EmptyString ->
       isTyping st = false -> has_input st ->
       chats (step st (Send now)) =
         with_message (userMessage now st) now c
         :: remove_id (ChatSession.id c) (chats st) /\
       currentChatId (step st (Send now)) = Some (ChatSession.id c)).
Proof.
  intros st now Hs Hnow. split.
  - split; [|reflexivity].
    unfold step, render, handle, startNewChat. cbn [chats set_chats set_currentChatId sort_desc].
    rewrite (sort_desc_fixpoint _ Hs).
    apply insert_desc_first. intros y Hy. cbn. specialize (Hnow y Hy). lia.
  - intros c Hids Hin Hcur Hid Hidle Hinput.
    destruct (sendMessage_shape now st Hidle Hinput)
      as (active & sessions & _ & Hchats & _ & Hactive).
    destruct (Hactive _ Hcur Hid) as [-> ->].
    split.
    + unfold step, render, handle. cbn [chats set_chats]. rewrite Hchats.
      now apply sort_bumped.
    + unfold step, render, handle, sendMessage.
      rewrite (has_input_guard st Hinput), Hidle, Hcur.
      destruct (ChatSession.id c); [congruence | cbn; exact Hcur].
Qed.

(** The older of two sessions is active; a question asked in it moves it
    above the newer one. *)
Lemma latest_activity_is_listed_first_witness :
  let older := ChatSession.mk "1" "first" [] 1 1 in
  let newer := ChatSession.mk "2" "second" [] 2 2 in
  let st := set_inputText "2+2" (initial [newer; older] (Some "1")) in
  ids (chats (step st (NewChat 1000))) = ["1000"; "2"; "1"] /\
  ids (chats (step st (Send 1000))) = ["1"; "2"] /\
  currentChatId (step st (Send 1000)) = Some "1".
Proof.
  intros older newer st.
  assert (Hsorted : recent_first (chats st)).
  { repeat constructor. unfold not_older. cbn. lia. }
  assert (Hnow : forall x, In x (chats st) -> ChatSession.lastModified x < 1000).
  { intros x [<- | [<- | []]]; cbn; lia. }
  destruct (latest_activity_is_listed_first st 1000 Hsorted Hnow)
    as [[Hnew _] Hsend].
  split; [rewrite Hnew; vm_compute; reflexivity|].
  destruct (Hsend older) as [Hchats Hcur].
  - repeat constructor; cbn; intros H;
      repeat (destruct H as [H | H]; [discriminate|]); exact H.
  - right. now left.
  - reflexivity.
  - discriminate.
  - reflexivity.
  - left. vm_compute. discriminate.
  - split; [rewrite Hchats; vm_compute; reflexivity | exact Hcur].
Defined.

End ControllerProperties.

(* ===================================================================== *)
(** ** How the three patterns of the renderer match *)
(* ===================================================================== *)

Module MatcherFacts.
Import RegExp MathMarkdown RegExpFacts Passes.

Lemma flat_map_nil {A B} (g : A -> list B) l :
  (forall x, In x l -> g x = []) -> flat_map g l = [].
Proof.
  induction l as [|x l IH]; intros H; cbn; [reflexivity|].
  rewrite (H x (or_introl eq_refl)), IH; [reflexivity|].
  intros y Hy. apply H. now right.
Qed.

Lemma flat_map_of_map {A B C} (g : B -> list C) (h : A -> B) l :
  flat_map g (map h l) = flat_map (fun x => g (h x)) l.
Proof. induction l as [|x l IH]; cbn; [reflexivity | now rewrite IH]. Qed.

Lemma map_of_flat_map {A B C} (h : B -> C) (g : A -> list B) l :
  map h (flat_map g l) = flat_map (fun x => map h (g x)) l.
Proof.
  induction l as [|x l IH]; cbn; [reflexivity|]. now rewrite map_app, IH.
Qed.

(** *** A pattern without [^] matches alike at every index *)

Lemma eat_shift d st ok : eat (shift d st) ok = map (shift d) (eat st ok).
Proof.
  unfold eat, shift. cbn. destruct (rest st) as [|c s]; [reflexivity|].
  destruct (ok c); reflexivity.
Qed.

Lemma star_shift d greedy step :
  (forall st, step (shift d st) = map (shift d) (step st)) ->
  forall fuel st,
    star greedy step fuel (shift d st) = map (shift d) (star greedy step fuel st).
Proof.
  intros Hstep. induction fuel as [|fuel IH]; intros st; [reflexivity|].
  cbn [star]. rewrite Hstep, flat_map_of_map.
  assert (E : flat_map
                (fun x =>
                   if (String.length (rest (shift d x))
                       <? String.length (rest (shift d st)))%nat
                   then star greedy step fuel (shift d x) else [])
                (step st) =
              map (shift d)
                (flat_map
                   (fun st' =>
                      if (String.length (rest st') <? String.length (rest st))%nat
                      then star greedy step fuel st' else [])
                   (step st))).
  { rewrite map_of_flat_map. apply flat_map_ext. intros x. cbn [shift rest].
    destruct (_ <? _)%nat; [apply IH | reflexivity]. }
  rewrite E. destruct greedy; [now rewrite map_app | reflexivity].
Qed.

Lemma matches_shift r :
  bol_free r = true ->
  forall d st, matches r (shift d st) = map (shift d) (matches r st).
Proof.
  induction r as [c|f|r1 IH1 r2 IH2|g r IH|r IH|]; cbn [bol_free matches];
    intros H d st.
  - apply eat_shift.
  - apply eat_shift.
  - apply andb_true_iff in H. destruct H as [H1 H2].
    rewrite (IH1 H1), flat_map_of_map, map_of_flat_map.
    apply flat_map_ext. intros x. apply (IH2 H2).
  - apply (star_shift d g (matches r)). intros x. apply (IH H).
  - rewrite (IH H), !map_map. apply map_ext. intros x.
    unfold shift, consumed. cbn. do 3 f_equal. lia.
  - discriminate.
Qed.

Lemma exec_at_shift r :
  bol_free r = true -> forall i s, exec_at r i s = exec_at r 0 s.
Proof.
  intros H i s. unfold exec_at.
  change (mkMState i s None) with (shift i (mkMState 0 s None)).
  rewrite (matches_shift r H).
  destruct (matches r (mkMState 0 s None)) as [|st l]; [reflexivity|].
  cbn. do 2 f_equal. lia.
Qed.

Lemma replace_from_shift r f :
  bol_free r = true ->
  forall s skip i, replace_from r f skip i s = replace_from r f skip 0 s.
Proof.
  intros H. induction s as [|c s IH]; intros skip i.
  - destruct skip; cbn [replace_from]; [|reflexivity].
    now rewrite (exec_at_shift r H i).
  - destruct skip as [|skip]; cbn [replace_from].
    + rewrite (exec_at_shift r H i).
      destruct (exec_at r 0 (String c s)) as [[len cap]|].
      * destruct (f _ cap); [|reflexivity]. cbn [JS.bind].
        destruct len; now rewrite (IH _ (S i)), (IH _ 1%nat).
      * now rewrite (IH _ (S i)), (IH _ 1%nat).
    + now rewrite (IH _ (S i)), (IH _ 1%nat).
Qed.

(** *** Strings *)

Lemma lacks_every c s : lacks c s = every (fun d => negb (Ascii.eqb c d)) s.
Proof. induction s as [|d s IH]; cbn; [reflexivity | now rewrite IH]. Qed.

Lemma every_impl (f g : ascii -> bool) s :
  (forall c, f c = true -> g c = true) -> every f s = true -> every g s = true.
Proof.
  intros H. induction s as [|c s IH]; cbn; [reflexivity|].
  intros E. apply andb_true_iff in E. destruct E as [Ec Es].
  now rewrite (H c Ec), (IH Es).
Qed.

Lemma every_and (f g : ascii -> bool) s :
  every f s = true -> every g s = true ->
  every (fun c => f c && g c) s = true.
Proof.
  induction s as [|c s IH]; cbn; [reflexivity|].
  intros E1 E2. apply andb_true_iff in E1. apply andb_true_iff in E2.
  destruct E1 as [-> E1], E2 as [-> E2]. cbn. now apply IH.
Qed.

Lemma every_app f a b : every f (a ++ b) = every f a && every f b.
Proof.
  induction a as [|c a IH]; cbn; [reflexivity|]. now rewrite IH, andb_assoc.
Qed.

Lemma length_app_string (a b : string) :
  String.length (a ++ b) = (String.length a + String.length b)%nat.
Proof. induction a as [|c a IH]; cbn; [reflexivity | now rewrite IH]. Qed.

Lemma substring_from_all body tail :
  JS.substring_from (String.length body) (body ++ tail) = tail.
Proof.
  induction body as [|c body IH]; cbn; [|exact IH]. now destruct tail.
Qed.

Lemma substring_from_inside f body tail :
  every f body = true ->
  forall k, (k < String.length body)%nat ->
    exists d r, JS.substring_from k (body ++ tail) = String d r /\ f d = true.
Proof.
  induction body as [|c body IH]; cbn; intros E k Hk; [lia|].
  apply andb_true_iff in E. destruct E as [Ec Eb].
  destruct k as [|k]; cbn.
  - now exists c, (body ++ tail)%string.
  - apply (IH Eb). lia.
Qed.

Lemma substring_prefix body tail :
  substring 0 (String.length body) (body ++ tail) = body.
Proof. induction body as [|c body IH]; cbn; [now destruct tail | now rewrite IH]. Qed.

(** *** The states of [c*] for a character class *)

Lemma adv_zero st : adv st 0 = st.
Proof. destruct st as [i s cap]. unfold adv. cbn. f_equal. lia. Qed.

Lemma adv_succ i c s cap k :
  adv (mkMState i (String c s) cap) (S k) = adv (mkMState (S i) s cap) k.
Proof. unfold adv. cbn. f_equal. lia. Qed.

Lemma eat_hit i c s cap (f : ascii -> bool) :
  f c = true -> eat (mkMState i (String c s) cap) f = [mkMState (S i) s cap].
Proof. intros H. unfold eat. cbn. now rewrite H. Qed.

Lemma eat_miss i s cap (f : ascii -> bool) :
  match s with EmptyString => True | String c _ => f c = false end ->
  eat (mkMState i s cap) f = [].
Proof. intros H. unfold eat. cbn. destruct s; [reflexivity | now rewrite H]. Qed.

Lemma adv_seq i c s cap n :
  map (adv (mkMState i (String c s) cap)) (seq 0 (S n)) =
  mkMState i (String c s) cap :: map (adv (mkMState (S i) s cap)) (seq 0 n).
Proof.
  change (seq 0 (S n)) with (0%nat :: seq 1 n).
  rewrite <- seq_shift. cbn [map]. rewrite adv_zero, map_map. f_equal.
  apply map_ext. intros k. apply adv_succ.
Qed.

(** Lazy: the states come shortest first; the first ones are those inside
    a run of characters of the class. *)
Lemma star_lazy_prefix f step :
  (forall st, step st = eat st f) ->
  forall body tail i cap fuel,
    every f body = true ->
    (String.length (body ++ tail) < fuel)%nat ->
    exists more,
      star false step fuel (mkMState i (body ++ tail) cap) =
      map (adv (mkMState i (body ++ tail) cap)) (seq 0 (S (String.length body)))
      ++ more.
Proof.
  intros Hstep. induction body as [|c body IH]; intros tail i cap fuel E Hfuel;
    (destruct fuel as [|fuel]; [lia|]); cbn [star].
  - eexists. cbn [String.length seq map app]. rewrite adv_zero. reflexivity.
  - cbn in E. apply andb_true_iff in E. destruct E as [Ec Eb].
    rewrite Hstep. cbn [append]. rewrite (eat_hit _ _ _ _ f Ec).
    cbn [flat_map rest String.length].
    replace (String.length (body ++ tail) <? S (String.length (body ++ tail)))%nat
      with true by (symmetry; apply Nat.ltb_lt; lia).
    destruct (IH tail (S i) cap fuel Eb) as [more Hmore];
      [cbn in Hfuel; lia|].
    rewrite Hmore. exists more. rewrite app_nil_r.
    cbn [String.length]. now rewrite (adv_seq i c (body ++ tail) cap).
Qed.

(** Greedy: the states come longest first, from the end of the run of
    characters of the class down to its start. *)
Lemma star_greedy_exact f step :
  (forall st, step st = eat st f) ->
  forall body tail i cap fuel,
    every f body = true ->
    match tail with EmptyString => True | String c _ => f c = false end ->
    (String.length (body ++ tail) < fuel)%nat ->
    star true step fuel (mkMState i (body ++ tail) cap) =
    map (adv (mkMState i (body ++ tail) cap))
        (rev (seq 0 (S (String.length body)))).
Proof.
  intros Hstep. induction body as [|c body IH];
    intros tail i cap fuel E Htail Hfuel;
    (destruct fuel as [|fuel]; [lia|]); cbn [star].
  - rewrite Hstep. cbn [append]. rewrite (eat_miss _ _ _ f Htail).
    cbn. now rewrite adv_zero.
  - cbn in E. apply andb_true_iff in E. destruct E as [Ec Eb].
    rewrite Hstep. cbn [append]. rewrite (eat_hit _ _ _ _ f Ec).
    cbn [flat_map rest String.length].
    replace (String.length (body ++ tail) <? S (String.length (body ++ tail)))%nat
      with true by (symmetry; apply Nat.ltb_lt; lia).
    rewrite (IH tail (S i) cap fuel Eb Htail) by (cbn in Hfuel; lia).
    rewrite app_nil_r. cbn [String.length].
    rewrite !map_rev, (adv_seq i c (body ++ tail) cap).
    cbn [rev]. reflexivity.
Qed.

(** The first success of a continuation over the states of a lazy run. *)
Lemma first_success {A B} (K : A -> list B) (h : nat -> A) n more :
  (forall k, (k < n)%nat -> K (h k) = []) ->
  flat_map K (map h (seq 0 (S n)) ++ more) = K (h n) ++ flat_map K more.
Proof.
  intros Hfail. rewrite seq_S, map_app, <- app_assoc, !flat_map_app.
  rewrite flat_map_nil.
  - cbn. now rewrite app_nil_r.
  - intros x Hx. apply in_map_iff in Hx. destruct Hx as (k & <- & Hk).
    apply in_seq in Hk. apply Hfail. lia.
Qed.

(** The only success of a continuation over the states of a greedy run
    that it accepts at the end alone. *)
Lemma last_success {A B} (K : A -> list B) (h : nat -> A) n :
  (forall k, (k < n)%nat -> K (h k) = []) ->
  flat_map K (map h (rev (seq 0 (S n)))) = K (h n).
Proof.
  intros Hfail. rewrite seq_S, rev_app_distr. cbn.
  rewrite flat_map_nil; [apply app_nil_r|].
  intros x Hx. apply in_map_iff in Hx. destruct Hx as (k & <- & Hk).
  apply in_rev in Hk. apply in_seq in Hk. apply Hfail. lia.
Qed.

(** *** Inline math *)

Lemma exec_inline_math i c tex post :
  every not_dollar_newline (String c tex) = true ->
  exec_at inline_math i ("$" ++ String c tex ++ "$" ++ post) =
    Some (String.length tex + 3, Some (String c tex))%nat.
Proof.
  intros E. cbn in E. apply andb_true_iff in E. destruct E as [Ec Et].
  unfold exec_at, inline_math, Plus. cbn [matches append].
  rewrite (eat_hit _ _ _ _ (Ascii.eqb "$") (Ascii.eqb_refl _)). cbn [flat_map].
  rewrite app_nil_r.
  rewrite (eat_hit _ _ _ _ not_dollar_newline Ec). cbn [flat_map].
  cbn [rest].
  destruct (star_lazy_prefix not_dollar_newline
              (fun st => eat st not_dollar_newline) (fun _ => eq_refl)
              tex (String "$" post) (S (S i)) None
              (S (String.length (tex ++ String "$" post))) Et (Nat.lt_succ_diag_r _))
    as [more ->].
  rewrite app_nil_r, flat_map_of_map, first_success.
  - unfold adv. cbn [rest index capture]. rewrite substring_from_all.
    unfold eat at 1. cbn [rest]. rewrite Ascii.eqb_refl. cbn [app index capture].
    unfold consumed. cbn [index rest].
    replace (S (S i) + String.length tex - S i)%nat with (S (String.length tex)) by lia.
    cbn [substring]. rewrite substring_prefix. do 2 f_equal. lia.
  - intros k Hk. unfold adv. cbn [rest index capture].
    destruct (substring_from_inside not_dollar_newline tex (String "$" post) Et k Hk)
      as (d & r & -> & Hd).
    apply eat_miss. unfold not_dollar_newline in Hd.
    apply negb_true_iff, orb_false_iff in Hd. destruct Hd as [Hd _].
    now rewrite Ascii.eqb_sym.
Qed.

Lemma replace_from_pass_match r f :
  forall m s i,
    replace_from r f (String.length m) i (m ++ s) =
    replace_from r f 0 (i + String.length m) s.
Proof.
  induction m as [|c m IH]; intros s i; cbn [String.length append].
  - now rewrite Nat.add_0_r.
  - cbn [replace_from]. rewrite IH. f_equal. lia.
Qed.

(** [replace] at a match that is not empty: the replacement, then the
    replacement of what follows the match. *)
Lemma replace_match_then r f m s cap :
  bol_free r = true ->
  m <> EmptyString ->
  exec_at r 0 (m ++ s) = Some (String.length m, cap) ->
  replace r f (m ++ s) =
    (replacement <- f m cap ;;
     tail <- replace r f s ;;
     JS.Ok (replacement ++ tail)%string).
Proof.
  intros Hbol Hne Hexec. destruct m as [|c m]; [congruence|].
  unfold replace. cbn [append String.length] in *.
  rewrite (replace_from_at_match r f 0 c (m ++ s) (String.length m) cap Hexec).
  cbn [substring]. rewrite substring_prefix.
  rewrite replace_from_pass_match, (replace_from_shift r f Hbol s 0).
  reflexivity.
Qed.

(** [replace] over a stretch where the pattern matches nowhere: the
    stretch as it is, then the replacement of what follows. *)
Lemma replace_plain_then r f :
  bol_free r = true ->
  forall pre s,
    (forall k, (k < String.length pre)%nat ->
       exec_at r 0 (JS.substring_from k (pre ++ s)) = None) ->
    replace r f (pre ++ s) =
      (tail <- replace r f s ;; JS.Ok (pre ++ tail)%string).
Proof.
  intros Hbol. unfold replace.
  induction pre as [|c pre IH]; intros s Hfail; cbn [append].
  - now destruct (replace_from r f 0 0 s).
  - cbn [replace_from].
    pose proof (Hfail 0%nat ltac:(cbn; lia)) as H0. cbn in H0. rewrite H0.
    rewrite (replace_from_shift r f Hbol _ 0 1), IH.
    + now destruct (replace_from r f 0 0 s).
    + intros k Hk. apply (Hfail (S k)). cbn. lia.
Qed.

Lemma bind_ok {A} (x : JS.Result A) : (a <- x ;; JS.Ok a) = x.
Proof. now destruct x. Qed.

Lemma plain_lacking c r pre s :
  lacks c pre = true ->
  forall k, (k < String.length pre)%nat ->
    exec_at (Seq (Char c) r) 0 (JS.substring_from k (pre ++ s)) = None.
Proof.
  intros H k Hk. rewrite lacks_every in H.
  destruct (substring_from_inside _ pre s H k Hk) as (d & t & -> & Hd).
  apply no_match_without_first_char. now apply negb_true_iff in Hd.
Qed.

(** Lazy, to the end of the run. *)
Lemma star_lazy_exact f step :
  (forall st, step st = eat st f) ->
  forall body tail i cap fuel,
    every f body = true ->
    match tail with EmptyString => True | String c _ => f c = false end ->
    (String.length (body ++ tail) < fuel)%nat ->
    star false step fuel (mkMState i (body ++ tail) cap) =
    map (adv (mkMState i (body ++ tail) cap)) (seq 0 (S (String.length body))).
Proof.
  intros Hstep. induction body as [|c body IH];
    intros tail i cap fuel E Htail Hfuel;
    (destruct fuel as [|fuel]; [lia|]); cbn [star].
  - rewrite Hstep. cbn [append]. rewrite (eat_miss _ _ _ f Htail).
    cbn. now rewrite adv_zero.
  - cbn in E. apply andb_true_iff in E. destruct E as [Ec Eb].
    rewrite Hstep. cbn [append]. rewrite (eat_hit _ _ _ _ f Ec).
    cbn [flat_map rest String.length].
    replace (String.length (body ++ tail) <? S (String.length (body ++ tail)))%nat
      with true by (symmetry; apply Nat.ltb_lt; lia).
    rewrite (IH tail (S i) cap fuel Eb Htail) by (cbn in Hfuel; lia).
    rewrite app_nil_r. cbn [String.length].
    now rewrite (adv_seq i c (body ++ tail) cap).
Qed.

Lemma ndn_of_lacks s :
  lacks "$" s = true -> lacks "010" s = true ->
  every not_dollar_newline s = true.
Proof.
  induction s as [|c s IH]; cbn [lacks every]; [reflexivity|]. intros H1 H2.
  apply andb_true_iff in H1. apply andb_true_iff in H2.
  destruct H1 as [H1 H1'], H2 as [H2 H2'].
  rewrite (IH H1' H2'), andb_true_r. unfold not_dollar_newline.
  apply negb_true_iff in H1. apply negb_true_iff in H2.
  now rewrite (Ascii.eqb_sym c "$"), (Ascii.eqb_sym c "010"), H1, H2.
Qed.

(** No inline math across a line feed. *)
Lemma exec_inline_math_line_feed i a rest0 :
  every not_dollar_newline a = true ->
  exec_at inline_math i ("$" ++ a ++ String "010" rest0) = None.
Proof.
  intros E. unfold exec_at, inline_math, Plus. cbn [matches append].
  rewrite (eat_hit _ _ _ _ (Ascii.eqb "$") (Ascii.eqb_refl _)). cbn [flat_map].
  rewrite app_nil_r.
  destruct a as [|c a].
  - cbn [append]. rewrite eat_miss by reflexivity. reflexivity.
  - cbn in E. apply andb_true_iff in E. destruct E as [Ec Ea].
    cbn [append]. rewrite (eat_hit _ _ _ _ not_dollar_newline Ec).
    cbn [flat_map rest].
    rewrite (star_lazy_exact not_dollar_newline
               (fun st => eat st not_dollar_newline) (fun _ => eq_refl)
               a (String "010" rest0) (S (S i)) None _ Ea eq_refl
               (Nat.lt_succ_diag_r _)).
    rewrite app_nil_r, flat_map_of_map, flat_map_nil; [reflexivity|].
    intros st Hst. apply in_map_iff in Hst. destruct Hst as (k & <- & Hk).
    apply in_seq in Hk. unfold adv. cbn [rest index capture].
    apply eat_miss.
    destruct (Nat.eq_dec k (String.length a)) as [-> | Hne].
    + now rewrite substring_from_all.
    + destruct (substring_from_inside not_dollar_newline a (String "010" rest0) Ea k)
        as (d & r & -> & Hd); [lia|].
      unfold not_dollar_newline in Hd.
      apply negb_true_iff, orb_false_iff in Hd. destruct Hd as [Hd _].
      now rewrite Ascii.eqb_sym.
Qed.

Lemma replace_inline_math f c tex post :
  every not_dollar_newline (String c tex) = true ->
  replace inline_math f ("$" ++ String c tex ++ "$" ++ post) =
    (replacement <- f ("$" ++ String c tex ++ "$")%string (Some (String c tex)) ;;
     tail <- replace inline_math f post ;;
     JS.Ok (replacement ++ tail)%string).
Proof.
  intros E.
  assert (Eq : (("$" ++ String c tex ++ "$") ++ post =
                "$" ++ String c tex ++ "$" ++ post)%string).
  { cbn [append]. now rewrite PersistenceFacts.string_app_assoc. }
  rewrite <- Eq. apply replace_match_then; [reflexivity | discriminate|].
  rewrite Eq, (exec_inline_math 0 c tex post E). do 2 f_equal.
  cbn [append String.length]. rewrite length_app_string. cbn. lia.
Qed.

(** *** Bold *)

Lemma unpaired_inside c body s :
  unpaired c body = true ->
  forall k, (k < String.length body)%nat ->
    exists d r,
      JS.substring_from k (body ++ s) = String d r /\
      (Ascii.eqb c d = false \/
       exists e r', r = String e r' /\ Ascii.eqb c e = false).
Proof.
  induction body as [|d body IH]; cbn [unpaired String.length]; intros H k Hk;
    [lia|].
  apply andb_true_iff in H. destruct H as [Hd Hb].
  destruct k as [|k].
  - exists d, (body ++ s)%string. split; [reflexivity|].
    destruct (Ascii.eqb c d); [|now left]. right.
    destruct body as [|e body]; [discriminate|].
    exists e, (body ++ s)%string. split; [reflexivity|].
    now apply negb_true_iff.
  - cbn [append JS.substring_from]. apply (IH Hb). lia.
Qed.

Lemma lacks_unpaired c s : lacks c s = true -> unpaired c s = true.
Proof.
  induction s as [|d s IH]; cbn [lacks unpaired]; [reflexivity|].
  intros H. apply andb_true_iff in H. destruct H as [Hd Hs].
  apply negb_true_iff in Hd. now rewrite Hd, (IH Hs).
Qed.

(** A pattern that starts with twice the same character does not match
    where that character stands alone. *)
Lemma no_match_unpaired c r body s :
  unpaired c body = true ->
  forall k, (k < String.length body)%nat ->
    exec_at (Seq (Char c) (Seq (Char c) r)) 0 (JS.substring_from k (body ++ s))
    = None.
Proof.
  intros H k Hk.
  destruct (unpaired_inside c body s H k Hk) as (d & t & -> & Hd).
  unfold exec_at. cbn [matches].
  destruct (Ascii.eqb c d) eqn:E.
  - destruct Hd as [Hd | (e & t' & -> & He)]; [discriminate|].
    rewrite (eat_hit _ _ _ _ (Ascii.eqb c) E). cbn [flat_map].
    rewrite (eat_miss _ _ _ (Ascii.eqb c)) by exact He. reflexivity.
  - rewrite (eat_miss _ _ _ (Ascii.eqb c)) by exact E. reflexivity.
Qed.

Lemma pair_fails_inside c body s i cap :
  unpaired c body = true ->
  forall k, (k < String.length body)%nat ->
    matches (Seq (Char c) (Char c))
      (mkMState i (JS.substring_from k (body ++ s)) cap) = [].
Proof.
  intros H k Hk.
  destruct (unpaired_inside c body s H k Hk) as (d & t & -> & Hd).
  cbn [matches].
  destruct (Ascii.eqb c d) eqn:E.
  - destruct Hd as [Hd | (e & t' & -> & He)]; [discriminate|].
    rewrite (eat_hit _ _ _ _ (Ascii.eqb c) E). cbn [flat_map].
    rewrite (eat_miss _ _ _ (Ascii.eqb c)) by exact He. reflexivity.
  - rewrite (eat_miss _ _ _ (Ascii.eqb c)) by exact E. reflexivity.
Qed.

Lemma exec_bold i body post :
  every dot body = true -> unpaired "*" body = true ->
  exec_at bold i ("**" ++ body ++ "**" ++ post) =
    Some (String.length body + 4, Some body)%nat.
Proof.
  intros Edot Estar. unfold exec_at, bold. cbn [matches append].
  rewrite (eat_hit _ _ _ _ (Ascii.eqb "*") (Ascii.eqb_refl _)). cbn [flat_map].
  rewrite (eat_hit _ _ _ _ (Ascii.eqb "*") (Ascii.eqb_refl _)). cbn [flat_map].
  rewrite !app_nil_r. cbn [rest].
  destruct (star_lazy_prefix dot (fun st => eat st dot) (fun _ => eq_refl)
              body (String "*" (String "*" post)) (S (S i)) None
              (S (String.length (body ++ String "*" (String "*" post))))
              Edot (Nat.lt_succ_diag_r _))
    as [more ->].
  rewrite flat_map_of_map, first_success.
  - unfold adv. cbn [rest index capture]. rewrite substring_from_all.
    rewrite (eat_hit _ _ _ _ (Ascii.eqb "*") (Ascii.eqb_refl _)). cbn [flat_map].
    rewrite (eat_hit _ _ _ _ (Ascii.eqb "*") (Ascii.eqb_refl _)).
    cbn [app index capture]. unfold consumed. cbn [index rest].
    replace (S (S i) + String.length body - S (S i))%nat
      with (String.length body) by lia.
    rewrite substring_prefix. do 2 f_equal. lia.
  - intros k Hk. unfold adv. cbn [rest index capture].
    apply (pair_fails_inside "*" body _ _ _ Estar k Hk).
Qed.

Lemma replace_bold f body post :
  every dot body = true -> unpaired "*" body = true ->
  replace bold f ("**" ++ body ++ "**" ++ post) =
    (replacement <- f ("**" ++ body ++ "**")%string (Some body) ;;
     tail <- replace bold f post ;;
     JS.Ok (replacement ++ tail)%string).
Proof.
  intros Edot Estar.
  assert (Eq : (("**" ++ body ++ "**") ++ post =
                "**" ++ body ++ "**" ++ post)%string).
  { cbn [append]. now rewrite PersistenceFacts.string_app_assoc. }
  rewrite <- Eq. apply replace_match_then; [reflexivity | discriminate|].
  rewrite Eq, (exec_bold 0 body post Edot Estar). do 2 f_equal.
  cbn [append String.length]. rewrite length_app_string. cbn. lia.
Qed.

Lemma dot_of_lacks s :
  lacks "010" s = true -> lacks "013" s = true -> every dot s = true.
Proof.
  induction s as [|c s IH]; cbn [lacks every]; [reflexivity|]. intros H1 H2.
  apply andb_true_iff in H1. apply andb_true_iff in H2.
  destruct H1 as [H1 H1'], H2 as [H2 H2'].
  rewrite (IH H1' H2'), andb_true_r. unfold dot.
  apply negb_true_iff in H1. apply negb_true_iff in H2.
  now rewrite (Ascii.eqb_sym c "010"), (Ascii.eqb_sym c "013"), H1, H2.
Qed.

Lemma bold_pass_unpaired s : unpaired "*" s = true -> bold_pass s = JS.Ok s.
Proof.
  intros H. unfold bold_pass.
  pose proof (replace_plain_then bold
                (fun _ cap => JS.Ok ("<strong>" ++ group1 cap ++ "</strong>")%string)
                eq_refl s EmptyString) as E.
  rewrite append_empty_r in E. rewrite E.
  - cbn. now rewrite append_empty_r.
  - intros k Hk. rewrite <- (append_empty_r s) at 1.
    now apply no_match_unpaired.
Qed.

(** *** White space around a string *)

Lemma trimStart_split s :
  exists ws, s = (ws ++ JS.trimStart s)%string /\ every space ws = true.
Proof.
  induction s as [|c s (ws & E & Hws)]; cbn [JS.trimStart].
  - now exists EmptyString.
  - destruct (JS.is_space c) eqn:Ec.
    + exists (String c ws). cbn [append every]. split; [f_equal; exact E|].
      unfold space at 1. rewrite Ec. exact Hws.
    + now exists EmptyString.
Qed.

Lemma trimStart_head s :
  match JS.trimStart s with
  | EmptyString => True
  | String c _ => space c = false
  end.
Proof.
  induction s as [|c s IH]; cbn [JS.trimStart]; [exact I|].
  destruct (JS.is_space c) eqn:Ec; [exact IH | exact Ec].
Qed.

Lemma trimEnd_split s :
  exists ws, s = (JS.trimEnd s ++ ws)%string /\ every space ws = true.
Proof.
  induction s as [|c s (ws & E & Hws)]; cbn [JS.trimEnd].
  - now exists EmptyString.
  - destruct (JS.trimEnd s) as [|d t] eqn:Et.
    + destruct (JS.is_space c) eqn:Ec.
      * exists (String c s). cbn [append every]. split; [reflexivity|].
        unfold space at 1. rewrite Ec. cbn [append] in E. now rewrite E.
      * exists ws. cbn [append] in *. split; [f_equal; exact E | exact Hws].
    + exists ws. cbn [append] in *. split; [f_equal; exact E | exact Hws].
Qed.

(** A string whose [trimEnd] is not empty has, after its leading white
    space, one of its own characters, which is not white space. *)
Lemma trimStart_finds (P : ascii -> bool) s t :
  JS.trimEnd s <> EmptyString -> every P s = true ->
  exists d r,
    JS.trimStart (s ++ t) = String d r /\ P d = true /\ space d = false.
Proof.
  induction s as [|c s IH]; cbn [JS.trimEnd every append JS.trimStart];
    intros Hne HP; [congruence|].
  apply andb_true_iff in HP. destruct HP as [Pc Ps].
  destruct (JS.is_space c) eqn:Ec.
  - apply IH; [|exact Ps]. intros E. rewrite E in Hne. congruence.
  - now exists c, (s ++ t)%string.
Qed.

Lemma trimEnd_inside s :
  forall k, (k < String.length (JS.trimEnd s))%nat ->
    JS.trimEnd (JS.substring_from k s) <> EmptyString.
Proof.
  induction s as [|c s IH]; intros k Hk; [cbn in Hk; lia|].
  destruct k as [|k].
  - cbn [JS.substring_from]. intros E. rewrite E in Hk. cbn in Hk. lia.
  - cbn [JS.substring_from]. apply IH. cbn [JS.trimEnd] in Hk.
    destruct (JS.trimEnd s) as [|d t].
    + destruct (JS.is_space c); cbn in Hk; lia.
    + cbn [String.length] in *. lia.
Qed.

Lemma every_substring_from f s :
  every f s = true -> forall k, every f (JS.substring_from k s) = true.
Proof.
  induction s as [|c s IH]; intros H k.
  - destruct k; reflexivity.
  - destruct k as [|k]; [exact H|]. cbn [every JS.substring_from] in *.
    apply andb_true_iff in H. now apply IH.
Qed.

Lemma substring_from_app a b :
  forall k, (k <= String.length a)%nat ->
    JS.substring_from k (a ++ b) = (JS.substring_from k a ++ b)%string.
Proof.
  induction a as [|c a IH]; intros k Hk.
  - cbn in Hk. assert (k = 0%nat) as -> by lia. cbn. now destruct b.
  - destruct k as [|k]; [reflexivity|]. cbn. apply IH. cbn in Hk. lia.
Qed.

Lemma space_not c d : space d = true -> space c = false -> Ascii.eqb c d = false.
Proof.
  intros Hd Hc. destruct (Ascii.eqb_spec c d) as [->|]; [congruence | reflexivity].
Qed.

(** *** The end of a block: [\s*\$\$] *)

Lemma close_hit i ws post cap :
  every space ws = true ->
  matches (Seq (Star true (Class space)) (Seq (Char "$") (Char "$")))
    (mkMState i (ws ++ "$$" ++ post) cap) =
  [mkMState (i + String.length ws + 2) post cap].
Proof.
  intros Hws. cbn [matches append rest].
  rewrite (star_greedy_exact space (fun st => eat st space) (fun _ => eq_refl)
             ws (String "$" (String "$" post)) i cap _ Hws eq_refl
             (Nat.lt_succ_diag_r _)).
  rewrite (last_success
             (fun st => flat_map (fun st' => eat st' (Ascii.eqb "$"))
                                 (eat st (Ascii.eqb "$")))).
  - unfold adv. cbn [rest index capture]. rewrite substring_from_all.
    rewrite (eat_hit _ _ _ _ (Ascii.eqb "$") (Ascii.eqb_refl _)). cbn [flat_map].
    rewrite (eat_hit _ _ _ _ (Ascii.eqb "$") (Ascii.eqb_refl _)). cbn [app].
    do 2 f_equal. lia.
  - intros k Hk. unfold adv. cbn [rest index capture].
    destruct (substring_from_inside space ws (String "$" (String "$" post)) Hws k Hk)
      as (d & r & -> & Hd).
    rewrite (eat_miss _ _ _ (Ascii.eqb "$")); [reflexivity|].
    now apply space_not.
Qed.

Lemma close_miss i u cap :
  match JS.trimStart u with
  | EmptyString => True
  | String d _ => Ascii.eqb "$" d = false
  end ->
  matches (Seq (Star true (Class space)) (Seq (Char "$") (Char "$")))
    (mkMState i u cap) = [].
Proof.
  intros Hu. destruct (trimStart_split u) as (ws & E & Hws).
  pose proof (trimStart_head u) as Hhead.
  rewrite E. cbn [matches rest].
  rewrite (star_greedy_exact space (fun st => eat st space) (fun _ => eq_refl)
             ws (JS.trimStart u) i cap _ Hws Hhead (Nat.lt_succ_diag_r _)).
  apply flat_map_nil. intros st Hst.
  apply in_map_iff in Hst. destruct Hst as (k & <- & Hk).
  apply in_rev, in_seq in Hk. unfold adv. cbn [rest index capture].
  destruct (Nat.eq_dec k (String.length ws)) as [-> | Hne].
  - rewrite substring_from_all.
    rewrite (eat_miss _ _ _ (Ascii.eqb "$")); [reflexivity | exact Hu].
  - destruct (substring_from_inside space ws (JS.trimStart u) Hws k)
      as (d & r & -> & Hd); [lia|].
    rewrite (eat_miss _ _ _ (Ascii.eqb "$")); [reflexivity|].
    now apply space_not.
Qed.

Lemma every_any s : every any s = true.
Proof. induction s as [|c s IH]; [reflexivity | exact IH]. Qed.

Lemma every_trimStart f s : every f s = true -> every f (JS.trimStart s) = true.
Proof.
  induction s as [|c s IH]; cbn [JS.trimStart every]; [reflexivity|].
  intros H. destruct (JS.is_space c); [|exact H].
  apply andb_true_iff in H. now apply IH.
Qed.

Lemma matches_seq r1 r2 st :
  matches (Seq r1 r2) st = flat_map (matches r2) (matches r1 st).
Proof. reflexivity. Qed.

Lemma matches_char_hit c i s cap :
  matches (Char c) (mkMState i (String c s) cap) = [mkMState (S i) s cap].
Proof. apply eat_hit, Ascii.eqb_refl. Qed.

Lemma matches_greedy_class f body tail i cap :
  every f body = true ->
  match tail with EmptyString => True | String c _ => f c = false end ->
  matches (Star true (Class f)) (mkMState i (body ++ tail) cap) =
  map (adv (mkMState i (body ++ tail) cap)) (rev (seq 0 (S (String.length body)))).
Proof.
  intros Hb Ht. cbn [matches rest].
  apply (star_greedy_exact f (fun st => eat st f) (fun _ => eq_refl));
    [exact Hb | exact Ht | apply Nat.lt_succ_diag_r].
Qed.

Lemma matches_lazy_class f body tail i cap :
  every f body = true ->
  exists more,
    matches (Star false (Class f)) (mkMState i (body ++ tail) cap) =
    map (adv (mkMState i (body ++ tail) cap)) (seq 0 (S (String.length body)))
    ++ more.
Proof.
  intros Hb. cbn [matches rest].
  apply (star_lazy_prefix f (fun st => eat st f) (fun _ => eq_refl));
    [exact Hb | apply Nat.lt_succ_diag_r].
Qed.

Lemma flat_map_longest {A B} (K : A -> list B) (h : nat -> A) n :
  flat_map K (map h (rev (seq 0 (S n)))) =
  K (h n) ++ flat_map K (map h (rev (seq 0 n))).
Proof. rewrite seq_S, rev_app_distr. reflexivity. Qed.

(** The captured text and the end of a block: the capture stops where
    only white space is left before the closing dollars. *)
Lemma capture_then_close i core ws' post cap :
  every space ws' = true ->
  (forall k, (k < String.length core)%nat ->
     match JS.trimStart (JS.substring_from k
                           (core ++ ws' ++ "$$" ++ post)) with
     | EmptyString => True
     | String d _ => Ascii.eqb "$" d = false
     end) ->
  exists more,
    matches (Seq (Group (Star false (Class any)))
                 (Seq (Star true (Class space)) (Seq (Char "$") (Char "$"))))
      (mkMState i (core ++ ws' ++ "$$" ++ post) cap) =
    mkMState (i + String.length core + String.length ws' + 2) post (Some core)
    :: more.
Proof.
  intros Hws' Hmiss. rewrite matches_seq.
  change (matches (Group (Star false (Class any)))
            (mkMState i (core ++ ws' ++ "$$" ++ post) cap))
    with (map (fun st' =>
                 mkMState (index st') (rest st')
                   (Some (consumed (mkMState i (core ++ ws' ++ "$$" ++ post) cap) st')))
              (matches (Star false (Class any))
                 (mkMState i (core ++ ws' ++ "$$" ++ post) cap))).
  destruct (matches_lazy_class any core (ws' ++ "$$" ++ post) i cap (every_any core))
    as [more ->].
  rewrite flat_map_of_map, first_success.
  - unfold adv. cbn [index rest capture]. rewrite substring_from_all.
    rewrite (close_hit _ ws' post _ Hws'). cbn [app].
    eexists. f_equal. unfold consumed. cbn [index rest].
    replace (i + String.length core - i)%nat with (String.length core) by lia.
    now rewrite substring_prefix.
  - intros k Hk. unfold adv. cbn [index rest capture].
    apply close_miss, Hmiss, Hk.
Qed.

Lemma exec_block_math i tex post :
  lacks "$" tex = true ->
  exec_at block_math i ("$$" ++ tex ++ "$$" ++ post) =
    Some (String.length tex + 4, Some (JS.trim tex))%nat.
Proof.
  intros Htex. rewrite lacks_every in Htex.
  destruct (trimStart_split tex) as (ws & Etex & Hws).
  destruct (trimEnd_split (JS.trimStart tex)) as (ws' & Ecore & Hws').
  fold (JS.trim tex) in Ecore.
  pose proof (every_trimStart _ _ Htex) as Htex'.
  pose proof (trimStart_head tex) as Hhead.
  assert (Hlen : String.length tex =
                 (String.length ws + String.length (JS.trim tex)
                  + String.length ws')%nat).
  { rewrite Etex at 1. rewrite Ecore at 1. rewrite !length_app_string. lia. }
  assert (Hinside : forall k, (k < String.length (JS.trim tex))%nat ->
             match JS.trimStart (JS.substring_from k
                                   (JS.trim tex ++ ws' ++ "$$" ++ post)) with
             | EmptyString => True
             | String d _ => Ascii.eqb "$" d = false
             end).
  { intros k Hk.
    rewrite <- PersistenceFacts.string_app_assoc, <- Ecore.
    rewrite substring_from_app.
    - destruct (trimStart_finds (fun d => negb (Ascii.eqb "$" d))
                  (JS.substring_from k (JS.trimStart tex)) ("$$" ++ post))
        as (d & r & -> & Hd & _).
      + apply trimEnd_inside. exact Hk.
      + now apply every_substring_from.
      + now apply negb_true_iff.
    - rewrite Ecore, length_app_string. lia. }
  assert (Erest : ("$$" ++ tex ++ "$$" ++ post =
                   String "$" (String "$"
                     (ws ++ JS.trim tex ++ ws' ++ "$$" ++ post)))%string).
  { cbn [append]. do 2 f_equal. rewrite Etex at 1. rewrite Ecore at 1.
    now rewrite !PersistenceFacts.string_app_assoc. }
  rewrite Erest. unfold exec_at, block_math.
  rewrite matches_seq, matches_char_hit. cbn [flat_map]. rewrite app_nil_r.
  rewrite matches_seq, matches_char_hit. cbn [flat_map]. rewrite app_nil_r.
  rewrite matches_seq, matches_greedy_class; [|exact Hws|].
  - rewrite flat_map_longest. unfold adv at 1. cbn [index rest capture].
    rewrite substring_from_all.
    destruct (capture_then_close (S (S i) + String.length ws) (JS.trim tex) ws'
                post None Hws' Hinside) as [more ->].
    cbn [app index capture]. do 2 f_equal. lia.
  - rewrite <- PersistenceFacts.string_app_assoc, <- Ecore.
    destruct (JS.trimStart tex); [reflexivity | exact Hhead].
Qed.

Lemma replace_block_math f tex post :
  lacks "$" tex = true ->
  replace block_math f ("$$" ++ tex ++ "$$" ++ post) =
    (replacement <- f ("$$" ++ tex ++ "$$")%string (Some (JS.trim tex)) ;;
     tail <- replace block_math f post ;;
     JS.Ok (replacement ++ tail)%string).
Proof.
  intros Htex.
  assert (Eq : (("$$" ++ tex ++ "$$") ++ post =
                "$$" ++ tex ++ "$$" ++ post)%string).
  { cbn [append]. now rewrite PersistenceFacts.string_app_assoc. }
  rewrite <- Eq. apply replace_match_then; [reflexivity | discriminate|].
  rewrite Eq, (exec_block_math 0 tex post Htex). do 2 f_equal.
  cbn [append String.length]. rewrite length_app_string. cbn. lia.
Qed.

(** *** Lines *)

Lemma trimStart_spaces ws s :
  every space ws = true -> JS.trimStart (ws ++ s) = JS.trimStart s.
Proof.
  induction ws as [|c ws IH]; cbn [every append JS.trimStart]; [reflexivity|].
  intros H. apply andb_true_iff in H. destruct H as [Hc Hws].
  unfold space in Hc. now rewrite Hc, IH.
Qed.

Lemma trimEnd_app a b :
  JS.trimEnd b <> EmptyString -> JS.trimEnd (a ++ b) = (a ++ JS.trimEnd b)%string.
Proof.
  intros Hb. induction a as [|c a IH]; cbn [append JS.trimEnd]; [reflexivity|].
  rewrite IH. destruct (a ++ JS.trimEnd b)%string eqn:E; [|reflexivity].
  destruct a; cbn in E; congruence.
Qed.

Lemma trimEnd_blank b : every space b = true -> JS.trimEnd b = EmptyString.
Proof.
  induction b as [|c b IH]; cbn [every JS.trimEnd]; [reflexivity|].
  intros H. apply andb_true_iff in H. destruct H as [Hc Hb].
  unfold space in Hc. now rewrite (IH Hb), Hc.
Qed.

Lemma trimEnd_app_blank a b :
  every space b = true -> JS.trimEnd (a ++ b) = JS.trimEnd a.
Proof.
  intros Hb. induction a as [|c a IH]; cbn [append JS.trimEnd].
  - now apply trimEnd_blank.
  - now rewrite IH.
Qed.

Lemma trimStart_blank b : every space b = true -> JS.trimStart b = EmptyString.
Proof.
  intros H. rewrite <- (append_empty_r b). now rewrite trimStart_spaces.
Qed.

Lemma matches_bol s cap :
  matches Bol (mkMState 0 s cap) = [mkMState 0 s cap].
Proof. reflexivity. Qed.

Lemma matches_class_hit f c i s cap :
  f c = true ->
  matches (Class f) (mkMState i (String c s) cap) = [mkMState (S i) s cap].
Proof. apply eat_hit. Qed.

Lemma matches_class_miss f i s cap :
  match s with EmptyString => True | String c _ => f c = false end ->
  matches (Class f) (mkMState i s cap) = [].
Proof. apply eat_miss. Qed.

(** The test for a numbered item. *)
Lemma test_ordered_item d ds tail :
  digit d = true -> every digit ds = true ->
  test ordered_item (String d ds ++ ". " ++ tail) = true.
Proof.
  intros Hd Hds. unfold test. cbn [append test_from].
  assert (E : exists st l,
             matches ordered_item
               (mkMState 0 (String d (ds ++ String "." (String " " tail))) None)
             = st :: l).
  { unfold ordered_item, Plus.
    rewrite matches_seq, matches_bol. cbn [flat_map]. rewrite app_nil_r.
    rewrite matches_seq, matches_seq, (matches_class_hit digit _ _ _ _ Hd).
    cbn [flat_map]. rewrite app_nil_r.
    rewrite matches_greedy_class; [|exact Hds | reflexivity].
    rewrite flat_map_longest. unfold adv at 1. cbn [index rest capture].
    rewrite substring_from_all.
    rewrite matches_seq, matches_char_hit. cbn [flat_map]. rewrite app_nil_r.
    rewrite matches_char_hit. cbn [app]. eexists; eexists; reflexivity. }
  destruct E as (st & l & E). unfold exec_at. now rewrite E.
Qed.

Lemma test_ordered_item_no_digit c s :
  digit c = false -> test ordered_item (String c s) = false.
Proof.
  intros Hc. unfold test. cbn [test_from].
  assert (E : exec_at ordered_item 0 (String c s) = None).
  { unfold exec_at, ordered_item, Plus.
    rewrite matches_seq, matches_bol. cbn [flat_map]. rewrite app_nil_r.
    rewrite matches_seq, matches_seq, matches_class_miss by exact Hc.
    reflexivity. }
  rewrite E. apply anchored_fails_later.
Qed.

Lemma unpaired_app c a b :
  unpaired c a = true -> unpaired c (a ++ b) = unpaired c b.
Proof.
  induction a as [|d a IH]; cbn [unpaired append]; [reflexivity|].
  intros H. apply andb_true_iff in H. destruct H as [Hd Ha].
  rewrite (IH Ha). destruct (Ascii.eqb c d); [|reflexivity].
  destruct a as [|e a]; [discriminate|]. cbn [append]. now rewrite Hd.
Qed.

Lemma digit_not_space c : digit c = true -> JS.is_space c = false.
Proof.
  unfold digit, JS.is_digit, JS.is_space. intros H.
  apply andb_true_iff in H. destruct H as [H1 H2].
  apply Nat.leb_le in H1. apply Nat.leb_le in H2.
  apply orb_false_iff. split; [apply orb_false_iff; split|].
  - apply andb_false_iff. right. apply Nat.leb_gt. lia.
  - apply Nat.eqb_neq. lia.
  - apply Nat.eqb_neq. lia.
Qed.

Lemma digit_differs c d : digit d = true -> digit c = false -> Ascii.eqb c d = false.
Proof.
  intros Hd Hc. destruct (Ascii.eqb_spec c d) as [->|]; [congruence | reflexivity].
Qed.

Lemma digits_lack c ds : digit c = false -> every digit ds = true -> lacks c ds = true.
Proof.
  intros Hc H. rewrite lacks_every. apply (every_impl digit); [|exact H].
  intros d Hd. apply negb_true_iff. now apply digit_differs.
Qed.

Lemma spaces_lack c ws : space c = false -> every space ws = true -> lacks c ws = true.
Proof.
  intros Hc H. rewrite lacks_every. apply (every_impl space); [|exact H].
  intros d Hd. apply negb_true_iff. now apply space_not.
Qed.

Lemma indexOf_from_skip c a b :
  lacks c a = true ->
  forall i, JS.indexOf_from c (a ++ String c b) i = (i + Z.of_nat (String.length a))%Z.
Proof.
  induction a as [|d a IH]; cbn [lacks append JS.indexOf_from String.length];
    intros H i.
  - rewrite Ascii.eqb_refl. lia.
  - apply andb_true_iff in H. destruct H as [Hd Ha].
    apply negb_true_iff in Hd. rewrite Hd, (IH Ha). lia.
Qed.

(** The trimmed text of a line made of an indentation, a marker that
    starts with a character that is not white space, and a body that is
    not blank. *)
Lemma trim_item indent c marker body :
  every space indent = true -> JS.is_space c = false ->
  JS.trimEnd body <> EmptyString ->
  JS.trim (indent ++ String c marker ++ body) =
    (String c marker ++ JS.trimEnd body)%string.
Proof.
  intros Hindent Hc Hbody. unfold JS.trim.
  rewrite (trimStart_spaces _ _ Hindent). cbn [append JS.trimStart].
  rewrite Hc. change (String c (marker ++ body)) with (String c marker ++ body)%string.
  now apply trimEnd_app.
Qed.

Lemma bold_pass_after pre s :
  unpaired "*" pre = true ->
  bold_pass (pre ++ s) = (html <- bold_pass s ;; JS.Ok (pre ++ html)%string).
Proof.
  intros H. unfold bold_pass.
  apply (replace_plain_then bold _ eq_refl pre s), no_match_unpaired, H.
Qed.

Lemma ordered_content_start d ds b :
  digit d = true -> every digit ds = true ->
  Z.to_nat (JS.indexOf " " (String d (ds ++ String "." (String " " b))) + 1) =
  (String.length ds + 3)%nat.
Proof.
  intros Hd Hds. unfold JS.indexOf.
  assert (E : String d (ds ++ String "." (String " " b)) =
              ((String d ds ++ ".") ++ String " " b)%string).
  { cbn [append]. f_equal. now rewrite PersistenceFacts.string_app_assoc. }
  rewrite E, indexOf_from_skip.
  - cbn [append String.length]. rewrite length_app_string. cbn [String.length]. lia.
  - cbn [append lacks]. rewrite lacks_app, (digits_lack " "%char ds eq_refl Hds).
    rewrite (digit_differs " "%char d Hd eq_refl). reflexivity.
Qed.

Lemma substring_from_marker d ds t :
  JS.substring_from (String.length ds + 3)
    (String d (ds ++ String "." (String " " t))) = t.
Proof.
  assert (E : String d (ds ++ String "." (String " " t)) =
              ((String d ds ++ ". ") ++ t)%string).
  { cbn [append]. f_equal. now rewrite PersistenceFacts.string_app_assoc. }
  rewrite E.
  replace (String.length ds + 3)%nat with (String.length (String d ds ++ ". "))
    by (cbn [append String.length]; rewrite length_app_string; cbn; lia).
  apply substring_from_all.
Qed.

Lemma renderedContent_passes katex content :
  content <> EmptyString ->
  renderedContent (Some katex) content =
    (processed1 <- block_pass katex content ;;
     processed2 <- inline_pass katex processed1 ;;
     blocks <- mapM render_line (JS.split "010" processed2) ;;
     JS.Ok (Elements blocks)).
Proof. intros H. destruct content; [congruence | reflexivity]. Qed.

Lemma split_line_feeds s : List.length (JS.split "010" s) = S (line_feeds s).
Proof.
  induction s as [|d s IH]; cbn [JS.split line_feeds]; [reflexivity|].
  destruct (Ascii.eqb "010" d); cbn [List.length]; [now rewrite IH|].
  destruct (JS.split "010" s); cbn [List.length] in *; [discriminate | exact IH].
Qed.

Lemma mapM_length {A B} (f : A -> JS.Result B) :
  forall l ys, mapM f l = JS.Ok ys -> List.length ys = List.length l.
Proof.
  induction l as [|x l IH]; cbn [mapM]; intros ys H.
  - now injection H as <-.
  - destruct (f x) as [y|e]; [|discriminate]. cbn [JS.bind] in H.
    destruct (mapM f l) as [ys'|e]; [|discriminate]. cbn [JS.bind] in H.
    injection H as <-. cbn. now rewrite (IH ys' eq_refl).
Qed.


(** *** Whole contents *)

Lemma exec_block_math_single i post :
  lacks "$" post = true ->
  exec_at block_math i (String "$" post) = None.
Proof.
  intros H. unfold exec_at, block_math.
  rewrite matches_seq, matches_char_hit. cbn [flat_map]. rewrite app_nil_r.
  rewrite matches_seq.
  change (matches (Char "$") (mkMState (S i) post None))
    with (eat (mkMState (S i) post None) (Ascii.eqb "$")).
  rewrite eat_miss; [reflexivity|].
  destruct post as [|c post]; [exact I|]. cbn [lacks] in H.
  apply andb_true_iff in H. destruct H as [H _]. now apply negb_true_iff in H.
Qed.

(** A closing dollar with no dollar after it is left by the block pass. *)
Lemma block_pass_single katex post :
  lacks "$" post = true ->
  block_pass katex (String "$" post) = JS.Ok (String "$" post).
Proof.
  intros H. unfold block_pass, replace. cbn [replace_from].
  rewrite (exec_block_math_single 0 post H).
  unfold block_math. rewrite (replace_lacking_first_char "$" _ _ post 1 H).
  reflexivity.
Qed.

Lemma paragraph_line c t :
  JS.is_space c = false -> digit c = false ->
  c <> "*"%char -> c <> "-"%char ->
  lacks "*" (String c t) = true ->
  render_line (String c t) = JS.Ok (p (String c t)).
Proof.
  intros Hsp Hdigit Hstar Hdash Hplain.
  unfold render_line. fold (bold_pass (String c t)).
  rewrite (bold_pass_unpaired _ (lacks_unpaired _ _ Hplain)). cbn [JS.bind].
  assert (Htrim : exists t', JS.trim (String c t) = String c t').
  { unfold JS.trim. cbn [JS.trimStart]. rewrite Hsp.
    now apply trimEnd_keeps_head. }
  destruct Htrim as [t' ->].
  rewrite (test_ordered_item_no_digit c t' Hdigit).
  unfold JS.startsWith. cbn [prefix].
  destruct (ascii_dec "*" c) as [E|_]; [now destruct Hstar|].
  destruct (ascii_dec "-" c) as [E|_]; [now destruct Hdash|].
  reflexivity.
Qed.

End MatcherFacts.

(* ===================================================================== *)
(** ** Properties of the renderer beyond the claims *)
(* ===================================================================== *)

Module RendererProperties.
Import RegExp MathMarkdown RegExpFacts Passes MatcherFacts.

(** X14. Inline math is typeset in place.  In text with no dollar before
    it, a stretch between two single dollars that is not empty and has no
    dollar and no line feed is replaced by what [renderMath] gives for it,
    in inline mode; the text before it is kept and the text after it is
    processed in the same way.  An opening dollar whose line ends before
    the next dollar is not math: it stays, with its line. *)
Theorem inline_math_is_typeset_in_place :
  forall (katex : Katex) (pre tex post : string),
    lacks "$" pre = true ->
    lacks "$" tex = true -> lacks "010" tex = true ->
    (tex <> EmptyString ->
     inline_pass katex (pre ++ "$" ++ tex ++ "$" ++ post) =
       (html <- renderMath katex tex false ;;
        rest <- inline_pass katex post ;;
        JS.Ok (pre ++ html ++ rest)%string)) /\
    inline_pass katex (pre ++ "$" ++ tex ++ String "010" post) =
      (rest <- inline_pass katex post ;;
       JS.Ok (pre ++ "$" ++ tex ++ String "010" rest)%string).
Proof.
  intros katex pre tex post Hpre Hd Hn.
  pose proof (ndn_of_lacks tex Hd Hn) as Htex.
  unfold inline_pass. split.
  - intros Hne. destruct tex as [|c tex]; [congruence|].
    rewrite (replace_plain_then inline_math _ eq_refl pre _
               (plain_lacking "$" _ pre _ Hpre)).
    rewrite (replace_inline_math _ c tex post Htex). cbn [group1].
    destruct (renderMath katex (String c tex) false) as [html|e]; [|reflexivity].
    cbn [JS.bind].
    destruct (replace inline_math _ post) as [rest|e]; reflexivity.
  - rewrite (replace_plain_then inline_math _ eq_refl pre _
               (plain_lacking "$" _ pre _ Hpre)).
    rewrite (replace_plain_then inline_math _ eq_refl "$" (tex ++ String "010" post)).
    + assert (Eq : (tex ++ String "010" post =
                    (tex ++ String "010" EmptyString) ++ post)%string).
      { rewrite PersistenceFacts.string_app_assoc. reflexivity. }
      rewrite Eq.
      rewrite (replace_plain_then inline_math _ eq_refl
                 (tex ++ String "010" EmptyString) post).
      * destruct (replace inline_math _ post) as [rest|e]; [|reflexivity].
        cbn [JS.bind append]. now rewrite PersistenceFacts.string_app_assoc.
      * apply plain_lacking. rewrite lacks_app, Hd. reflexivity.
    + intros k Hk. cbn in Hk. assert (k = 0%nat) as -> by lia.
      apply (exec_inline_math_line_feed 0 tex post Htex).
Qed.

(** Prices are read as math: the text between the two dollars of two
    amounts is typeset.  Across a line feed the dollars stay. *)
Lemma inline_math_is_typeset_in_place_witness :
  inline_pass span_backend "costs $5 and $10" =
    JS.Ok ("costs <span class=" ++ dquote ++ "katex" ++ dquote
           ++ ">5 and </span>10")%string /\
  inline_pass span_backend ("a $x" ++ String "010" "y")%string =
    JS.Ok ("a $x" ++ String "010" "y")%string.
Proof.
  destruct (inline_math_is_typeset_in_place span_backend "costs " "5 and " "10"
              eq_refl eq_refl eq_refl) as [H _].
  destruct (inline_math_is_typeset_in_place span_backend "a " "x" "y"
              eq_refl eq_refl eq_refl) as [_ H'].
  split.
  - refine (eq_trans (H _) _); [discriminate | reflexivity].
  - exact H'.
Defined.

(** X15. Block math is trimmed and wrapped.  In text where every dollar
    before it stands alone, a stretch between two double dollars that has
    no dollar is replaced by the display container around what
    [renderMath] gives, in display mode, for the stretch without the white
    space and line breaks at its ends; the text before it is kept and the
    text after it is processed in the same way. *)
Theorem block_math_is_trimmed_and_wrapped :
  forall (katex : Katex) (pre tex post : string),
    unpaired "$" pre = true ->
    lacks "$" tex = true ->
    block_pass katex (pre ++ "$$" ++ tex ++ "$$" ++ post) =
      (html <- renderMath katex (JS.trim tex) true ;;
       rest <- block_pass katex post ;;
       JS.Ok (pre ++ display_container html ++ rest)%string).
Proof.
  intros katex pre tex post Hpre Htex. unfold block_pass.
  rewrite (replace_plain_then block_math _ eq_refl pre _
             (no_match_unpaired "$" _ pre _ Hpre)).
  rewrite (replace_block_math _ tex post Htex). cbn [group1].
  destruct (renderMath katex (JS.trim tex) true) as [html|e]; [|reflexivity].
  cbn [JS.bind].
  destruct (replace block_math _ post) as [rest|e]; reflexivity.
Qed.

(** A formula on its own line between the delimiters, after a price. *)
Lemma block_math_is_trimmed_and_wrapped_witness :
  block_pass span_backend
    ("for $5: $$" ++ String "010" "  x^2 " ++ String "010" "$$ done")%string =
  JS.Ok ("for $5: " ++ display_container
                         ("<span class=" ++ dquote ++ "katex" ++ dquote
                          ++ ">x^2</span>") ++ " done")%string.
Proof.
  refine (eq_trans
            (block_math_is_trimmed_and_wrapped span_backend "for $5: "
               (String "010" "  x^2 " ++ String "010" EmptyString) " done"
               eq_refl eq_refl) _).
  reflexivity.
Defined.

(** X16. Bold is marked up in place.  In a line where every star before
    it stands alone, a stretch between two double stars that has no line
    break and no two stars in a row is put between [<strong>] and
    [</strong>]; the text before it is kept and the text after it is
    processed in the same way. *)
Theorem bold_is_marked_up_in_place :
  forall pre body post : string,
    unpaired "*" pre = true ->
    unpaired "*" body = true ->
    lacks "010" body = true -> lacks "013" body = true ->
    bold_pass (pre ++ "**" ++ body ++ "**" ++ post) =
      (rest <- bold_pass post ;;
       JS.Ok (pre ++ "<strong>" ++ body ++ "</strong>" ++ rest)%string).
Proof.
  intros pre body post Hpre Hbody Hn Hr. unfold bold_pass.
  rewrite (replace_plain_then bold _ eq_refl pre _
             (no_match_unpaired "*" _ pre _ Hpre)).
  rewrite (replace_bold _ body post (dot_of_lacks body Hn Hr) Hbody).
  cbn [JS.bind group1].
  destruct (replace bold _ post) as [rest|e]; [|reflexivity].
  cbn [JS.bind append]. now rewrite !PersistenceFacts.string_app_assoc.
Qed.

(** A product sign before the bold words, and two bold stretches. *)
Lemma bold_is_marked_up_in_place_witness :
  bold_pass "2 * 3 is **six** and **a*b**" =
    JS.Ok "2 * 3 is <strong>six</strong> and <strong>a*b</strong>".
Proof.
  refine (eq_trans
            (bold_is_marked_up_in_place "2 * 3 is " "six" " and **a*b**"
               eq_refl eq_refl eq_refl eq_refl) _).
  reflexivity.
Defined.

(** X17. List items.  A line that is, after any indentation, a dash or a
    star, a space and a body that is not blank is a bullet item whose HTML
    is the body, bold replaced, without the white space at its end.  A
    line that is a number, a dot, a space and such a body is a numbered
    item with the same HTML.  When the line starts with a space, the
    numbered item keeps its marker but for the first digit, because the
    start of the body is looked up in the line as typed and cut from the
    trimmed one. *)
Theorem list_item_lines :
  forall indent body html : string,
    every space indent = true ->
    bold_pass body = JS.Ok html ->
    JS.trimEnd body <> EmptyString ->
    JS.trimEnd html <> EmptyString ->
    render_line (indent ++ "- " ++ body) = JS.Ok (li_disc (JS.trimEnd html)) /\
    render_line (indent ++ "* " ++ body) = JS.Ok (li_disc (JS.trimEnd html)) /\
    forall d ds,
      digit d = true -> every digit ds = true ->
      render_line (String d ds ++ ". " ++ body) =
        JS.Ok (li_decimal (JS.trimEnd html)) /\
      render_line (" " ++ indent ++ String d ds ++ ". " ++ body) =
        JS.Ok (li_decimal (ds ++ ". " ++ JS.trimEnd html)).
Proof.
  intros indent body html Hindent Hbold Hbody Hhtml.
  assert (Hstar : unpaired "*" indent = true)
    by (apply lacks_unpaired, spaces_lack; [reflexivity | exact Hindent]).
  assert (Hbullet : forall c, JS.is_space c = false ->
            unpaired "*" (String c " ") = true ->
            JS.startsWith "* " (String c (String " " (JS.trimEnd body)))
            || JS.startsWith "- " (String c (String " " (JS.trimEnd body))) = true ->
            render_line (indent ++ String c " " ++ body) =
              JS.Ok (li_disc (JS.trimEnd html))).
  { intros c Hc Hmark Hstarts. unfold render_line. fold (bold_pass (indent ++ String c " " ++ body)).
    rewrite (bold_pass_after indent _ Hstar), (bold_pass_after (String c " ") body Hmark).
    rewrite Hbold. cbn [JS.bind].
    rewrite !(trim_item indent c " " _ Hindent Hc) by assumption.
    cbn [append]. rewrite Hstarts. reflexivity. }
  split.
  { apply (Hbullet "-"%char); try reflexivity.
    unfold JS.startsWith. cbn. now destruct (JS.trimEnd body). }
  split.
  { apply (Hbullet "*"%char); try reflexivity.
    unfold JS.startsWith. cbn. now destruct (JS.trimEnd body). }
  intros d ds Hd Hds.
  pose proof (digit_not_space d Hd) as Hsp.
  assert (Hnum : unpaired "*" (String d (ds ++ ". ")) = true).
  { apply lacks_unpaired.
    cbn [lacks]. rewrite lacks_app, (digits_lack "*"%char ds eq_refl Hds).
    rewrite (digit_differs "*"%char d Hd eq_refl). reflexivity. }
  assert (Hno : forall t, JS.startsWith "* " (String d t) || JS.startsWith "- " (String d t)
                          = false).
  { intros t. unfold JS.startsWith. cbn [prefix].
    destruct (ascii_dec "*"%char d) as [<-|_]; [discriminate|].
    destruct (ascii_dec "-"%char d) as [<-|_]; [discriminate|]. reflexivity. }
  assert (Eline : forall b, (String d ds ++ ". " ++ b = String d (ds ++ ". ") ++ b)%string).
  { intros b. cbn [append]. now rewrite PersistenceFacts.string_app_assoc. }
  split.
  - unfold render_line. fold (bold_pass (String d ds ++ ". " ++ body)).
    rewrite (Eline body), (bold_pass_after _ body Hnum), Hbold. cbn [JS.bind].
    pose proof (trim_item EmptyString d (ds ++ ". ") body eq_refl Hsp Hbody) as Ht.
    pose proof (trim_item EmptyString d (ds ++ ". ") html eq_refl Hsp Hhtml) as Ht'.
    cbn [append] in Ht, Ht'. cbn [append]. rewrite Ht, Ht', Hno.
    rewrite !PersistenceFacts.string_app_assoc. cbn [append orb].
    pose proof (test_ordered_item d ds (JS.trimEnd body) Hd Hds) as T.
    cbn [append] in T. rewrite T.
    now rewrite (ordered_content_start d ds body Hd Hds), substring_from_marker.
  - unfold render_line.
    fold (bold_pass (" " ++ indent ++ String d ds ++ ". " ++ body)).
    assert (Epre : (" " ++ indent ++ String d ds ++ ". " ++ body =
                    String " " indent ++ String d (ds ++ ". ") ++ body)%string).
    { cbn [append]. now rewrite PersistenceFacts.string_app_assoc. }
    rewrite Epre.
    assert (Hindent' : every space (String " " indent) = true) by exact Hindent.
    rewrite (bold_pass_after (String " " indent) _
               (lacks_unpaired _ _ (spaces_lack "*"%char _ eq_refl Hindent'))).
    rewrite (bold_pass_after _ body Hnum), Hbold. cbn [JS.bind].
    rewrite !(trim_item (String " " indent) d (ds ++ ". ") _ Hindent' Hsp)
      by assumption.
    cbn [append]. rewrite Hno. rewrite !PersistenceFacts.string_app_assoc. cbn [append orb].
    pose proof (test_ordered_item d ds (JS.trimEnd body) Hd Hds) as T.
    cbn [append] in T. rewrite T.
    unfold JS.indexOf. cbn [JS.indexOf_from]. rewrite Ascii.eqb_refl.
    reflexivity.
Qed.

(** A bullet with bold text, and the item [12.] typed after a space. *)
Lemma list_item_lines_witness :
  render_line "  - **Step** one  " = JS.Ok (li_disc "<strong>Step</strong> one") /\
  render_line "* **Step** one  " = JS.Ok (li_disc "<strong>Step</strong> one") /\
  render_line "12. **Step** one  " = JS.Ok (li_decimal "<strong>Step</strong> one") /\
  render_line " 12. next" = JS.Ok (li_decimal "2. next").
Proof.
  destruct (list_item_lines "  " "**Step** one  " "<strong>Step</strong> one  "
              eq_refl eq_refl ltac:(discriminate) ltac:(discriminate))
    as (Hdash & _).
  destruct (list_item_lines EmptyString "**Step** one  " "<strong>Step</strong> one  "
              eq_refl eq_refl ltac:(discriminate) ltac:(discriminate))
    as (_ & Hstar & Hnum).
  destruct (Hnum "1"%char "2" eq_refl eq_refl) as [Hflush _].
  destruct (list_item_lines EmptyString "next" "next"
              eq_refl eq_refl ltac:(discriminate) ltac:(discriminate))
    as (_ & _ & Hnum').
  destruct (Hnum' "1"%char "2" eq_refl eq_refl) as [_ Hindented].
  repeat split; assumption.
Defined.

(** X18. The other lines.  A line of white space only, or an empty one,
    is a line break.  A line whose first character after the indentation
    is not a digit, a star or a dash is a paragraph whose HTML is the whole
    line, indentation included, with bold replaced.  A dash with nothing
    but white space after it is a paragraph too, not an empty bullet. *)
Theorem lines_that_are_not_items :
  forall line : string,
    (every space line = true -> render_line line = JS.Ok br) /\
    (forall c t html,
       JS.trim line = String c t ->
       digit c = false -> c <> "*"%char -> c <> "-"%char ->
       bold_pass line = JS.Ok html ->
       render_line line = JS.Ok (p html)) /\
    (forall indent ws,
       line = (indent ++ "-" ++ ws)%string ->
       every space indent = true -> every space ws = true ->
       render_line line = JS.Ok (p line)).
Proof.
  intros line. split; [|split].
  - intros Hblank. unfold render_line. fold (bold_pass line).
    rewrite (bold_pass_unpaired line)
      by (apply lacks_unpaired, spaces_lack; [reflexivity | exact Hblank]).
    cbn [JS.bind]. unfold JS.trim. rewrite (trimStart_blank line Hblank).
    reflexivity.
  - intros c t html Htrim Hdigit Hstar Hdash Hbold.
    unfold render_line. fold (bold_pass line). rewrite Hbold. cbn [JS.bind].
    rewrite Htrim, (test_ordered_item_no_digit c t Hdigit).
    unfold JS.startsWith. cbn [prefix].
    destruct (ascii_dec "*" c) as [E|_]; [now destruct Hstar|].
    destruct (ascii_dec "-" c) as [E|_]; [now destruct Hdash|].
    reflexivity.
  - intros indent ws -> Hindent Hws.
    assert (Hstar : unpaired "*" (indent ++ "-" ++ ws) = true).
    { apply lacks_unpaired. rewrite lacks_app.
      rewrite (spaces_lack "*"%char indent eq_refl Hindent).
      cbn [append lacks]. now rewrite (spaces_lack "*"%char ws eq_refl Hws). }
    unfold render_line. fold (bold_pass (indent ++ "-" ++ ws)).
    rewrite (bold_pass_unpaired _ Hstar). cbn [JS.bind].
    assert (Htrim : JS.trim (indent ++ "-" ++ ws) = "-").
    { unfold JS.trim. rewrite (trimStart_spaces _ _ Hindent).
      cbn [append JS.trimStart].
      change (JS.is_space "-") with false. cbv iota.
      change (String "-" ws) with ("-" ++ ws)%string.
      now rewrite (trimEnd_app_blank "-" ws Hws). }
    rewrite Htrim. reflexivity.
Qed.

(** X19. Text without a dollar never reaches the typesetting backend:
    whatever the backend, the rendering is the list of the renderings of
    its lines, one block per line. *)
Theorem text_without_dollar_skips_backend :
  forall content : string,
    content <> EmptyString ->
    lacks "$" content = true ->
    exists blocks,
      mapM render_line (JS.split "010" content) = JS.Ok blocks /\
      List.length blocks = S (line_feeds content) /\
      forall katex : Katex,
        renderedContent (Some katex) content = JS.Ok (Elements blocks).
Proof.
  intros content Hne Hplain.
  destruct (RenderClaims.mapM_total render_line RenderClaims.render_line_total
              (JS.split "010" content)) as [blocks Hblocks].
  exists blocks. split; [exact Hblocks|]. split.
  - rewrite (mapM_length _ _ _ Hblocks). apply split_line_feeds.
  - intros katex. rewrite (renderedContent_passes katex content Hne).
    unfold block_pass, inline_pass, replace, block_math, inline_math.
    rewrite replace_lacking_first_char by exact Hplain. cbn [JS.bind].
    rewrite replace_lacking_first_char by exact Hplain. cbn [JS.bind].
    now rewrite Hblocks.
Qed.

(** Three lines: a sentence, a blank line and a bullet. *)
Lemma text_without_dollar_skips_backend_witness :
  renderedContent (Some failing_backend)
    ("Steps:" ++ String "010" (String "010" "- **add** 2"))%string =
  JS.Ok (Elements [p "Steps:"; br; li_disc "<strong>add</strong> 2"]).
Proof.
  destruct (text_without_dollar_skips_backend
              ("Steps:" ++ String "010" (String "010" "- **add** 2"))%string
              ltac:(discriminate) eq_refl) as (blocks & Hblocks & _ & H).
  rewrite (H failing_backend). f_equal. f_equal.
  cbn in Hblocks. now injection Hblocks as <-.
Defined.

(** X20. A sentence with one formula.  Text on one line that starts with
    a character that is not white space, a digit, a star or a dash, and
    holds one stretch between single dollars, is rendered as exactly one
    paragraph: the text with the stretch replaced by what [renderMath] gives
    for it, provided the text around the stretch and that HTML hold no
    dollar, line feed or star.  The block pass leaves the single dollars
    alone. *)
Theorem sentence_with_inline_math :
  forall (katex : Katex) (c : ascii) (pre tex post html : string),
    JS.is_space c = false -> digit c = false ->
    c <> "*"%char -> c <> "-"%char ->
    clean (String c pre) = true -> clean post = true ->
    tex <> EmptyString ->
    lacks "$" tex = true -> lacks "010" tex = true ->
    renderMath katex tex false = JS.Ok html ->
    clean html = true ->
    renderedContent (Some katex) (String c pre ++ "$" ++ tex ++ "$" ++ post) =
      JS.Ok (Elements [p (String c pre ++ html ++ post)]).
Proof.
  intros katex c pre tex post html Hsp Hdigit Hstar Hdash Hpre Hpost Hne
    Htex Htexn Hmath Hhtml.
  unfold clean in Hpre, Hpost, Hhtml.
  apply andb_true_iff in Hpre. destruct Hpre as [Hpre Hpre_s].
  apply andb_true_iff in Hpre. destruct Hpre as [Hpre_d Hpre_n].
  apply andb_true_iff in Hpost. destruct Hpost as [Hpost Hpost_s].
  apply andb_true_iff in Hpost. destruct Hpost as [Hpost_d Hpost_n].
  apply andb_true_iff in Hhtml. destruct Hhtml as [Hhtml Hhtml_s].
  apply andb_true_iff in Hhtml. destruct Hhtml as [Hhtml_d Hhtml_n].
  rewrite renderedContent_passes by discriminate.
  assert (Hblock : block_pass katex (String c pre ++ "$" ++ tex ++ "$" ++ post) =
                   JS.Ok (String c pre ++ "$" ++ tex ++ "$" ++ post)%string).
  { assert (E : (String c pre ++ "$" ++ tex ++ "$" ++ post =
                 (String c pre ++ "$" ++ tex) ++ String "$" post)%string).
    { now rewrite !PersistenceFacts.string_app_assoc. }
    rewrite E. unfold block_pass.
    rewrite (replace_plain_then block_math _ eq_refl).
    - fold (block_pass katex (String "$" post)).
      now rewrite block_pass_single.
    - apply no_match_unpaired.
      rewrite (unpaired_app "$" (String c pre)) by now apply lacks_unpaired.
      destruct tex as [|d tex]; [congruence|].
      cbn [append unpaired lacks] in *.
      apply andb_true_iff in Htex. destruct Htex as [Hd Htex].
      rewrite Ascii.eqb_refl, Hd. cbn [andb].
      apply negb_true_iff in Hd. rewrite Hd.
      now apply lacks_unpaired. }
  rewrite Hblock. cbn [JS.bind].
  assert (Hinline : inline_pass katex (String c pre ++ "$" ++ tex ++ "$" ++ post) =
                    JS.Ok (String c pre ++ html ++ post)%string).
  { unfold inline_pass.
    rewrite (replace_plain_then inline_math _ eq_refl (String c pre) _
               (plain_lacking "$" _ (String c pre) _ Hpre_d)).
    destruct tex as [|d tex]; [congruence|].
    rewrite (replace_inline_math _ d tex post (ndn_of_lacks _ Htex Htexn)).
    cbn [group1]. rewrite Hmath. cbn [JS.bind].
    unfold replace, inline_math.
    rewrite replace_lacking_first_char by exact Hpost_d. reflexivity. }
  rewrite Hinline. cbn [JS.bind].
  rewrite split_lacking by (now rewrite !lacks_app, Hpre_n, Hhtml_n, Hpost_n).
  cbn [mapM append].
  rewrite paragraph_line; try assumption; [reflexivity|].
  change (String c (pre ++ html ++ post)) with (String c pre ++ html ++ post)%string.
  now rewrite !lacks_app, Hpre_s, Hhtml_s, Hpost_s.
Qed.

(** Two of the suggestions of the start screen. *)
Lemma sentence_with_inline_math_witness :
  renderedContent (Some span_backend) "Solve: $x^2 + 5x + 6 = 0$" =
    JS.Ok (Elements
             [p ("Solve: <span class=" ++ dquote ++ "katex" ++ dquote
                 ++ ">x^2 + 5x + 6 = 0</span>")]) /\
  renderedContent (Some failing_backend) "Graph of $f(x) = \sin(x)e^{-x}$" =
    JS.Ok (Elements [p "Graph of f(x) = \sin(x)e^{-x}"]).
Proof.
  split.
  - refine (eq_trans
              (sentence_with_inline_math span_backend "S" "olve: "
                 "x^2 + 5x + 6 = 0" EmptyString
                 ("<span class=" ++ dquote ++ "katex" ++ dquote
                  ++ ">x^2 + 5x + 6 = 0</span>")
                 eq_refl eq_refl _ _ eq_refl eq_refl _ eq_refl eq_refl
                 eq_refl eq_refl) _);
      [discriminate | discriminate | discriminate | reflexivity].
  - refine (eq_trans
              (sentence_with_inline_math failing_backend "G" "raph of "
                 "f(x) = \sin(x)e^{-x}" EmptyString "f(x) = \sin(x)e^{-x}"
                 eq_refl eq_refl _ _ eq_refl eq_refl _ eq_refl eq_refl
                 eq_refl eq_refl) _);
      [discriminate | discriminate | discriminate | reflexivity].
Defined.

(** X21. A display formula alone.  Whatever the TeX between the double
    dollars, as long as it holds no dollar, the content is rendered as
    exactly one block: a paragraph whose HTML is the display container
    around what [renderMath] gives, in display mode, for the TeX without
    the white space at its ends, provided that HTML holds no dollar, line
    feed or star. *)
Theorem display_formula_alone :
  forall (katex : Katex) (tex html : string),
    lacks "$" tex = true ->
    renderMath katex (JS.trim tex) true = JS.Ok html ->
    clean html = true ->
    renderedContent (Some katex) ("$$" ++ tex ++ "$$") =
      JS.Ok (Elements [p (display_container html)]).
Proof.
  intros katex tex html Htex Hmath Hclean.
  destruct (RenderClaims.display_container_clean html Hclean)
    as (Hdollar & Hnl & Hstar).
  rewrite renderedContent_passes by discriminate.
  assert (Hblock : block_pass katex ("$$" ++ tex ++ "$$") =
                   JS.Ok (display_container html)).
  { unfold block_pass.
    pose proof (replace_block_math
                  (fun _ math =>
                     html <- renderMath katex (group1 math) true ;;
                     JS.Ok (display_container html))
                  tex EmptyString Htex) as H.
    cbn [group1] in H. rewrite Hmath in H. cbn [JS.bind] in H.
    rewrite append_empty_r in H. rewrite H.
    assert (E : forall f, replace block_math f EmptyString = JS.Ok EmptyString)
      by (intros f; reflexivity).
    rewrite E. cbn [JS.bind]. now rewrite append_empty_r. }
  rewrite Hblock. cbn [JS.bind].
  unfold inline_pass, replace, inline_math.
  rewrite replace_lacking_first_char by exact Hdollar. cbn [JS.bind].
  rewrite split_lacking by exact Hnl. cbn [mapM].
  assert (Hline : render_line (display_container html) =
                  JS.Ok (p (display_container html))).
  { apply (RenderClaims.render_line_html
             (("div class=" ++ dquote ++ "katex-display-container" ++ dquote ++ ">")
              ++ html ++ display_close)%string).
    exact Hstar. }
  rewrite Hline. reflexivity.
Qed.

(** The first suggestion of the start screen, and a formula typed on its
    own line between the delimiters. *)
Lemma display_formula_alone_witness :
  renderedContent (Some failing_backend)
    "$$\int_{0}^{\infty} \frac{\sin x}{x} dx$$" =
    JS.Ok (Elements
             [p (display_container "\int_{0}^{\infty} \frac{\sin x}{x} dx")]) /\
  renderedContent (Some failing_backend)
    ("$$" ++ String "010" "E = mc^2" ++ String "010" "$$")%string =
    JS.Ok (Elements [p (display_container "E = mc^2")]).
Proof.
  split.
  - exact (display_formula_alone failing_backend
             "\int_{0}^{\infty} \frac{\sin x}{x} dx"
             "\int_{0}^{\infty} \frac{\sin x}{x} dx" eq_refl eq_refl eq_refl).
  - refine (eq_trans
              (display_formula_alone failing_backend
                 (String "010" "E = mc^2" ++ String "010" EmptyString)
                 "E = mc^2" eq_refl eq_refl eq_refl) _).
    reflexivity.
Defined.

End RendererProperties.
